(** * A shallow embedding of [bf.py]: the brainfuck interpreter and compiler.

    The development follows the source file top to bottom:
    - [Py]         the Python primitives the program relies on (list indexing,
                   item assignment, [bytes([x])], [& 0xff]);
    - [Lexer]      the comment-stripping [re.sub] at the top of [execute];
    - [Interp]     the [execute] loop, one [step] per iteration of its [while];
    - [Translator] the [Compiler] class and [compile];
    - [Host]       the meaning of the C statements the compiler writes, used
                   to compare the emitted program with the interpreter.

    Characters are [ascii], source texts are [list ascii], Python integers are
    [Z], the bytes of the process streams are [Byte.byte].  [hexdump] and the
    command line handled under [__main__] are left out: the dump goes to the
    diagnostic stream, which no property below looks at. *)

From Stdlib Require Import ZArith List Ascii String Bool Lia.
From Stdlib Require Import Strings.Byte DecimalString HexString.
Import ListNotations.

#[local] Set Warnings "-register-all".

#[local] Open Scope Z_scope.

(** ** Outcomes *)

(** The four [exit(n)] calls of the program. *)
Inductive exit_kind : Type :=
| MissingSourceFile
| CursorUnderflow
| UnbalancedMissingClose
| UnbalancedMissingOpen.

(** The argument of [exit] at each of them. *)
Definition exit_code (k : exit_kind) : Z :=
  match k with
  | MissingSourceFile => 1
  | CursorUnderflow => 2
  | UnbalancedMissingClose => 3
  | UnbalancedMissingOpen => 4
  end.

(** Exceptions Python itself would raise on a bad index or a bad byte. *)
Inductive py_exception : Type :=
| IndexError
| ValueError.

Inductive result (A : Type) : Type :=
| Ok (a : A)
| Exit (k : exit_kind)
| Raise (e : py_exception).

Arguments Ok {A} a.
Arguments Exit {A} k.
Arguments Raise {A} e.

Definition bind {A B : Type} (r : result A) (f : A -> result B) : result B :=
  match r with
  | Ok a => f a
  | Exit k => Exit k
  | Raise e => Raise e
  end.

Notation "x <- r ;; k" := (bind r (fun x => k))
  (at level 61, r at next level, right associativity).

(** ** Python primitives *)

Module Py.

Definition len {A : Type} (l : list A) : Z := Z.of_nat (List.length l).

(** The position [l[i]] denotes: Python counts a negative index from the
    end and raises [IndexError] outside [-len, len). *)
Definition position {A : Type} (l : list A) (i : Z) : result nat :=
  if (0 <=? i) && (i <? len l) then Ok (Z.to_nat i)
  else if (- len l <=? i) && (i <? 0) then Ok (Z.to_nat (len l + i))
  else Raise IndexError.

(** [l[i]] *)
Definition getitem {A : Type} (l : list A) (i : Z) : result A :=
  n <- position l i ;;
  match nth_error l n with
  | Some a => Ok a
  | None => Raise IndexError
  end.

Fixpoint update {A : Type} (l : list A) (n : nat) (v : A) : list A :=
  match l, n with
  | [], _ => []
  | _ :: t, O => v :: t
  | h :: t, S n' => h :: update t n' v
  end.

(** [l[i] = v] *)
Definition setitem {A : Type} (l : list A) (i : Z) (v : A) : result (list A) :=
  n <- position l i ;;
  Ok (update l n v).

(** [x & 0xff] *)
Definition and_ff (x : Z) : Z := Z.land x 255.

(** [int2byte(x)], that is [bytes([x])]: [ValueError] outside [range(256)]. *)
Definition int2byte (x : Z) : result byte :=
  if (0 <=? x) && (x <? 256) then
    match Byte.of_N (Z.to_N x) with
    | Some b => Ok b
    | None => Raise ValueError
    end
  else Raise ValueError.

(** [ord(data)] for a one-byte [bytes] object. *)
Definition ord (b : byte) : Z := Z.of_N (Byte.to_N b).

End Py.

(** ** The lexical filter: [re.sub('\#[^\n]*(\n|$)', '', source)] *)

Module Lexer.

Definition newline : ascii := "010"%char.
Definition hash : ascii := "#"%char.

(** [re.sub] walks the text from left to right.  Outside a match every
    character is copied until a [#] opens a match; inside a match the greedy
    [[^\n]*] swallows everything up to the next newline, which the group
    [(\n|$)] swallows too, or up to the end of the text.  [in_match] tells
    on which side of a [#] the walk is. *)
Fixpoint sub_comments (in_match : bool) (source : list ascii) : list ascii :=
  match source with
  | [] => []
  | c :: rest =>
      if in_match then
        if Ascii.eqb c newline then sub_comments false rest
        else sub_comments true rest
      else
        if Ascii.eqb c hash then sub_comments true rest
        else c :: sub_comments false rest
  end.

Definition strip_comments (source : list ascii) : list ascii :=
  sub_comments false source.

End Lexer.

(** ** The interpreter: [execute] *)

Module Interp.

(** The variables of [execute] that change while it runs.  [source] is
    fixed after the filter and is passed along separately.
    [source_brackets] is used as a stack: [append] is a cons and [pop]
    takes the head.  [process_input] holds the bytes not read yet,
    [process_output] the bytes written so far, oldest first. *)
Record state : Type := mkState {
  source_cursor : Z;
  source_brackets : list Z;
  array : list Z;
  cursor : Z;
  process_input : list byte;
  process_output : list byte
}.

Definition set_source_cursor (s : state) (v : Z) : state :=
  mkState v (source_brackets s) (array s) (cursor s)
          (process_input s) (process_output s).

Definition set_source_brackets (s : state) (v : list Z) : state :=
  mkState (source_cursor s) v (array s) (cursor s)
          (process_input s) (process_output s).

Definition set_array (s : state) (v : list Z) : state :=
  mkState (source_cursor s) (source_brackets s) v (cursor s)
          (process_input s) (process_output s).

Definition set_cursor (s : state) (v : Z) : state :=
  mkState (source_cursor s) (source_brackets s) (array s) v
          (process_input s) (process_output s).

Definition set_process_input (s : state) (v : list byte) : state :=
  mkState (source_cursor s) (source_brackets s) (array s) (cursor s)
          v (process_output s).

Definition set_process_output (s : state) (v : list byte) : state :=
  mkState (source_cursor s) (source_brackets s) (array s) (cursor s)
          (process_input s) v.

(** [array = [0]], [cursor = 0], [source_cursor = 0], no open bracket. *)
Definition initial (input : list byte) : state :=
  mkState 0 [] [0] 0 input [].

(** The inner [while source_cursor < len(source) and level > 0] of the
    [[] branch.  [rest] is [source[source_cursor:]]; the pair returned is
    [(source_cursor, level)] when the loop is left. *)
Fixpoint skip_scan (rest : list ascii) (source_cursor level : Z) : Z * Z :=
  match rest with
  | [] => (source_cursor, level)
  | c :: rest' =>
      if level >? 0 then
        let level' :=
          if Ascii.eqb c "["%char then level + 1
          else if Ascii.eqb c "]"%char then level - 1
          else level in
        skip_scan rest' (source_cursor + 1) level'
      else (source_cursor, level)
  end.

(** The [if]/[elif] chain on [cmd], before the final
    [source_cursor += 1].  The dump written on [!] in debug mode goes to
    the diagnostic stream, which is not part of [state]. *)
Definition dispatch (source : list ascii) (debug : bool) (cmd : ascii)
           (s : state) : result state :=
  if Ascii.eqb cmd ">"%char then
    let s := set_cursor s (cursor s + 1) in
    if cursor s >=? Py.len (array s)
    then Ok (set_array s (array s ++ [0]))
    else Ok s
  else if Ascii.eqb cmd "<"%char then
    let s := set_cursor s (cursor s - 1) in
    if cursor s <? 0 then Exit CursorUnderflow else Ok s
  else if Ascii.eqb cmd "+"%char then
    v <- Py.getitem (array s) (cursor s) ;;
    a <- Py.setitem (array s) (cursor s) (Py.and_ff (v + 1)) ;;
    Ok (set_array s a)
  else if Ascii.eqb cmd "-"%char then
    v <- Py.getitem (array s) (cursor s) ;;
    a <- Py.setitem (array s) (cursor s) (Py.and_ff (v - 1)) ;;
    Ok (set_array s a)
  else if Ascii.eqb cmd "."%char then
    v <- Py.getitem (array s) (cursor s) ;;
    b <- Py.int2byte v ;;
    Ok (set_process_output s (process_output s ++ [b]))
  else if Ascii.eqb cmd ","%char then
    match process_input s with
    | [] =>
        a <- Py.setitem (array s) (cursor s) 255 ;;
        Ok (set_array s a)
    | data :: rest =>
        let s := set_process_input s rest in
        a <- Py.setitem (array s) (cursor s) (Py.ord data) ;;
        Ok (set_array s a)
    end
  else if Ascii.eqb cmd "["%char then
    v <- Py.getitem (array s) (cursor s) ;;
    if v >? 0 then
      Ok (set_source_brackets s (source_cursor s :: source_brackets s))
    else
      let start := source_cursor s + 1 in
      let '(stop, level) :=
        skip_scan (skipn (Z.to_nat start) source) start 1 in
      if stop >=? Py.len source then Exit UnbalancedMissingClose
      else Ok (set_source_cursor s (stop - 1))
  else if Ascii.eqb cmd "]"%char then
    match source_brackets s with
    | [] => Exit UnbalancedMissingOpen
    | top :: below =>
        Ok (set_source_cursor (set_source_brackets s below) (top - 1))
    end
  else if Ascii.eqb cmd "!"%char then
    if debug then Ok s else Ok s
  else Ok s.

(** One iteration of the outer [while]. *)
Definition step (source : list ascii) (debug : bool) (s : state)
  : result state :=
  cmd <- Py.getitem source (source_cursor s) ;;
  s' <- dispatch source debug cmd s ;;
  Ok (set_source_cursor s' (source_cursor s' + 1)).

(** The outer [while source_cursor < len(source)].  A brainfuck program
    need not stop, so the loop is bounded by [fuel]: [None] means the bound
    was hit, [Some r] that [execute] returned or exited. *)
Fixpoint loop (fuel : nat) (source : list ascii) (debug : bool) (s : state)
  : option (result state) :=
  if source_cursor s <? Py.len source then
    match fuel with
    | O => None
    | S fuel' =>
        match step source debug s with
        | Ok s' => loop fuel' source debug s'
        | Exit k => Some (Exit k)
        | Raise e => Some (Raise e)
        end
    end
  else Some (Ok s).

(** [execute(source_input, process_input, process_output, debug)]:
    [text] is what [source_input.read()] returns. *)
Definition execute (fuel : nat) (text : list ascii) (input : list byte)
           (debug : bool) : option (result state) :=
  loop fuel (Lexer.strip_comments text) debug (initial input).

(** The states [execute] passes through at the head of its loop. *)
Inductive reachable (source : list ascii) (debug : bool) (input : list byte)
  : state -> Prop :=
| reach_initial : reachable source debug input (initial input)
| reach_step s s' :
    reachable source debug input s ->
    source_cursor s < Py.len source ->
    step source debug s = Ok s' ->
    reachable source debug input s'.

End Interp.

(** ** The compiler: class [Compiler] and [compile] *)

Module Translator.

(** What the compiler writes to [source_output].  Every [write] call of the
    class writes one of these texts; [render] gives the text itself. *)
Inductive stmt : Type :=
| Header (size : Z)       (* the prologue written by [start] *)
| PtrAdd (d : Z)          (* [ptr += %d;] *)
| Assert (size : Z)       (* [assert(ptr >= array && ptr < array + %d);] *)
| CellAdd (d : Z)         (* [*ptr += %d;] *)
| Putchar                 (* [putchar( *ptr);] *)
| Getchar                 (* [*ptr = getchar();] *)
| While                   (* [while ( *ptr) {] *)
| Close                   (* [}] *)
| Return.                 (* [return 0;] and the closing brace of [main] *)

Definition nl : string := String "010"%char EmptyString.

(** [%d] *)
Definition percent_d (z : Z) : string := NilZero.string_of_int (Z.to_int z).

Definition render (x : stmt) : string :=
  match x with
  | Header size =>
      nl ++ "#include <stdio.h>" ++ nl
         ++ "#include <assert.h>" ++ nl
         ++ nl
         ++ "int main(int argc, char** argv) {" ++ nl
         ++ "  char array[" ++ percent_d size ++ "] = {0};" ++ nl
         ++ "  char *ptr = array;" ++ nl
         ++ "        "
  | PtrAdd d => "ptr += " ++ percent_d d ++ ";" ++ nl
  | Assert size =>
      "assert(ptr >= array && ptr < array + " ++ percent_d size ++ ");" ++ nl
  | CellAdd d => "*ptr += " ++ percent_d d ++ ";" ++ nl
  | Putchar => "putchar(" ++ "*ptr);" ++ nl
  | Getchar => "*ptr = getchar();" ++ nl
  | While => "while (" ++ "*ptr) {" ++ nl
  | Close => "}" ++ nl
  | Return => "return 0;" ++ nl ++ "}" ++ nl
  end.

(** The attributes of a [Compiler] object; [source_output] is the list of
    texts written so far, oldest first. *)
Record compiler : Type := mkCompiler {
  debug : bool;
  size : Z;
  comment : bool;
  level : Z;
  move : Z;
  incr : Z;
  source_output : list stmt
}.

Definition write (c : compiler) (x : stmt) : compiler :=
  mkCompiler (debug c) (size c) (comment c) (level c) (move c) (incr c)
             (source_output c ++ [x]).

Definition set_comment (c : compiler) (v : bool) : compiler :=
  mkCompiler (debug c) (size c) v (level c) (move c) (incr c)
             (source_output c).

Definition set_level (c : compiler) (v : Z) : compiler :=
  mkCompiler (debug c) (size c) (comment c) v (move c) (incr c)
             (source_output c).

Definition set_move (c : compiler) (v : Z) : compiler :=
  mkCompiler (debug c) (size c) (comment c) (level c) v (incr c)
             (source_output c).

Definition set_incr (c : compiler) (v : Z) : compiler :=
  mkCompiler (debug c) (size c) (comment c) (level c) (move c) v
             (source_output c).

(** [__init__] *)
Definition init (debug : bool) (size : Z) : compiler :=
  mkCompiler debug size false 0 0 0 [].

Definition write_move (c : compiler) : compiler :=
  if negb (move c =? 0) then
    let c := write c (PtrAdd (move c)) in
    let c := if debug c then write c (Assert (size c)) else c in
    set_move c 0
  else c.

Definition write_incr (c : compiler) : compiler :=
  if negb (incr c =? 0) then
    let c := write c (CellAdd (incr c)) in
    set_incr c 0
  else c.

Definition start (c : compiler) : compiler :=
  write c (Header (size c)).

Definition parse (c : compiler) (ch : ascii) : result compiler :=
  if Ascii.eqb ch Lexer.newline then Ok (set_comment c false)
  else if negb (comment c) then
    if Ascii.eqb ch "#"%char then Ok (set_comment c true)
    else if Ascii.eqb ch ">"%char then
      let c := write_incr c in
      Ok (set_move c (move c + 1))
    else if Ascii.eqb ch "<"%char then
      let c := write_incr c in
      Ok (set_move c (move c - 1))
    else if Ascii.eqb ch "+"%char then
      let c := write_move c in
      Ok (set_incr c (incr c + 1))
    else if Ascii.eqb ch "-"%char then
      let c := write_move c in
      Ok (set_incr c (incr c - 1))
    else if Ascii.eqb ch "."%char then
      let c := write_move c in
      let c := write_incr c in
      Ok (write c Putchar)
    else if Ascii.eqb ch ","%char then
      let c := write_move c in
      let c := write_incr c in
      Ok (write c Getchar)
    else if Ascii.eqb ch "["%char then
      let c := write_move c in
      let c := write_incr c in
      let c := set_level c (level c + 1) in
      Ok (write c While)
    else if Ascii.eqb ch "]"%char then
      if level c <? 1 then Exit UnbalancedMissingOpen
      else
        let c := write_move c in
        let c := write_incr c in
        let c := set_level c (level c - 1) in
        Ok (write c Close)
    else Ok c
  else Ok c.

(** [finish] calls neither [write_move] nor [write_incr]. *)
Definition finish (c : compiler) : result compiler :=
  if level c >? 0 then Exit UnbalancedMissingClose
  else Ok (write c Return).

(** The [while True] of [compile]: one [parse] per character read. *)
Fixpoint parse_all (c : compiler) (text : list ascii) : result compiler :=
  match text with
  | [] => Ok c
  | ch :: rest => c' <- parse c ch ;; parse_all c' rest
  end.

(** [compile(source_input, source_output, debug, size)]: the result is the
    [Compiler] object once [finish] has returned. *)
Definition compile (text : list ascii) (debug : bool) (size : Z)
  : result compiler :=
  c <- parse_all (start (init debug size)) text ;;
  finish c.

(** The compiler states [compile] passes through between two characters. *)
Inductive reachable (debug : bool) (size : Z) : compiler -> Prop :=
| reach_start : reachable debug size (start (init debug size))
| reach_parse c ch c' :
    reachable debug size c ->
    parse c ch = Ok c' ->
    reachable debug size c'.

End Translator.

(** ** The emitted program

    The meaning of the C statements the compiler writes, as far as the
    comparison with the interpreter needs it.  A cell of [char array[size]]
    is kept as its value modulo 256, so that [*ptr += d] wraps around; the
    [EOF] of [getchar], which is -1, is stored as 255; [ptr] is kept as an
    offset from [array], and reading or writing [*ptr] outside the array,
    which C leaves undefined, stops the run. *)

Module Host.

Import Translator.

(** The statements between [while ( *ptr) {] and its [}] form a block. *)
Inductive instr : Type :=
| Simple (x : stmt)
| Loop (body : list instr).

(** Groups a text of statements by its braces.  [cur] is the block being
    read, [outer] the blocks around it, innermost first. *)
Fixpoint blocks (text : list stmt) (cur : list instr)
         (outer : list (list instr)) : option (list instr) :=
  match text with
  | [] => match outer with [] => Some cur | _ :: _ => None end
  | While :: rest => blocks rest [] (cur :: outer)
  | Close :: rest =>
      match outer with
      | [] => None
      | parent :: outer' => blocks rest (parent ++ [Loop cur]) outer'
      end
  | x :: rest => blocks rest (cur ++ [Simple x]) outer
  end.

(** The variables of the emitted [main]: [array] as unsigned bytes, [ptr]
    as an offset from [array], and the two process streams. *)
Record machine : Type := mkMachine {
  array : list Z;
  ptr : Z;
  stdin : list byte;
  stdout : list byte
}.

Inductive outcome : Type :=
| Running (m : machine)
| Aborted                 (* an [assert] failed *)
| OutOfBounds.            (* [*ptr] outside [array]: not defined by C *)

Definition load (m : machine) : option Z :=
  if (0 <=? ptr m) && (ptr m <? Py.len (array m))
  then nth_error (array m) (Z.to_nat (ptr m))
  else None.

Definition store (m : machine) (v : Z) : option machine :=
  if (0 <=? ptr m) && (ptr m <? Py.len (array m))
  then Some (mkMachine (Py.update (array m) (Z.to_nat (ptr m)) (v mod 256))
                       (ptr m) (stdin m) (stdout m))
  else None.

Definition exec (x : stmt) (m : machine) : outcome :=
  match x with
  | Header size =>
      Running (mkMachine (repeat 0 (Z.to_nat size)) 0 (stdin m) (stdout m))
  | PtrAdd d =>
      Running (mkMachine (array m) (ptr m + d) (stdin m) (stdout m))
  | Assert size =>
      if (0 <=? ptr m) && (ptr m <? size) then Running m else Aborted
  | CellAdd d =>
      match load m with
      | Some v =>
          match store m (v + d) with
          | Some m' => Running m'
          | None => OutOfBounds
          end
      | None => OutOfBounds
      end
  | Putchar =>
      match load m with
      | Some v =>
          match Byte.of_N (Z.to_N (v mod 256)) with
          | Some b =>
              Running (mkMachine (array m) (ptr m) (stdin m) (stdout m ++ [b]))
          | None => OutOfBounds
          end
      | None => OutOfBounds
      end
  | Getchar =>
      match stdin m with
      | [] =>
          (* [getchar()] returns [EOF], which is -1 *)
          match store m (-1) with
          | Some m' => Running m'
          | None => OutOfBounds
          end
      | b :: rest =>
          match store (mkMachine (array m) (ptr m) rest (stdout m))
                      (Py.ord b) with
          | Some m' => Running m'
          | None => OutOfBounds
          end
      end
  | While | Close => Running m
  | Return => Running m
  end.

(** Runs a block.  [None]: the bound [fuel] was hit. *)
Fixpoint run (fuel : nat) (p : list instr) (m : machine) : option outcome :=
  match fuel with
  | O => None
  | S fuel' =>
      match p with
      | [] => Some (Running m)
      | Simple x :: rest =>
          match exec x m with
          | Running m' => run fuel' rest m'
          | stop => Some stop
          end
      | Loop body :: rest =>
          match load m with
          | None => Some OutOfBounds
          | Some v =>
              if v =? 0 then run fuel' rest m
              else
                match run fuel' body m with
                | Some (Running m') => run fuel' (Loop body :: rest) m'
                | other => other
                end
          end
      end
  end.

(** Runs the program the compiler wrote, on the given process input. *)
Definition run_program (fuel : nat) (text : list stmt) (input : list byte)
  : option outcome :=
  match blocks text [] [] with
  | Some p => run fuel p (mkMachine [] 0 input [])
  | None => None
  end.

End Host.

(** ** Running both engines on a text *)

Definition chars (s : string) : list ascii := list_ascii_of_string s.

(** The cell under the cursor when the interpreter stops. *)
Definition interp_cell (r : option (result Interp.state)) : option Z :=
  match r with
  | Some (Ok s) => nth_error (Interp.array s) (Z.to_nat (Interp.cursor s))
  | _ => None
  end.

Definition interp_cursor (r : option (result Interp.state)) : option Z :=
  match r with
  | Some (Ok s) => Some (Interp.cursor s)
  | _ => None
  end.

Definition interp_output (r : option (result Interp.state))
  : option (list byte) :=
  match r with
  | Some (Ok s) => Some (Interp.process_output s)
  | _ => None
  end.

(** The statements [compile] wrote, when it returned. *)
Definition emitted (r : result Translator.compiler)
  : option (list Translator.stmt) :=
  match r with
  | Ok c => Some (Translator.source_output c)
  | _ => None
  end.

(** Compiles a text and runs what was emitted. *)
Definition compile_and_run (fuel : nat) (text : list ascii) (size : Z)
           (debug : bool) (input : list byte) : option Host.outcome :=
  match emitted (Translator.compile text debug size) with
  | Some out => Host.run_program fuel out input
  | None => None
  end.

Definition host_cell (r : option Host.outcome) : option Z :=
  match r with
  | Some (Host.Running m) => Host.load m
  | _ => None
  end.

Definition host_ptr (r : option Host.outcome) : option Z :=
  match r with
  | Some (Host.Running m) => Some (Host.ptr m)
  | _ => None
  end.

Definition host_output (r : option Host.outcome) : option (list byte) :=
  match r with
  | Some (Host.Running m) => Some (Host.stdout m)
  | _ => None
  end.

(** The text [compile] wrote to [source_output], when it returned. *)
Definition emitted_text (r : result Translator.compiler) : option string :=
  match emitted r with
  | Some out => Some (String.concat "" (map Translator.render out))
  | None => None
  end.

(** ** Notions used in the statements *)

(** What holds of the interpreter's variables at the head of its loop: the
    cursor points into the tape, every cell is a byte, and the positions kept
    for the source are not negative. *)
Definition well_formed (s : Interp.state) : Prop :=
  0 <= Interp.cursor s < Py.len (Interp.array s)
  /\ Forall (fun v => 0 <= v < 256) (Interp.array s)
  /\ 0 <= Interp.source_cursor s
  /\ Forall (fun p => 0 <= p) (Interp.source_brackets s).

(** How far one character of a text of moves shifts the cursor. *)
Definition move_delta (c : ascii) : Z :=
  if Ascii.eqb c ">"%char then 1
  else if Ascii.eqb c "<"%char then -1
  else 0.

(** The cursor positions a text of moves visits from [pos], [pos] included. *)
Fixpoint positions (pos : Z) (moves : list ascii) : list Z :=
  match moves with
  | [] => [pos]
  | c :: rest => pos :: positions (pos + move_delta c) rest
  end.

(** The position a text of moves ends on. *)
Definition final_position (pos : Z) (moves : list ascii) : Z :=
  fold_left (fun p c => p + move_delta c) moves pos.

(** The largest of a list of positions, none of which is negative. *)
Definition max_position (l : list Z) : Z := fold_right Z.max 0 l.

Definition only_moves (text : list ascii) : Prop :=
  Forall (fun c => c = ">"%char \/ c = "<"%char) text.

(** A tape of [n] zero cells. *)
Definition zeros (n : Z) : list Z := repeat 0 (Z.to_nat n).

(** How many times [c] occurs in [text]. *)
Definition count (c : ascii) (text : list ascii) : Z :=
  Z.of_nat (count_occ ascii_dec text c).

Definition only_incr_decr (text : list ascii) : Prop :=
  Forall (fun c => c = "+"%char \/ c = "-"%char) text.

(** What [write_move] would write for the pending move of [c]. *)
Definition pending_move_text (c : Translator.compiler)
  : list Translator.stmt :=
  if Translator.move c =? 0 then []
  else Translator.PtrAdd (Translator.move c)
       :: (if Translator.debug c
           then [Translator.Assert (Translator.size c)] else []).

(** What [write_incr] would write for the pending increment of [c]. *)
Definition pending_incr_text (c : Translator.compiler)
  : list Translator.stmt :=
  if Translator.incr c =? 0 then []
  else [Translator.CellAdd (Translator.incr c)].

(** The four characters that make the compiler write a statement of their
    own, and that statement. *)
Definition event_stmt (ch : ascii) : option Translator.stmt :=
  if Ascii.eqb ch "."%char then Some Translator.Putchar
  else if Ascii.eqb ch ","%char then Some Translator.Getchar
  else if Ascii.eqb ch "["%char then Some Translator.While
  else if Ascii.eqb ch "]"%char then Some Translator.Close
  else None.

(** Brackets.  [depth text] is the number of [[] in [text] minus the number
    of []]. *)
Definition depth (text : list ascii) : Z :=
  count "["%char text - count "]"%char text.

(** Some []] of [text] has no unmatched [[] before it. *)
Definition closes_unopened (text : list ascii) : Prop :=
  exists pre rest, text = pre ++ rest /\ depth pre < 0.

(** Every []] of [text] has its [[], and some [[] is never closed. *)
Definition leaves_open (text : list ascii) : Prop :=
  (forall pre rest, text = pre ++ rest -> 0 <= depth pre) /\ 0 < depth text.

(** Every []] of [text] has its [[] and every [[] its []]. *)
Definition balanced (text : list ascii) : Prop :=
  (forall pre rest, text = pre ++ rest -> 0 <= depth pre) /\ depth text = 0.

(** The positions of the [[] that are open after [text], innermost first,
    when [text] starts at position [pos] with the brackets [open] open;
    [None] when a []] of [text] closes nothing. *)
Fixpoint open_brackets (text : list ascii) (pos : Z) (open : list Z)
  : option (list Z) :=
  match text with
  | [] => Some open
  | c :: rest =>
      if Ascii.eqb c "["%char then open_brackets rest (pos + 1) (pos :: open)
      else if Ascii.eqb c "]"%char then
        match open with
        | [] => None
        | _ :: below => open_brackets rest (pos + 1) below
        end
      else open_brackets rest (pos + 1) open
  end.

(** The bracket stack of an interpreter state is the list of the brackets
    open in the source before [source_cursor]. *)
Definition stack_matches (source : list ascii) (s : Interp.state) : Prop :=
  0 <= Interp.source_cursor s <= Py.len source
  /\ open_brackets (firstn (Z.to_nat (Interp.source_cursor s)) source) 0 []
     = Some (Interp.source_brackets s).

(** The interpreter is on a [[] with a zero cell, and the scan for the
    matching []] started there reaches the end of the source with its counter
    still above 0. *)
Definition scan_runs_off (source : list ascii) (s : Interp.state) : Prop :=
  Py.getitem source (Interp.source_cursor s) = Ok "["%char
  /\ Py.getitem (Interp.array s) (Interp.cursor s) = Ok 0
  /\ 0 < snd (Interp.skip_scan
                (skipn (Z.to_nat (Interp.source_cursor s + 1)) source)
                (Interp.source_cursor s + 1) 1).

(** The text of [source] from position [from] up to, not including,
    position [upto]. *)
Definition segment (source : list ascii) (from upto : Z) : list ascii :=
  firstn (Z.to_nat (upto - from)) (skipn (Z.to_nat from) source).

(** Two results of the compiler that differ at most in the [comment] flag of
    the object they return. *)
Definition agree_but_comment (r1 r2 : result Translator.compiler) : Prop :=
  match r1, r2 with
  | Ok c1, Ok c2 =>
      Translator.set_comment c1 false = Translator.set_comment c2 false
  | Exit k1, Exit k2 => k1 = k2
  | Raise e1, Raise e2 => e1 = e2
  | _, _ => False
  end.


(** The number of loops open after the statements [out], [d] being open
    before them; [None] when a [}] closes nothing. *)
Fixpoint brace_depth (out : list Translator.stmt) (d : Z) : option Z :=
  match out with
  | [] => Some d
  | Translator.While :: rest => brace_depth rest (d + 1)
  | Translator.Close :: rest =>
      if d <? 1 then None else brace_depth rest (d - 1)
  | _ :: rest => brace_depth rest d
  end.

(** In debug mode every [ptr += d;] of [out] is directly followed by the
    assertion on [size]; without it [out] has no assertion at all. *)
Fixpoint checked_moves (debug : bool) (size : Z) (out : list Translator.stmt)
  : bool :=
  match out with
  | [] => true
  | Translator.PtrAdd _ :: rest =>
      if debug then
        match rest with
        | Translator.Assert n :: rest' =>
            (n =? size) && checked_moves debug size rest'
        | _ => false
        end
      else checked_moves debug size rest
  | Translator.Assert _ :: _ => false
  | _ :: rest => checked_moves debug size rest
  end.

(** [c'] is [c] after some statements [blk] were written that open and close
    no loop, with the mode, the size and the nesting level as they were. *)
Definition quiet_extension (c c' : Translator.compiler)
           (blk : list Translator.stmt) : Prop :=
  Translator.source_output c' = Translator.source_output c ++ blk
  /\ Translator.debug c' = Translator.debug c
  /\ Translator.size c' = Translator.size c
  /\ Translator.level c' = Translator.level c
  /\ checked_moves (Translator.debug c) (Translator.size c) blk = true
  /\ forall d, brace_depth blk d = Some d.

(** A text without loops. *)
Definition loop_free (text : list ascii) : Prop :=
  ~ In "["%char text /\ ~ In "]"%char text.

(** Runs statements one after the other, as the emitted program does where
    it has no loop. *)
Fixpoint exec_all (out : list Translator.stmt) (m : Host.machine)
  : Host.outcome :=
  match out with
  | [] => Host.Running m
  | x :: rest =>
      match Host.exec x m with
      | Host.Running m' => exec_all rest m'
      | stop => stop
      end
  end.

(** The value of cell [k] of a tape, cells past its end counting as 0. *)
Definition cell_at (tape : list Z) (k : Z) : Z := nth (Z.to_nat k) tape 0.

(** How the emitted program, run so far, stands to the interpreter: [m] is
    the machine after the statements written up to now, [c] the compiler
    holding what is still pending, [s] the interpreter on the same
    characters.  The streams agree; the pointer is the cursor but for the
    pending move; the array is the tape, padded with zeros, but for the
    pending increment of the cell under the pointer. *)
Definition simulates (size : Z) (s : Interp.state) (c : Translator.compiler)
           (m : Host.machine) : Prop :=
  Host.stdout m = Interp.process_output s
  /\ Host.stdin m = Interp.process_input s
  /\ Host.ptr m + Translator.move c = Interp.cursor s
  /\ 0 <= Host.ptr m < size
  /\ Py.len (Host.array m) = size
  /\ (Translator.move c = 0 \/ Translator.incr c = 0)
  /\ Translator.comment c = false
  /\ Translator.size c = size
  /\ Forall (fun v => 0 <= v < 256) (Host.array m)
  /\ forall k,
      0 <= k < size ->
      (cell_at (Host.array m) k
       + (if k =? Host.ptr m then Translator.incr c else 0)) mod 256
      = cell_at (Interp.array s) k.

(** Statements that open and close no loop. *)
Definition straight (out : list Translator.stmt) : bool :=
  forallb (fun x => match x with
                    | Translator.While | Translator.Close => false
                    | _ => true
                    end) out.

(** ** The dump: [hexdump]

    [execute] calls [hexdump(array, cursor, sys.stderr)] on [!] in debug
    mode.  The model gives the lines it writes, one per call of
    [output.write].  Characters are bytes here: [chr] of a cell is modelled
    for cells in [range(256)], which is all [execute] ever has; for any other
    cell the model gives [None]. *)

Module Dump.

(** [hex(x)[2:]]: [HexString.of_Z] writes ["0x..."] in lower case with a
    leading [-] for a negative number, as [hex] does. *)
Definition hex_tail (x : Z) : list ascii :=
  skipn 2 (list_ascii_of_string (HexString.of_Z x)).

(** [s.zfill(width)]: zeros are put in front, after a leading sign. *)
Definition zfill (width : nat) (s : list ascii) : list ascii :=
  let pad := repeat "0"%char (width - List.length s) in
  match s with
  | c :: rest =>
      if Ascii.eqb c "+"%char || Ascii.eqb c "-"%char
      then c :: pad ++ rest
      else pad ++ s
  | [] => pad
  end.

(** [chr(v).isprintable()] for [v] in [range(256)]: the ASCII characters from
    the space to [~], and the Latin-1 characters from 0xa1 on but for the
    soft hyphen 0xad; the control characters and the no-break space 0xa0 are
    not printable. *)
Definition isprintable (v : Z) : bool :=
  ((32 <=? v) && (v <=? 126))
  || ((161 <=? v) && (v <=? 255) && negb (v =? 173)).

(** What the text column shows for a cell. *)
Definition shown (v : Z) : option ascii :=
  if (0 <=? v) && (v <? 256) then
    Some (if isprintable v then ascii_of_N (Z.to_N v) else "."%char)
  else None.

(** [for j in range(n): body], on the variables [body] changes. *)
Fixpoint times {S : Type} (n : nat) (body : S -> option S) (st : S)
  : option S :=
  match n with
  | O => Some st
  | S n' =>
      match body st with
      | Some st' => times n' body st'
      | None => None
      end
  end.

(** The body of the two loops over eight cells: a marker, then the cell in
    two hex digits or two blanks.  The state is [(i, line)]. *)
Definition field (array : list Z) (cursor : Z) (st : Z * list ascii)
  : option (Z * list ascii) :=
  let '(i, line) := st in
  let line :=
    if cursor =? i then line ++ ["<"%char]
    else if (cursor =? i - 1) && negb (i mod 8 =? 0) then line ++ [">"%char]
    else line ++ [" "%char] in
  if i <? Py.len array then
    match Py.getitem array i with
    | Ok v => Some (i + 1, line ++ zfill 2 (hex_tail v))
    | _ => None
    end
  else Some (i + 1, line ++ [" "%char; " "%char]).

(** The [if cursor == i - 1] after each of the two loops. *)
Definition closing (cursor : Z) (st : Z * list ascii) : Z * list ascii :=
  let '(i, line) := st in
  if cursor =? i - 1 then (i, line ++ [">"%char])
  else (i, line ++ [" "%char]).

(** The body of the loop over sixteen cells that writes the text column. *)
Definition text_cell (array : list Z) (st : Z * list ascii)
  : option (Z * list ascii) :=
  let '(i, line) := st in
  if i <? Py.len array then
    match Py.getitem array i with
    | Ok v =>
        match shown v with
        | Some ch => Some (i + 1, line ++ [ch])
        | None => None
        end
    | _ => None
    end
  else Some (i + 1, line).

(** One iteration of the [while]: the line written and the new [i]. *)
Definition one_line (array : list Z) (cursor i : Z)
  : option (Z * list ascii) :=
  let line := zfill 8 (hex_tail i) in
  let line := line ++ [" "%char] in
  match times 8 (field array cursor) (i, line) with
  | None => None
  | Some st =>
      match times 8 (field array cursor) (closing cursor st) with
      | None => None
      | Some st =>
          let '(i, line) := closing cursor st in
          let line := line ++ ["|"%char] in
          let i := i - 16 in
          match times 16 (text_cell array) (i, line) with
          | None => None
          | Some (i, line) => Some (i, line ++ ["|"%char; Lexer.newline])
          end
      end
  end.

(** The [while i < len(array)], bounded by [fuel]. *)
Fixpoint lines (fuel : nat) (array : list Z) (cursor i : Z)
         (written : list (list ascii)) : option (list (list ascii)) :=
  if i <? Py.len array then
    match fuel with
    | O => None
    | S fuel' =>
        match one_line array cursor i with
        | Some (i', line) => lines fuel' array cursor i' (written ++ [line])
        | None => None
        end
    end
  else Some written.

(** [hexdump(array, cursor, output)]: the lines written to [output].  Every
    iteration moves [i] sixteen cells on, so [len(array)] iterations are more
    than the loop ever makes. *)
Definition hexdump (array : list Z) (cursor : Z) : option (list (list ascii)) :=
  lines (List.length array) array cursor 0 [].

End Dump.

(** The dump, line by line.  [marker cursor k] is the character before the
    two digits of cell [k], [closer cursor k] the one that closes a group of
    eight before cell [k]. *)
Definition marker (cursor k : Z) : ascii :=
  if cursor =? k then "<"%char
  else if (cursor =? k - 1) && negb (k mod 8 =? 0) then ">"%char
  else " "%char.

Definition closer (cursor k : Z) : ascii :=
  if cursor =? k - 1 then ">"%char else " "%char.

(** The two hex digits of a cell. *)
Definition hex2 (v : Z) : list ascii := Dump.zfill 2 (Dump.hex_tail v).

(** The positions [k], [k + 1], ..., [k + n - 1]. *)
Definition cells_from (k : Z) (n : nat) : list Z :=
  map (fun j => k + Z.of_nat j) (seq 0 n).

Definition cell_field (array : list Z) (cursor k : Z) : list ascii :=
  marker cursor k
  :: (if k <? Py.len array then hex2 (cell_at array k)
      else [" "%char; " "%char]).

Definition group (array : list Z) (cursor k : Z) : list ascii :=
  List.concat (map (cell_field array cursor) (cells_from k 8))
  ++ [closer cursor (k + 8)].

Definition text_of (array : list Z) (k : Z) : list ascii :=
  if k <? Py.len array then
    [if Dump.isprintable (cell_at array k)
     then ascii_of_N (Z.to_N (cell_at array k)) else "."%char]
  else [].

Definition dump_line (array : list Z) (cursor k : Z) : list ascii :=
  Dump.zfill 8 (Dump.hex_tail k) ++ [" "%char]
  ++ group array cursor k ++ group array cursor (k + 8)
  ++ ["|"%char]
  ++ List.concat (map (text_of array) (cells_from k 16))
  ++ ["|"%char; Lexer.newline].

(** ** Notions for the emitted program in debug mode *)

(** The pointer of [m] is inside its array, which is [size] long. *)
Definition in_array (size : Z) (m : Host.machine) : Prop :=
  Py.len (Host.array m) = size /\ 0 <= Host.ptr m < size.

(** Statements without the declarations that [start] writes. *)
Definition headless (out : list Translator.stmt) : bool :=
  forallb (fun x => match x with
                    | Translator.Header _ => false
                    | _ => true
                    end) out.

(** A block in which every pointer move is directly followed by the
    assertion on [size], in its loops too, and which declares no array of
    another size. *)
Inductive guarded (size : Z) : list Host.instr -> Prop :=
| guarded_nil : guarded size []
| guarded_header rest :
    guarded size rest ->
    guarded size (Host.Simple (Translator.Header size) :: rest)
| guarded_move d rest :
    guarded size rest ->
    guarded size (Host.Simple (Translator.PtrAdd d)
                  :: Host.Simple (Translator.Assert size) :: rest)
| guarded_simple x rest :
    match x with
    | Translator.Header _ | Translator.PtrAdd _ | Translator.Assert _ => False
    | _ => True
    end ->
    guarded size rest ->
    guarded size (Host.Simple x :: rest)
| guarded_loop body rest :
    guarded size body ->
    guarded size rest ->
    guarded size (Host.Loop body :: rest).

(** A run that has not left the array: it is still going on when the bound
    was hit, it was stopped by an assertion, or it ended with the pointer
    inside the array. *)
Definition stays_in_array (size : Z) (r : option Host.outcome) : Prop :=
  match r with
  | Some Host.OutOfBounds => False
  | Some (Host.Running m) => in_array size m
  | _ => True
  end.

(** * Properties *)

(** ** Python primitives *)

Section PyFacts.

Context {A : Type}.
Implicit Types (l : list A) (i : Z) (n : nat) (v : A).

Lemma len_nonneg l : 0 <= Py.len l.
Proof. unfold Py.len. lia. Qed.

Lemma len_app l l' : Py.len (l ++ l') = Py.len l + Py.len l'.
Proof. unfold Py.len. rewrite length_app. lia. Qed.

Lemma len_cons v l : Py.len (v :: l) = 1 + Py.len l.
Proof. unfold Py.len. cbn [List.length]. lia. Qed.

Lemma position_in_bounds l i :
  0 <= i < Py.len l -> Py.position l i = Ok (Z.to_nat i).
Proof.
  intros H. unfold Py.position.
  destruct (Z.leb_spec 0 i); [|lia].
  destruct (Z.ltb_spec i (Py.len l)); [|lia].
  reflexivity.
Qed.

Lemma getitem_in_bounds l i :
  0 <= i < Py.len l ->
  exists v, nth_error l (Z.to_nat i) = Some v /\ Py.getitem l i = Ok v.
Proof.
  intros H. unfold Py.getitem. rewrite position_in_bounds by exact H.
  cbn [bind].
  destruct (nth_error l (Z.to_nat i)) as [v|] eqn:E.
  - exists v. split; reflexivity.
  - apply nth_error_None in E. unfold Py.len in H. lia.
Qed.

Lemma getitem_nth l i v :
  0 <= i -> nth_error l (Z.to_nat i) = Some v -> Py.getitem l i = Ok v.
Proof.
  intros Hi E.
  assert (Z.to_nat i < List.length l)%nat
    by (apply nth_error_Some; congruence).
  unfold Py.getitem. rewrite position_in_bounds by (unfold Py.len; lia).
  cbn [bind]. rewrite E. reflexivity.
Qed.

Lemma setitem_in_bounds l i v :
  0 <= i < Py.len l ->
  Py.setitem l i v = Ok (Py.update l (Z.to_nat i) v).
Proof.
  intros H. unfold Py.setitem. rewrite position_in_bounds by exact H.
  reflexivity.
Qed.

Lemma update_length l n v : List.length (Py.update l n v) = List.length l.
Proof.
  revert n. induction l as [|h t IH]; intros [|n]; cbn; auto.
Qed.

Lemma len_update l n v : Py.len (Py.update l n v) = Py.len l.
Proof. unfold Py.len. now rewrite update_length. Qed.

Lemma nth_error_update_eq l n v :
  (n < List.length l)%nat -> nth_error (Py.update l n v) n = Some v.
Proof.
  revert n. induction l as [|h t IH]; intros [|n] H; cbn in *;
    try lia; auto.
  apply IH. lia.
Qed.

Lemma nth_error_update_neq l n m v :
  m <> n -> nth_error (Py.update l n v) m = nth_error l m.
Proof.
  revert n m. induction l as [|h t IH]; intros [|n] [|m] H; cbn;
    try congruence; auto.
Qed.

Lemma Forall_update (P : A -> Prop) l n v :
  Forall P l -> P v -> Forall P (Py.update l n v).
Proof.
  intros Hl Hv. revert n.
  induction Hl as [|h t Hh Ht IH]; intros [|n]; cbn; auto.
Qed.

End PyFacts.

Lemma and_ff_mod x : Py.and_ff x = x mod 256.
Proof.
  unfold Py.and_ff. change 255 with (Z.ones 8).
  rewrite Z.land_ones by lia. reflexivity.
Qed.

Lemma and_ff_range x : 0 <= Py.and_ff x < 256.
Proof. rewrite and_ff_mod. apply Z.mod_pos_bound. lia. Qed.

Lemma ord_range b : 0 <= Py.ord b < 256.
Proof.
  unfold Py.ord. pose proof (Byte.to_N_bounded b). lia.
Qed.

Lemma int2byte_in_range x :
  0 <= x < 256 -> exists b, Py.int2byte x = Ok b /\ Py.ord b = x.
Proof.
  intros H. unfold Py.int2byte.
  destruct (Z.leb_spec 0 x); [|lia].
  destruct (Z.ltb_spec x 256); [|lia]. cbn [andb].
  destruct (Byte.of_N (Z.to_N x)) as [b|] eqn:E.
  - exists b. split; [reflexivity|].
    unfold Py.ord. apply Byte.to_of_N in E. rewrite E. lia.
  - apply Byte.of_N_None_iff in E. lia.
Qed.

(** The primitives raise on failure; they never exit. *)

Lemma position_not_exit {A : Type} (l : list A) i k :
  Py.position l i <> Exit k.
Proof.
  unfold Py.position.
  destruct (_ && _); [discriminate|]. destruct (_ && _); discriminate.
Qed.

Lemma getitem_not_exit {A : Type} (l : list A) i k :
  Py.getitem l i <> Exit k.
Proof.
  unfold Py.getitem.
  destruct (Py.position l i) as [n|k'|e] eqn:P; cbn [bind];
    [|exfalso; eapply position_not_exit; eassumption|discriminate].
  destruct (nth_error l n); discriminate.
Qed.

Lemma setitem_not_exit {A : Type} (l : list A) i v k :
  Py.setitem l i v <> Exit k.
Proof.
  unfold Py.setitem.
  destruct (Py.position l i) as [n|k'|e] eqn:P; cbn [bind];
    [discriminate|exfalso; eapply position_not_exit; eassumption|discriminate].
Qed.

Lemma int2byte_not_exit x k : Py.int2byte x <> Exit k.
Proof.
  unfold Py.int2byte. destruct (_ && _); [|discriminate].
  destruct (Byte.of_N _); discriminate.
Qed.

Ltac primitive r :=
  let E := fresh "E" in
  destruct r eqn:E; cbn [bind];
  [ | exfalso;
      first [ eapply getitem_not_exit; eassumption
            | eapply setitem_not_exit; eassumption
            | eapply int2byte_not_exit; eassumption ]
    | ].

(** ** The interpreter keeps its cursor inside the tape *)

Ltac case_cmd :=
  repeat match goal with
    | |- context [Ascii.eqb ?a ?b] =>
        let E := fresh "E" in destruct (Ascii.eqb a b) eqn:E
    end.

Ltac bounds :=
  repeat match goal with
    | |- context [Z.leb ?a ?b] => destruct (Z.leb_spec a b)
    | |- context [Z.ltb ?a ?b] => destruct (Z.ltb_spec a b)
    | |- context [Z.geb ?a ?b] => rewrite (Z.geb_leb a b)
    | |- context [Z.gtb ?a ?b] => rewrite (Z.gtb_ltb a b)
    | |- context [Z.eqb ?a ?b] => destruct (Z.eqb_spec a b)
    end.

Lemma skip_scan_stop rest start level :
  start <= fst (Interp.skip_scan rest start level)
  /\ fst (Interp.skip_scan rest start level) <= start + Py.len rest.
Proof.
  revert start level.
  induction rest as [|c rest IH]; intros start level; cbn [Interp.skip_scan].
  - cbn. unfold Py.len. cbn. lia.
  - rewrite len_cons. cbv zeta. destruct (level >? 0).
    + match goal with |- context [Interp.skip_scan rest ?a ?b] =>
        specialize (IH a b) end.
      pose proof (len_nonneg rest). lia.
    + cbn [fst]. pose proof (len_nonneg rest). lia.
Qed.

Lemma well_formed_initial input : well_formed (Interp.initial input).
Proof.
  unfold well_formed, Interp.initial, Py.len. cbn.
  repeat split; try lia; repeat constructor; lia.
Qed.

Lemma step_well_formed source debug s s' :
  well_formed s ->
  Interp.step source debug s = Ok s' ->
  well_formed s'.
Proof.
  intros (Hc & Hcells & Hsc & Hst) Hstep.
  unfold Interp.step in Hstep.
  destruct (Py.getitem source (Interp.source_cursor s)) as [cmd| |];
    cbn [bind] in Hstep; try discriminate.
  destruct (Interp.dispatch source debug cmd s) as [t| |] eqn:D;
    cbn [bind] in Hstep; try discriminate.
  injection Hstep as <-.
  destruct (getitem_in_bounds _ _ Hc) as (v & Hnth & Hget).
  assert (Hv : 0 <= v < 256).
  { rewrite Forall_forall in Hcells. apply Hcells.
    eapply nth_error_In; eassumption. }
  unfold Interp.dispatch in D. revert D. case_cmd; intros D.
  - (* > *)
    cbn in D. revert D. bounds; intros D; injection D as <-;
      unfold well_formed; cbn; rewrite ?len_app; unfold Py.len in *; cbn;
      repeat split; try lia; auto.
    apply Forall_app. split; auto. repeat constructor; lia.
  - (* < *)
    cbn in D. revert D. bounds; intros D; try discriminate.
    injection D as <-. unfold well_formed; cbn. repeat split; auto; lia.
  - (* + *)
    rewrite Hget in D. cbn [bind] in D.
    rewrite setitem_in_bounds in D by exact Hc. cbn [bind] in D.
    injection D as <-. unfold well_formed; cbn. rewrite len_update.
    repeat split; auto; try lia.
    apply Forall_update; auto. apply and_ff_range.
  - (* - *)
    rewrite Hget in D. cbn [bind] in D.
    rewrite setitem_in_bounds in D by exact Hc. cbn [bind] in D.
    injection D as <-. unfold well_formed; cbn. rewrite len_update.
    repeat split; auto; try lia.
    apply Forall_update; auto. apply and_ff_range.
  - (* . *)
    rewrite Hget in D. cbn [bind] in D.
    destruct (Py.int2byte v); cbn [bind] in D; try discriminate.
    injection D as <-. unfold well_formed; cbn. repeat split; auto; lia.
  - (* , *)
    destruct (Interp.process_input s) as [|data rest]; cbn in D;
      rewrite setitem_in_bounds in D by exact Hc; cbn [bind] in D;
      injection D as <-; unfold well_formed; cbn; rewrite len_update;
      repeat split; auto; try lia; apply Forall_update; auto.
    + lia.
    + apply ord_range.
  - (* [ *)
    rewrite Hget in D. cbn [bind] in D.
    destruct (v >? 0).
    + injection D as <-. unfold well_formed; cbn.
      repeat split; auto; try lia.
    + pose proof (skip_scan_stop
                    (skipn (Z.to_nat (Interp.source_cursor s + 1)) source)
                    (Interp.source_cursor s + 1) 1) as [Hlo _].
      destruct (Interp.skip_scan _ _ _) as [stop lvl]. cbn [fst] in Hlo.
      destruct (stop >=? Py.len source); try discriminate.
      injection D as <-. unfold well_formed; cbn.
      repeat split; auto; lia.
  - (* ] *)
    destruct (Interp.source_brackets s) as [|top below] eqn:Hb;
      try discriminate.
    injection D as <-. unfold well_formed; cbn.
    inversion Hst; subst. repeat split; auto; lia.
  - (* ! *)
    destruct debug; injection D as <-; unfold well_formed; cbn;
      repeat split; auto; lia.
  - injection D as <-. unfold well_formed; cbn. repeat split; auto; lia.
Qed.

Lemma reachable_well_formed source debug input s :
  Interp.reachable source debug input s -> well_formed s.
Proof.
  induction 1 as [|s s' _ IH _ Hstep].
  - apply well_formed_initial.
  - eapply step_well_formed; eassumption.
Qed.

Lemma step_never_raises source debug s e :
  well_formed s ->
  Interp.source_cursor s < Py.len source ->
  Interp.step source debug s <> Raise e.
Proof.
  intros (Hc & Hcells & Hsc & Hst) Hlt.
  destruct (getitem_in_bounds source (Interp.source_cursor s))
    as (cmd & _ & Hcmd); [lia|].
  destruct (getitem_in_bounds _ _ Hc) as (v & Hnth & Hget).
  assert (Hv : 0 <= v < 256).
  { rewrite Forall_forall in Hcells. apply Hcells.
    eapply nth_error_In; eassumption. }
  destruct (int2byte_in_range v Hv) as (b & Hb & _).
  unfold Interp.step. rewrite Hcmd. cbn [bind].
  destruct (Interp.dispatch source debug cmd s) as [t| |e'] eqn:D;
    cbn [bind]; try discriminate.
  exfalso. unfold Interp.dispatch in D. revert D. case_cmd.
  - cbn. bounds; discriminate.
  - cbn. bounds; discriminate.
  - rewrite Hget. cbn [bind]. rewrite setitem_in_bounds by exact Hc.
    discriminate.
  - rewrite Hget. cbn [bind]. rewrite setitem_in_bounds by exact Hc.
    discriminate.
  - rewrite Hget. cbn [bind]. rewrite Hb. discriminate.
  - destruct (Interp.process_input s); cbn [Interp.array Interp.cursor
      Interp.set_process_input];
      rewrite setitem_in_bounds by exact Hc; discriminate.
  - rewrite Hget. cbn [bind]. destruct (v >? 0); [discriminate|].
    destruct (Interp.skip_scan _ _ _) as [stop lvl].
    destruct (stop >=? Py.len source); discriminate.
  - destruct (Interp.source_brackets s); discriminate.
  - destruct debug; discriminate.
  - discriminate.
Qed.

(** C10: at every instruction dispatch of a run that has not failed the cursor
    satisfies [0 <= cursor < len(array)], so that no access [array[cursor]]
    leaves the tape: the step taken from such a state never raises
    [IndexError] (nor any other Python exception). *)
Theorem cursor_always_in_bounds source debug input s :
  Interp.reachable source debug input s ->
  0 <= Interp.cursor s < Py.len (Interp.array s)
  /\ (exists v, Py.getitem (Interp.array s) (Interp.cursor s) = Ok v)
  /\ (forall v, exists a,
        Py.setitem (Interp.array s) (Interp.cursor s) v = Ok a)
  /\ (Interp.source_cursor s < Py.len source ->
      forall e, Interp.step source debug s <> Raise e).
Proof.
  intros R. pose proof (reachable_well_formed _ _ _ _ R) as W.
  pose proof W as (Hc & _).
  split; [exact Hc|]. split; [|split].
  - destruct (getitem_in_bounds _ _ Hc) as (v & _ & Hget). eauto.
  - intros v. rewrite setitem_in_bounds by exact Hc. eauto.
  - intros Hlt e. apply step_never_raises; assumption.
Qed.

Lemma cursor_always_in_bounds_witness :
  let s := Interp.mkState 2 [] [0; 1] 1 [] [] in
  0 <= Interp.cursor s < Py.len (Interp.array s)
  /\ (exists v, Py.getitem (Interp.array s) (Interp.cursor s) = Ok v)
  /\ (forall v, exists a,
        Py.setitem (Interp.array s) (Interp.cursor s) v = Ok a)
  /\ (Interp.source_cursor s < Py.len (chars ">+.") ->
      forall e, Interp.step (chars ">+.") false s <> Raise e).
Proof.
  apply (cursor_always_in_bounds (chars ">+.") false []).
  eapply Interp.reach_step with (s := Interp.mkState 1 [] [0; 0] 1 [] []);
    [ eapply Interp.reach_step;
      [ apply Interp.reach_initial | reflexivity | reflexivity ]
    | reflexivity | reflexivity ].
Defined.

(** ** Input *)

(** C6: on [,] the interpreter takes one byte off the process input; at
    end of stream the cell under the cursor becomes 255 (which is not 0),
    otherwise it becomes the value of the byte read; the stream loses exactly
    that byte, and the tape length, the other cells, the cursor, the bracket
    stack, the output and (until the loop's own increment) the source
    position are left as they were. *)
Theorem input_reads_one_byte source debug s :
  0 <= Interp.cursor s < Py.len (Interp.array s) ->
  exists s',
    Interp.dispatch source debug ","%char s = Ok s'
    /\ match Interp.process_input s with
       | [] =>
           Interp.process_input s' = []
           /\ nth_error (Interp.array s') (Z.to_nat (Interp.cursor s))
              = Some 255
           /\ 255 <> 0
       | data :: rest =>
           Interp.process_input s' = rest
           /\ nth_error (Interp.array s') (Z.to_nat (Interp.cursor s))
              = Some (Py.ord data)
           /\ 0 <= Py.ord data < 256
       end
    /\ List.length (Interp.array s') = List.length (Interp.array s)
    /\ (forall n, n <> Z.to_nat (Interp.cursor s) ->
          nth_error (Interp.array s') n = nth_error (Interp.array s) n)
    /\ Interp.cursor s' = Interp.cursor s
    /\ Interp.source_cursor s' = Interp.source_cursor s
    /\ Interp.source_brackets s' = Interp.source_brackets s
    /\ Interp.process_output s' = Interp.process_output s.
Proof.
  intros Hc.
  assert (Hn : (Z.to_nat (Interp.cursor s) < List.length (Interp.array s))%nat)
    by (unfold Py.len in Hc; lia).
  unfold Interp.dispatch. cbn [Ascii.eqb Bool.eqb].
  destruct (Interp.process_input s) as [|data rest] eqn:Hin.
  - rewrite setitem_in_bounds by exact Hc. cbn [bind].
    eexists. split; [reflexivity|]. cbn.
    rewrite Hin, update_length, nth_error_update_eq by exact Hn.
    repeat split; auto; try lia.
    intros n Hne. apply nth_error_update_neq. exact Hne.
  - cbn [Interp.array Interp.cursor Interp.set_process_input].
    rewrite setitem_in_bounds by exact Hc. cbn [bind].
    eexists. split; [reflexivity|]. cbn.
    rewrite update_length, nth_error_update_eq by exact Hn.
    pose proof (ord_range data).
    repeat split; auto; try lia.
    intros n Hne. apply nth_error_update_neq. exact Hne.
Qed.

Lemma input_reads_one_byte_witness :
  exists s',
    Interp.dispatch (chars ",") false ","%char (Interp.initial ["A"%byte])
    = Ok s'
    /\ Interp.process_input s' = []
    /\ Interp.array s' = [65].
Proof.
  destruct (input_reads_one_byte (chars ",") false (Interp.initial ["A"%byte]))
    as (s' & Hd & _); [vm_compute; split; [discriminate | reflexivity]|].
  exists s'. split; [exact Hd|].
  vm_compute in Hd. injection Hd as <-. split; reflexivity.
Defined.

(** ** Moving left *)

(** C9: [<] decrements the cursor and exits with [CursorUnderflow] exactly
    when the new cursor is negative; [>] never fails, whatever the cursor;
    no other instruction exits with [CursorUnderflow]; and its exit code
    differs from those of the three other failures. *)
Theorem move_left_underflow source debug s :
  Interp.dispatch source debug "<"%char s
  = (if Interp.cursor s - 1 <? 0 then Exit CursorUnderflow
     else Ok (Interp.set_cursor s (Interp.cursor s - 1)))
  /\ (exists s', Interp.dispatch source debug ">"%char s = Ok s'
                 /\ Interp.cursor s' = Interp.cursor s + 1)
  /\ (forall cmd, Interp.dispatch source debug cmd s = Exit CursorUnderflow ->
        cmd = "<"%char /\ Interp.cursor s - 1 < 0)
  /\ exit_code CursorUnderflow <> exit_code MissingSourceFile
  /\ exit_code CursorUnderflow <> exit_code UnbalancedMissingClose
  /\ exit_code CursorUnderflow <> exit_code UnbalancedMissingOpen.
Proof.
  split; [reflexivity|]. split; [|split].
  - unfold Interp.dispatch. cbn [Ascii.eqb Bool.eqb].
    cbn [Interp.cursor Interp.set_cursor Interp.array].
    destruct (_ >=? _); eexists; split; reflexivity.
  - intros cmd. unfold Interp.dispatch. case_cmd.
    + cbn. destruct (_ >=? _); intros H; discriminate H.
    + apply Ascii.eqb_eq in E0. subst cmd. cbn.
      destruct (Z.ltb_spec (Interp.cursor s - 1) 0); intros Hd;
        [split; [reflexivity|assumption] | discriminate Hd].
    + primitive (Py.getitem (Interp.array s) (Interp.cursor s));
        try (intros H; discriminate H).
      match goal with |- context [Py.setitem ?a ?b ?c] =>
        primitive (Py.setitem a b c) end; intros H; discriminate H.
    + primitive (Py.getitem (Interp.array s) (Interp.cursor s));
        try (intros H; discriminate H).
      match goal with |- context [Py.setitem ?a ?b ?c] =>
        primitive (Py.setitem a b c) end; intros H; discriminate H.
    + primitive (Py.getitem (Interp.array s) (Interp.cursor s));
        try (intros H; discriminate H).
      match goal with |- context [Py.int2byte ?a] =>
        primitive (Py.int2byte a) end; intros H; discriminate H.
    + destruct (Interp.process_input s);
        match goal with |- context [Py.setitem ?a ?b ?c] =>
          primitive (Py.setitem a b c) end; intros H; discriminate H.
    + primitive (Py.getitem (Interp.array s) (Interp.cursor s));
        try (intros H; discriminate H).
      destruct (_ >? 0); [intros H; discriminate H|].
      destruct (Interp.skip_scan _ _ _) as [stop lvl].
      destruct (stop >=? Py.len source); intros H; discriminate H.
    + destruct (Interp.source_brackets s); intros H; discriminate H.
    + destruct debug; intros H; discriminate H.
    + intros H; discriminate H.
  - cbn. repeat split; discriminate.
Qed.

Lemma move_left_underflow_witness :
  Interp.dispatch (chars "<") false "<"%char (Interp.initial [])
  = Exit CursorUnderflow
  /\ "<"%char = "<"%char /\ Interp.cursor (Interp.initial []) - 1 < 0.
Proof.
  split; [reflexivity|].
  apply (proj1 (proj2 (proj2
          (move_left_underflow (chars "<") false (Interp.initial []))))).
  reflexivity.
Defined.

(** ** The lexical filter *)

Lemma sub_comments_no_hash in_match text :
  ~ In Lexer.hash (Lexer.sub_comments in_match text).
Proof.
  revert in_match. induction text as [|c rest IH]; intros in_match; cbn.
  - tauto.
  - destruct in_match.
    + destruct (Ascii.eqb c Lexer.newline); apply IH.
    + destruct (Ascii.eqb_spec c Lexer.hash) as [|Hne]; [apply IH|].
      cbn. intros [H|H]; [congruence|]. exact (IH false H).
Qed.

Lemma sub_comments_copy pre rest :
  ~ In Lexer.hash pre ->
  Lexer.sub_comments false (pre ++ rest) = pre ++ Lexer.sub_comments false rest.
Proof.
  induction pre as [|c pre IH]; intros H; cbn [app Lexer.sub_comments].
  - reflexivity.
  - destruct (Ascii.eqb_spec c Lexer.hash) as [->|Hne].
    + exfalso. apply H. left. reflexivity.
    + f_equal. apply IH. intros Hin. apply H. right. exact Hin.
Qed.

Lemma sub_comments_to_newline body rest :
  ~ In Lexer.newline body ->
  Lexer.sub_comments true (body ++ Lexer.newline :: rest)
  = Lexer.sub_comments false rest.
Proof.
  induction body as [|c body IH]; intros H; cbn [app Lexer.sub_comments].
  - rewrite Ascii.eqb_refl. reflexivity.
  - destruct (Ascii.eqb_spec c Lexer.newline) as [->|Hne].
    + exfalso. apply H. left. reflexivity.
    + apply IH. intros Hin. apply H. right. exact Hin.
Qed.

Lemma sub_comments_to_end body :
  ~ In Lexer.newline body -> Lexer.sub_comments true body = [].
Proof.
  induction body as [|c body IH]; intros H; cbn [Lexer.sub_comments].
  - reflexivity.
  - destruct (Ascii.eqb_spec c Lexer.newline) as [->|Hne].
    + exfalso. apply H. left. reflexivity.
    + apply IH. intros Hin. apply H. right. exact Hin.
Qed.

Lemma strip_comments_fixed text :
  ~ In Lexer.hash text -> Lexer.strip_comments text = text.
Proof.
  intros H. unfold Lexer.strip_comments.
  rewrite <- (app_nil_r text) at 1.
  rewrite sub_comments_copy by exact H. cbn. apply app_nil_r.
Qed.

(** C8: [strip_comments] is a total function on texts that removes every
    comment span: a span runs from a [#] (the first one after the text kept so
    far) through the next newline, or to the end of the text when no newline
    follows; text without [#] is returned as it is; no [#] is left in the
    result, and filtering a filtered text changes nothing. *)
Theorem strip_comments_removes_spans :
  (forall pre body rest,
      ~ In Lexer.hash pre -> ~ In Lexer.newline body ->
      Lexer.strip_comments (pre ++ Lexer.hash :: body ++ Lexer.newline :: rest)
      = pre ++ Lexer.strip_comments rest)
  /\ (forall pre body,
         ~ In Lexer.hash pre -> ~ In Lexer.newline body ->
         Lexer.strip_comments (pre ++ Lexer.hash :: body) = pre)
  /\ (forall text, ~ In Lexer.hash text -> Lexer.strip_comments text = text)
  /\ (forall text, ~ In Lexer.hash (Lexer.strip_comments text))
  /\ (forall text,
         Lexer.strip_comments (Lexer.strip_comments text)
         = Lexer.strip_comments text).
Proof.
  repeat split.
  - intros pre body rest Hpre Hbody. unfold Lexer.strip_comments.
    rewrite sub_comments_copy by exact Hpre. f_equal.
    cbn [Lexer.sub_comments]. rewrite Ascii.eqb_refl.
    apply sub_comments_to_newline. exact Hbody.
  - intros pre body Hpre Hbody. unfold Lexer.strip_comments.
    rewrite sub_comments_copy by exact Hpre.
    cbn [Lexer.sub_comments]. rewrite Ascii.eqb_refl.
    rewrite sub_comments_to_end by exact Hbody. apply app_nil_r.
  - apply strip_comments_fixed.
  - intros text. apply sub_comments_no_hash.
  - intros text. apply strip_comments_fixed. apply sub_comments_no_hash.
Qed.

Lemma strip_comments_removes_spans_witness :
  Lexer.strip_comments
    (chars "+>" ++ Lexer.hash :: chars " [x]" ++ Lexer.newline :: chars "-#.")
  = chars "+>" ++ Lexer.strip_comments (chars "-#.")
  /\ Lexer.strip_comments (chars "-" ++ Lexer.hash :: chars ".") = chars "-"
  /\ Lexer.strip_comments (chars "+>-") = chars "+>-".
Proof.
  destruct strip_comments_removes_spans as (Hline & Hend & Hid & _).
  split; [|split].
  - apply Hline; cbn; intros H; repeat destruct H as [H|H];
      try discriminate H; exact H.
  - apply Hend; cbn; intros H; repeat destruct H as [H|H];
      try discriminate H; exact H.
  - apply Hid; cbn; intros H; repeat destruct H as [H|H];
      try discriminate H; exact H.
Defined.

(** ** Running the loop over a known piece of source *)

Lemma getitem_middle {A : Type} (pre : list A) c rest :
  Py.getitem (pre ++ c :: rest) (Py.len pre) = Ok c.
Proof.
  apply getitem_nth; [apply len_nonneg|].
  unfold Py.len. rewrite Nat2Z.id.
  rewrite nth_error_app2 by lia. now rewrite Nat.sub_diag.
Qed.

Lemma len_snoc {A : Type} (pre : list A) c :
  Py.len (pre ++ [c]) = Py.len pre + 1.
Proof. rewrite len_app. reflexivity. Qed.

Ltac simpl_state :=
  cbn [bind];
  unfold Interp.set_source_cursor, Interp.set_source_brackets,
    Interp.set_array, Interp.set_cursor, Interp.set_process_input,
    Interp.set_process_output;
  cbn [bind Interp.source_cursor Interp.source_brackets Interp.array
       Interp.cursor Interp.process_input Interp.process_output].

Lemma step_at pre c rest debug s :
  Interp.source_cursor s = Py.len pre ->
  Interp.step (pre ++ c :: rest) debug s
  = (s' <- Interp.dispatch (pre ++ c :: rest) debug c s ;;
     Ok (Interp.set_source_cursor s' (Interp.source_cursor s' + 1))).
Proof.
  intros H. unfold Interp.step. rewrite H, getitem_middle. reflexivity.
Qed.

Lemma loop_more fuel source debug s :
  Interp.source_cursor s < Py.len source ->
  Interp.loop (S fuel) source debug s
  = match Interp.step source debug s with
    | Ok s' => Interp.loop fuel source debug s'
    | Exit k => Some (Exit k)
    | Raise e => Some (Raise e)
    end.
Proof.
  intros H. cbn [Interp.loop].
  destruct (Z.ltb_spec (Interp.source_cursor s) (Py.len source)); [|lia].
  reflexivity.
Qed.

Lemma loop_done fuel source debug s :
  Py.len source <= Interp.source_cursor s ->
  Interp.loop fuel source debug s = Some (Ok s).
Proof.
  intros H. destruct fuel; cbn [Interp.loop];
    destruct (Z.ltb_spec (Interp.source_cursor s) (Py.len source));
    try lia; reflexivity.
Qed.

(** ** Tape growth *)

Lemma len_zeros n : 0 <= n -> Py.len (zeros n) = n.
Proof.
  intros H. unfold Py.len, zeros. rewrite repeat_length. lia.
Qed.

Lemma zeros_succ n : 0 <= n -> zeros n ++ [0] = zeros (n + 1).
Proof.
  intros H. unfold zeros.
  replace (Z.to_nat (n + 1)) with (S (Z.to_nat n)) by lia.
  cbn [repeat]. symmetry. apply repeat_cons.
Qed.

Lemma max_position_head p moves : p <= max_position (positions p moves).
Proof.
  destruct moves; cbn; lia.
Qed.

Lemma loop_moves debug rest :
  forall pre st n p inp out extra,
    only_moves rest ->
    0 <= p <= n ->
    Forall (fun q => 0 <= q) (positions p rest) ->
    Interp.loop (List.length rest + extra) (pre ++ rest) debug
                (Interp.mkState (Py.len pre) st (zeros (n + 1)) p inp out)
    = Some (Ok (Interp.mkState
                  (Py.len (pre ++ rest)) st
                  (zeros (Z.max n (max_position (positions p rest)) + 1))
                  (final_position p rest) inp out)).
Proof.
  induction rest as [|c rest IH]; intros pre st n p inp out extra Hm Hp Hpos.
  - rewrite app_nil_r.
    rewrite loop_done by (cbn [Interp.source_cursor]; lia).
    cbn. do 4 f_equal. lia.
  - cbn [List.length Nat.add]. rewrite loop_more
      by (cbn [Interp.source_cursor]; rewrite len_app, len_cons;
          pose proof (len_nonneg rest); lia).
    rewrite step_at by reflexivity.
    inversion Hm as [|c' rest' Hc Hm']; subst.
    cbn [positions] in Hpos. inversion Hpos as [|q l Hq Hpos']; subst.
    assert (Hnext : 0 <= p + move_delta c).
    { destruct rest; cbn in Hpos'; inversion Hpos'; assumption. }
    pose proof (max_position_head (p + move_delta c) rest) as Hmax.
    replace (pre ++ c :: rest) with ((pre ++ [c]) ++ rest)
      by (rewrite <- app_assoc; reflexivity).
    destruct Hc as [-> | ->]; unfold Interp.dispatch;
      cbn [Ascii.eqb Bool.eqb andb]; cbn in Hnext, Hmax, Hpos'; simpl_state.
    + rewrite len_zeros by lia.
      destruct (Z.geb_spec (p + 1) (n + 1)); simpl_state.
      * rewrite zeros_succ by lia. rewrite <- (len_snoc pre ">"%char).
        rewrite (IH (pre ++ [">"%char]) st (n + 1) (p + 1) inp out extra Hm')
          by (trivial; lia).
        cbn [max_position positions final_position fold_right fold_left
             move_delta Ascii.eqb Bool.eqb andb].
        do 4 f_equal. fold (max_position (positions (p + 1) rest)). lia.
      * rewrite <- (len_snoc pre ">"%char).
        rewrite (IH (pre ++ [">"%char]) st n (p + 1) inp out extra Hm')
          by (trivial; lia).
        cbn [max_position positions final_position fold_right fold_left
             move_delta Ascii.eqb Bool.eqb andb].
        do 4 f_equal. fold (max_position (positions (p + 1) rest)). lia.
    + destruct (Z.ltb_spec (p - 1) 0); [lia|]. simpl_state.
      rewrite <- (len_snoc pre "<"%char).
      replace (p - 1) with (p + -1) by lia.
      rewrite (IH (pre ++ ["<"%char]) st n (p + -1) inp out extra Hm')
        by (trivial; lia).
      cbn [max_position positions final_position fold_right fold_left
           move_delta Ascii.eqb Bool.eqb andb].
      do 4 f_equal. fold (max_position (positions (p + -1) rest)). lia.
Qed.

Lemma only_moves_no_hash text : only_moves text -> ~ In Lexer.hash text.
Proof.
  intros Hm Hin. unfold only_moves in Hm. rewrite Forall_forall in Hm.
  destruct (Hm _ Hin) as [H|H]; discriminate H.
Qed.

Lemma moves_right K :
  forall p, 0 <= p ->
    only_moves (repeat ">"%char K)
    /\ Forall (fun q => 0 <= q) (positions p (repeat ">"%char K))
    /\ max_position (positions p (repeat ">"%char K)) = p + Z.of_nat K
    /\ final_position p (repeat ">"%char K) = p + Z.of_nat K.
Proof.
  induction K as [|K IH]; intros p Hp.
  - cbn. repeat split; try constructor; auto; try lia.
  - destruct (IH (p + 1)) as (Hm & Hpos & Hmax & Hfin); [lia|].
    cbn [repeat positions move_delta Ascii.eqb Bool.eqb andb].
    repeat split.
    + constructor; [left; reflexivity | exact Hm].
    + constructor; assumption.
    + cbn [max_position fold_right]. fold (max_position
         (positions (p + 1) (repeat ">"%char K))). lia.
    + unfold final_position in *. cbn [fold_left move_delta Ascii.eqb
        Bool.eqb andb]. lia.
Qed.

(** C7: [K] moves to the right from the fresh tape leave [K + 1] zero cells
    and the cursor on [K]; and any text of moves that never takes the cursor
    below 0 leaves a tape of [M + 1] zero cells, [M] being the largest cursor
    position visited, with the cursor where the moves end. *)
Theorem tape_growth :
  (forall K input debug,
      Interp.execute K (repeat ">"%char K) input debug
      = Some (Ok (Interp.mkState (Z.of_nat K) [] (zeros (Z.of_nat K + 1))
                                 (Z.of_nat K) input [])))
  /\ (forall text input debug,
         only_moves text ->
         Forall (fun q => 0 <= q) (positions 0 text) ->
         Interp.execute (List.length text) text input debug
         = Some (Ok (Interp.mkState
                       (Py.len text) []
                       (zeros (max_position (positions 0 text) + 1))
                       (final_position 0 text) input []))).
Proof.
  assert (General : forall text input debug,
             only_moves text ->
             Forall (fun q => 0 <= q) (positions 0 text) ->
             Interp.execute (List.length text) text input debug
             = Some (Ok (Interp.mkState
                           (Py.len text) []
                           (zeros (max_position (positions 0 text) + 1))
                           (final_position 0 text) input []))).
  { intros text input debug Hm Hpos. unfold Interp.execute.
    rewrite strip_comments_fixed by (apply only_moves_no_hash; exact Hm).
    pose proof (loop_moves debug text [] [] 0 0 input [] 0%nat Hm) as H.
    rewrite Nat.add_0_r in H. cbn [app] in H.
    unfold Interp.initial. change [0] with (zeros (0 + 1)).
    change 0 with (Py.len (@nil ascii)) at 1.
    rewrite H by (trivial; cbn; lia).
    pose proof (max_position_head 0 text).
    do 4 f_equal. lia. }
  split; [|exact General].
  intros K input debug.
  destruct (moves_right K 0) as (Hm & Hpos & Hmax & Hfin); [lia|].
  pose proof (General (repeat ">"%char K) input debug Hm Hpos) as H.
  rewrite repeat_length in H. rewrite H.
  rewrite Hmax, Hfin. unfold Py.len. rewrite repeat_length. reflexivity.
Qed.

Lemma tape_growth_witness :
  Interp.execute 5 (chars ">><>>") [] false
  = Some (Ok (Interp.mkState 5 [] [0; 0; 0; 0] 3 [] [])).
Proof.
  apply (proj2 tape_growth (chars ">><>>") [] false).
  - repeat (constructor;
            [first [left; reflexivity | right; reflexivity]|]).
    constructor.
  - cbn. repeat (constructor; [lia|]). constructor.
Defined.

(** ** Increments and decrements *)

Lemma update_same {A : Type} (l : list A) n v :
  nth_error l n = Some v -> Py.update l n v = l.
Proof.
  revert n. induction l as [|h t IH]; intros [|n] H; cbn in *;
    try discriminate; try congruence.
  f_equal. apply IH. exact H.
Qed.

Lemma update_update {A : Type} (l : list A) n v w :
  Py.update (Py.update l n v) n w = Py.update l n w.
Proof.
  revert n. induction l as [|h t IH]; intros [|n]; cbn; congruence.
Qed.

Lemma count_cons_eq c text : count c (c :: text) = 1 + count c text.
Proof.
  unfold count. rewrite count_occ_cons_eq by reflexivity. lia.
Qed.

Lemma count_cons_neq c d text : d <> c -> count c (d :: text) = count c text.
Proof.
  intros H. unfold count. rewrite count_occ_cons_neq by exact H. reflexivity.
Qed.

Lemma count_app c l1 l2 : count c (l1 ++ l2) = count c l1 + count c l2.
Proof.
  unfold count. rewrite count_occ_app. lia.
Qed.

Lemma loop_incr_decr debug run :
  forall pre post st arr cur inp out v fuel,
    only_incr_decr run ->
    0 <= cur < Py.len arr ->
    nth_error arr (Z.to_nat cur) = Some v ->
    0 <= v < 256 ->
    Interp.loop (List.length run + fuel) (pre ++ run ++ post) debug
                (Interp.mkState (Py.len pre) st arr cur inp out)
    = Interp.loop fuel (pre ++ run ++ post) debug
        (Interp.mkState
           (Py.len (pre ++ run)) st
           (Py.update arr (Z.to_nat cur)
                      ((v + (count "+"%char run - count "-"%char run))
                       mod 256))
           cur inp out).
Proof.
  induction run as [|c run IH];
    intros pre post st arr cur inp out v fuel Hrun Hcur Hnth Hv.
  - cbn [List.length Nat.add]. rewrite app_nil_r. unfold count. cbn.
    rewrite Z.add_0_r, Z.mod_small by lia.
    rewrite update_same by exact Hnth. reflexivity.
  - inversion Hrun as [|c' run' Hc Hrun']; subst.
    assert (Hn : (Z.to_nat cur < List.length arr)%nat)
      by (unfold Py.len in Hcur; lia).
    cbn [List.length Nat.add app].
    rewrite loop_more
      by (cbn [Interp.source_cursor]; rewrite len_app, len_cons;
          pose proof (len_nonneg (run ++ post)); lia).
    rewrite step_at by reflexivity.
    replace (pre ++ c :: run ++ post) with ((pre ++ [c]) ++ run ++ post)
      by (rewrite <- app_assoc; reflexivity).
    replace (pre ++ c :: run) with ((pre ++ [c]) ++ run)
      by (rewrite <- app_assoc; reflexivity).
    destruct Hc as [-> | ->]; unfold Interp.dispatch;
      cbn [Ascii.eqb Bool.eqb andb]; simpl_state;
      rewrite (getitem_nth arr cur v) by (trivial; lia); cbn [bind];
      rewrite setitem_in_bounds by exact Hcur; simpl_state;
      rewrite and_ff_mod.
    + rewrite <- (len_snoc pre "+"%char).
      assert (Hb : 0 <= (v + 1) mod 256 < 256)
        by (apply Z.mod_pos_bound; lia).
      rewrite (IH (pre ++ ["+"%char]) post st _ cur inp out ((v + 1) mod 256));
        [ | exact Hrun' | rewrite len_update; exact Hcur
          | apply nth_error_update_eq; exact Hn | exact Hb ].
      rewrite update_update, count_cons_eq, count_cons_neq by discriminate.
      do 3 f_equal. rewrite Zplus_mod_idemp_l. f_equal. lia.
    + rewrite <- (len_snoc pre "-"%char).
      assert (Hb : 0 <= (v - 1) mod 256 < 256)
        by (apply Z.mod_pos_bound; lia).
      rewrite (IH (pre ++ ["-"%char]) post st _ cur inp out ((v - 1) mod 256));
        [ | exact Hrun' | rewrite len_update; exact Hcur
          | apply nth_error_update_eq; exact Hn | exact Hb ].
      rewrite update_update, count_cons_eq, count_cons_neq by discriminate.
      do 3 f_equal. rewrite Zplus_mod_idemp_l. f_equal. lia.
Qed.

Lemma parse_all_incr_decr run :
  forall c,
    only_incr_decr run ->
    Translator.comment c = false ->
    Translator.move c = 0 ->
    Translator.parse_all c run
    = Ok (Translator.set_incr
            c (Translator.incr c
               + (count "+"%char run - count "-"%char run))).
Proof.
  induction run as [|ch run IH]; intros c Hrun Hcom Hmove.
  - cbn. unfold count; cbn. rewrite Z.add_0_r.
    destruct c; reflexivity.
  - inversion Hrun as [|c' run' Hc Hrun']; subst.
    cbn [Translator.parse_all].
    destruct Hc as [-> | ->]; unfold Translator.parse;
      cbn [Ascii.eqb Bool.eqb andb Lexer.newline]; rewrite Hcom; cbn [negb];
      unfold Translator.write_move; rewrite Hmove; cbn [Z.eqb negb bind];
      rewrite IH by (trivial; destruct c; assumption);
      rewrite count_cons_eq, count_cons_neq by discriminate;
      unfold Translator.set_incr;
      cbn [Translator.debug Translator.size Translator.comment
           Translator.level Translator.move Translator.incr
           Translator.source_output];
      do 2 f_equal; lia.
Qed.

Lemma host_cell_add m v d :
  Host.load m = Some v ->
  exists m',
    Host.exec (Translator.CellAdd d) m = Host.Running m'
    /\ Host.load m' = Some ((v + d) mod 256)
    /\ Host.ptr m' = Host.ptr m
    /\ List.length (Host.array m') = List.length (Host.array m).
Proof.
  intros Hload. cbn [Host.exec]. rewrite Hload.
  unfold Host.load in Hload. unfold Host.store.
  destruct ((0 <=? Host.ptr m) && (Host.ptr m <? Py.len (Host.array m)))
    eqn:Hb; [|discriminate].
  eexists. split; [reflexivity|].
  unfold Host.load. cbn [Host.array Host.ptr]. rewrite len_update, Hb.
  rewrite update_length. repeat split.
  apply nth_error_update_eq. apply nth_error_Some. congruence.
Qed.

(** C5: a text of [N] increments and [M] decrements, in any order, takes a
    cell holding [v] to [(v + N - M) mod 256] in the interpreter; the compiler
    accumulates the same text into the single delta [N - M], written as one
    [*ptr += N - M;] (or as nothing when the delta is 0) at the next flush;
    and running what was written takes a cell holding [v] to
    [(v + N - M) mod 256] as well, also when the text is cut in two and each
    part is written as a statement of its own. *)
Theorem incr_decr_value run :
  only_incr_decr run ->
  (forall debug st arr cur inp out v,
      0 <= cur < Py.len arr ->
      nth_error arr (Z.to_nat cur) = Some v ->
      0 <= v < 256 ->
      Interp.loop (List.length run) run debug
                  (Interp.mkState 0 st arr cur inp out)
      = Some (Ok (Interp.mkState
                    (Py.len run) st
                    (Py.update arr (Z.to_nat cur)
                       ((v + count "+"%char run - count "-"%char run)
                        mod 256))
                    cur inp out)))
  /\ (forall c,
         Translator.comment c = false ->
         Translator.move c = 0 ->
         Translator.incr c = 0 ->
         exists c',
           Translator.parse_all c run = Ok c'
           /\ Translator.incr c' = count "+"%char run - count "-"%char run
           /\ Translator.source_output c' = Translator.source_output c
           /\ Translator.source_output (Translator.write_incr c')
              = Translator.source_output c
                ++ (if Translator.incr c' =? 0 then []
                    else [Translator.CellAdd (Translator.incr c')]))
  /\ (forall m v fuel,
         Host.load m = Some v ->
         0 <= v < 256 ->
         exists m',
           Host.run (2 + fuel)
             (map Host.Simple
                (if count "+"%char run - count "-"%char run =? 0 then []
                 else [Translator.CellAdd
                         (count "+"%char run - count "-"%char run)]))
             m
           = Some (Host.Running m')
           /\ Host.load m'
              = Some ((v + count "+"%char run - count "-"%char run) mod 256)
           /\ Host.ptr m' = Host.ptr m)
  /\ (forall r1 r2 m v,
         run = r1 ++ r2 ->
         Host.load m = Some v ->
         exists m',
           Host.run 3
             [Host.Simple (Translator.CellAdd
                             (count "+"%char r1 - count "-"%char r1));
              Host.Simple (Translator.CellAdd
                             (count "+"%char r2 - count "-"%char r2))]
             m
           = Some (Host.Running m')
           /\ Host.load m'
              = Some ((v + count "+"%char run - count "-"%char run) mod 256)).
Proof.
  intros Hrun. split; [|split; [|split]].
  - intros debug st arr cur inp out v Hcur Hnth Hv.
    pose proof (loop_incr_decr debug run [] [] st arr cur inp out v 0%nat
                               Hrun Hcur Hnth Hv) as H.
    rewrite Nat.add_0_r in H. cbn [app] in H. rewrite app_nil_r in H.
    change (Py.len (@nil ascii)) with 0 in H. rewrite H.
    rewrite loop_done by (cbn [Interp.source_cursor]; lia).
    do 4 f_equal. f_equal. lia.
  - intros c Hcom Hmove Hincr.
    rewrite parse_all_incr_decr by assumption.
    eexists. split; [reflexivity|].
    unfold Translator.write_incr, Translator.set_incr, Translator.write.
    cbn [Translator.debug Translator.size Translator.comment
         Translator.level Translator.move Translator.incr
         Translator.source_output].
    rewrite Hincr, Z.add_0_l. repeat split.
    destruct (Z.eqb_spec (count "+"%char run - count "-"%char run) 0);
      cbn [negb Translator.source_output]; [now rewrite app_nil_r|reflexivity].
  - intros m v fuel Hload Hv.
    destruct (Z.eqb_spec (count "+"%char run - count "-"%char run) 0)
      as [Hz|Hnz].
    + exists m. cbn [map Host.run Nat.add]. repeat split.
      rewrite Hload. f_equal.
      replace (v + count "+"%char run - count "-"%char run) with v by lia.
      symmetry. apply Z.mod_small. exact Hv.
    + destruct (host_cell_add m v
                  (count "+"%char run - count "-"%char run) Hload)
        as (m' & Hexec & Hcell & Hptr & _).
      exists m'. cbn [map Host.run Nat.add]. rewrite Hexec.
      repeat split; [|exact Hptr]. rewrite Hcell. do 2 f_equal. lia.
  - intros r1 r2 m v -> Hload.
    destruct (host_cell_add m v (count "+"%char r1 - count "-"%char r1)
                Hload) as (m1 & Hexec1 & Hcell1 & _).
    destruct (host_cell_add m1 _ (count "+"%char r2 - count "-"%char r2)
                Hcell1) as (m2 & Hexec2 & Hcell2 & _).
    exists m2. cbn [Host.run]. rewrite Hexec1, Hexec2.
    split; [reflexivity|]. rewrite Hcell2, Zplus_mod_idemp_l.
    rewrite !count_app. do 2 f_equal. lia.
Qed.

Lemma incr_decr_value_witness :
  Interp.loop 4 (chars "++-+") false (Interp.mkState 0 [] [7; 255] 1 [] [])
  = Some (Ok (Interp.mkState 4 [] [7; 1] 1 [] [])).
Proof.
  assert (Hrun : only_incr_decr (chars "++-+")).
  { repeat (constructor;
            [first [left; reflexivity | right; reflexivity]|]).
    constructor. }
  apply (proj1 (incr_decr_value (chars "++-+") Hrun)
               false [] [7; 255] 1 [] [] 255).
  - vm_compute. split; [discriminate | reflexivity].
  - reflexivity.
  - lia.
Defined.

(** ** Coalesced runs and the end of the program *)

(** C2, as stated, fails: the run that ends a program is never written.  For
    [+++++] and for [>>><] the compiler writes the prologue and the [return]
    only, so the emitted program leaves the cell at 0 and the pointer at
    offset 0, where the interpreter ends on cell value 5 and cursor 2. *)
Lemma trailing_run_not_emitted :
  emitted (Translator.compile (chars "+++++") false 65636)
  = Some [Translator.Header 65636; Translator.Return]
  /\ host_cell (compile_and_run 10 (chars "+++++") 65636 false []) = Some 0
  /\ interp_cell (Interp.execute 10 (chars "+++++") [] false) = Some 5
  /\ host_cell (compile_and_run 10 (chars "+++++") 65636 false [])
     <> interp_cell (Interp.execute 10 (chars "+++++") [] false)
  /\ emitted (Translator.compile (chars ">>><") false 65636)
     = Some [Translator.Header 65636; Translator.Return]
  /\ host_ptr (compile_and_run 10 (chars ">>><") 65636 false []) = Some 0
  /\ interp_cursor (Interp.execute 10 (chars ">>><") [] false) = Some 2
  /\ host_ptr (compile_and_run 10 (chars ">>><") 65636 false [])
     <> interp_cursor (Interp.execute 10 (chars ">>><") [] false).
Proof.
  repeat split; try (vm_compute; reflexivity); vm_compute; discriminate.
Qed.

(** C2, amended: a run is written when an instruction that flushes follows
    it.  For [+++++.] the compiler writes the single statement [*ptr += 5;]
    before the [putchar], and running the emitted program leaves the cell at
    5, as interpreting [+++++.] does; for [>>><.] it writes the single
    statement [ptr += 2;], and the emitted program leaves the pointer at
    offset 2, as the interpreter's cursor. *)
Theorem coalesced_run_before_output :
  emitted (Translator.compile (chars "+++++.") false 65636)
  = Some [Translator.Header 65636; Translator.CellAdd 5;
          Translator.Putchar; Translator.Return]
  /\ host_cell (compile_and_run 10 (chars "+++++.") 65636 false []) = Some 5
  /\ interp_cell (Interp.execute 10 (chars "+++++.") [] false) = Some 5
  /\ emitted (Translator.compile (chars ">>><.") false 65636)
     = Some [Translator.Header 65636; Translator.PtrAdd 2;
             Translator.Putchar; Translator.Return]
  /\ host_ptr (compile_and_run 10 (chars ">>><.") 65636 false []) = Some 2
  /\ interp_cursor (Interp.execute 10 (chars ">>><.") [] false) = Some 2.
Proof.
  repeat split; vm_compute; reflexivity.
Qed.

(** ** The pending-operation buffer *)

Lemma parse_keeps_one_pending c ch c' :
  Translator.move c = 0 \/ Translator.incr c = 0 ->
  Translator.parse c ch = Ok c' ->
  Translator.move c' = 0 \/ Translator.incr c' = 0.
Proof.
  intros Hinv. unfold Translator.parse.
  destruct (Ascii.eqb ch Lexer.newline);
    [intros H; injection H as <-; exact Hinv|].
  destruct (Translator.comment c); cbn [negb];
    [intros H; injection H as <-; exact Hinv|].
  unfold Translator.write_move, Translator.write_incr.
  case_cmd; try (destruct (Translator.level c <? 1); [intros H; discriminate H|]);
    intros H; injection H as <-;
    destruct (Translator.move c =? 0) eqn:Hm;
    destruct (Translator.incr c =? 0) eqn:Hi;
    destruct (Translator.debug c);
    cbn; rewrite ?Hm, ?Hi; cbn; auto; lia.
Qed.

Lemma parse_event c ch x c' :
  Translator.comment c = false ->
  event_stmt ch = Some x ->
  Translator.parse c ch = Ok c' ->
  Translator.move c' = 0
  /\ Translator.incr c' = 0
  /\ Translator.source_output c'
     = Translator.source_output c
         ++ pending_move_text c ++ pending_incr_text c ++ [x].
Proof.
  intros Hcom Hev. unfold Translator.parse, event_stmt in *.
  destruct (Ascii.eqb_spec ch Lexer.newline) as [->|_];
    [cbn in Hev; discriminate|].
  rewrite Hcom. cbn [negb].
  unfold Translator.write_move, Translator.write_incr, pending_move_text,
    pending_incr_text.
  revert Hev. case_cmd; intros Hev; try discriminate; injection Hev as <-;
    repeat match goal with
      | H : Ascii.eqb ch _ = true |- _ => apply Ascii.eqb_eq in H; subst ch
      end; try discriminate;
    try (destruct (Translator.level c <? 1); [intros H; discriminate H|]);
    intros H; injection H as <-;
    destruct (Translator.move c =? 0) eqn:Hm;
    destruct (Translator.incr c =? 0) eqn:Hi;
    destruct (Translator.debug c);
    cbn; rewrite ?Hm, ?Hi; cbn; rewrite <- ?app_assoc; cbn;
    rewrite ?app_nil_r; repeat split; auto; lia.
Qed.

(** C3, as stated, fails at the end of the program: [finish] neither writes
    nor clears what is pending.  After compiling [+] successfully the pending
    increment is still 1 and no statement was written for it. *)
Lemma finish_keeps_pending :
  exists c,
    Translator.compile (chars "+") false 65636 = Ok c
    /\ Translator.incr c = 1
    /\ Translator.incr c <> 0
    /\ Translator.source_output c
       = [Translator.Header 65636; Translator.Return].
Proof.
  eexists. split; [vm_compute; reflexivity|].
  cbn. repeat split. discriminate.
Qed.

(** C3, amended: between any two characters at most one of [move] and [incr]
    is non-zero; before the statement of an output, an input, a loop opening
    or a loop closing both are written, each as one combined statement when
    non-zero, and both are zero afterwards; [finish], when it succeeds, writes
    only the [return] and leaves [move] and [incr] as they were at the end of
    the input. *)
Theorem pending_buffer_invariant :
  (forall debug size c,
      Translator.reachable debug size c ->
      Translator.move c = 0 \/ Translator.incr c = 0)
  /\ (forall c ch x c',
         Translator.comment c = false ->
         event_stmt ch = Some x ->
         Translator.parse c ch = Ok c' ->
         Translator.move c' = 0
         /\ Translator.incr c' = 0
         /\ Translator.source_output c'
            = Translator.source_output c
                ++ pending_move_text c ++ pending_incr_text c ++ [x])
  /\ (forall c c',
         Translator.finish c = Ok c' ->
         Translator.move c' = Translator.move c
         /\ Translator.incr c' = Translator.incr c
         /\ Translator.source_output c'
            = Translator.source_output c ++ [Translator.Return]).
Proof.
  split; [|split].
  - intros debug size c R. induction R as [|c ch c' _ IH Hp].
    + left. reflexivity.
    + eapply parse_keeps_one_pending; eassumption.
  - apply parse_event.
  - intros c c'. unfold Translator.finish.
    destruct (Translator.level c >? 0); [discriminate|].
    intros H. injection H as <-. cbn. repeat split.
Qed.

Lemma pending_buffer_invariant_witness :
  let c := Translator.mkCompiler true 9 false 0 0 2 [Translator.Header 9] in
  (Translator.move c = 0 \/ Translator.incr c = 0)
  /\ (forall c',
         Translator.parse c "."%char = Ok c' ->
         Translator.source_output c'
         = [Translator.Header 9; Translator.CellAdd 2; Translator.Putchar]).
Proof.
  intros c. destruct pending_buffer_invariant as (Hone & Hevent & _).
  split.
  - apply (Hone true 9).
    eapply Translator.reach_parse with (ch := "+"%char);
      [eapply Translator.reach_parse with (ch := "+"%char);
       [apply Translator.reach_start | reflexivity] | reflexivity].
  - intros c' Hp.
    destruct (Hevent c "."%char Translator.Putchar c' eq_refl eq_refl Hp)
      as (_ & _ & Hout).
    exact Hout.
Defined.

(** ** Brackets *)

Lemma depth_nil : depth [] = 0.
Proof. reflexivity. Qed.

Lemma depth_open text : depth ("["%char :: text) = depth text + 1.
Proof.
  unfold depth. rewrite count_cons_eq, count_cons_neq by discriminate. lia.
Qed.

Lemma depth_close text : depth ("]"%char :: text) = depth text - 1.
Proof.
  unfold depth. rewrite count_cons_eq, count_cons_neq by discriminate. lia.
Qed.

Lemma depth_other c text :
  c <> "["%char -> c <> "]"%char -> depth (c :: text) = depth text.
Proof.
  intros H1 H2. unfold depth. rewrite !count_cons_neq by assumption.
  reflexivity.
Qed.

Lemma open_brackets_none text :
  forall pos open,
    open_brackets text pos open = None ->
    exists pre rest, text = pre ++ rest /\ Py.len open + depth pre < 0.
Proof.
  induction text as [|c text IH]; intros pos open H; cbn in H.
  - discriminate.
  - destruct (Ascii.eqb_spec c "["%char) as [->|Hno].
    + destruct (IH _ _ H) as (pre & rest & -> & Hd).
      exists ("["%char :: pre), rest. split; [reflexivity|].
      rewrite depth_open. rewrite len_cons in Hd. lia.
    + destruct (Ascii.eqb_spec c "]"%char) as [->|Hnc].
      * destruct open as [|top below].
        -- exists ["]"%char], text. split; [reflexivity|].
           rewrite depth_close, depth_nil. cbn. lia.
        -- destruct (IH _ _ H) as (pre & rest & -> & Hd).
           exists ("]"%char :: pre), rest. split; [reflexivity|].
           rewrite depth_close, len_cons. lia.
      * destruct (IH _ _ H) as (pre & rest & -> & Hd).
        exists (c :: pre), rest. split; [reflexivity|].
        rewrite depth_other by assumption. exact Hd.
Qed.

Lemma open_brackets_some text :
  forall pos open open',
    open_brackets text pos open = Some open' ->
    Py.len open' = Py.len open + depth text
    /\ (forall pre rest, text = pre ++ rest -> 0 <= Py.len open + depth pre).
Proof.
  induction text as [|c text IH]; intros pos open open' H; cbn in H.
  - injection H as <-. rewrite depth_nil. split; [lia|].
    intros pre rest E. symmetry in E. apply app_eq_nil in E as [-> _].
    rewrite depth_nil. pose proof (len_nonneg open). lia.
  - assert (Hnil : 0 <= Py.len open + depth []).
    { rewrite depth_nil. pose proof (len_nonneg open). lia. }
    destruct (Ascii.eqb_spec c "["%char) as [->|Hno].
    + destruct (IH _ _ _ H) as (Hl & Hp). rewrite len_cons in Hl, Hp.
      rewrite depth_open. split; [lia|].
      intros [|x pre] rest E; [exact Hnil|].
      cbn in E. injection E as <- E. rewrite depth_open.
      specialize (Hp pre rest E). lia.
    + destruct (Ascii.eqb_spec c "]"%char) as [->|Hnc].
      * destruct open as [|top below]; [discriminate|].
        destruct (IH _ _ _ H) as (Hl & Hp). rewrite len_cons.
        rewrite depth_close. split; [lia|].
        intros [|x pre] rest E;
          [rewrite depth_nil; pose proof (len_nonneg below); lia|].
        cbn in E. injection E as <- E. rewrite depth_close.
        specialize (Hp pre rest E). lia.
      * destruct (IH _ _ _ H) as (Hl & Hp).
        rewrite depth_other by assumption. split; [lia|].
        intros [|x pre] rest E; [exact Hnil|].
        cbn in E. injection E as <- E. rewrite depth_other by assumption.
        exact (Hp pre rest E).
Qed.

(** The three verdicts on a text, read off its open brackets. *)

Lemma len_nil {A : Type} : Py.len (@nil A) = 0.
Proof. reflexivity. Qed.

Lemma closes_unopened_iff text :
  closes_unopened text <-> open_brackets text 0 [] = None.
Proof.
  split.
  - intros (pre & rest & E & Hd).
    destruct (open_brackets text 0 []) as [open'|] eqn:H; [|reflexivity].
    destruct (open_brackets_some _ _ _ _ H) as (_ & Hp).
    specialize (Hp pre rest E). rewrite (@len_nil Z) in Hp. lia.
  - intros H. destruct (open_brackets_none _ _ _ H) as (pre & rest & E & Hd).
    exists pre, rest. split; [exact E|]. rewrite (@len_nil Z) in Hd. lia.
Qed.

Lemma leaves_open_iff text :
  leaves_open text
  <-> exists top below, open_brackets text 0 [] = Some (top :: below).
Proof.
  split.
  - intros (Hp & Hd).
    destruct (open_brackets text 0 []) as [[|top below]|] eqn:H.
    + destruct (open_brackets_some _ _ _ _ H) as (Hl & _).
      rewrite (@len_nil Z) in Hl. lia.
    + eauto.
    + destruct (open_brackets_none _ _ _ H) as (pre & rest & E & Hn).
      specialize (Hp pre rest E). rewrite (@len_nil Z) in Hn. lia.
  - intros (top & below & H).
    destruct (open_brackets_some _ _ _ _ H) as (Hl & Hp).
    rewrite len_cons, (@len_nil Z) in Hl. pose proof (len_nonneg below).
    split; [|lia].
    intros pre rest E. specialize (Hp pre rest E). rewrite (@len_nil Z) in Hp. lia.
Qed.

Lemma balanced_iff text :
  balanced text <-> open_brackets text 0 [] = Some [].
Proof.
  split.
  - intros (Hp & Hd).
    destruct (open_brackets text 0 []) as [[|top below]|] eqn:H.
    + reflexivity.
    + destruct (open_brackets_some _ _ _ _ H) as (Hl & _).
      rewrite len_cons, (@len_nil Z) in Hl. pose proof (len_nonneg below). lia.
    + destruct (open_brackets_none _ _ _ H) as (pre & rest & E & Hn).
      specialize (Hp pre rest E). rewrite (@len_nil Z) in Hn. lia.
  - intros H. destruct (open_brackets_some _ _ _ _ H) as (Hl & Hp).
    rewrite (@len_nil Z) in Hl. split; [|lia].
    intros pre rest E. specialize (Hp pre rest E). rewrite (@len_nil Z) in Hp. lia.
Qed.

(** ** The compiler's verdict on brackets *)

Lemma write_move_fields c :
  Translator.level (Translator.write_move c) = Translator.level c
  /\ Translator.comment (Translator.write_move c) = Translator.comment c.
Proof.
  unfold Translator.write_move, Translator.write, Translator.set_move.
  destruct (Translator.move c =? 0); cbn; destruct (Translator.debug c);
    split; reflexivity.
Qed.

Lemma write_incr_fields c :
  Translator.level (Translator.write_incr c) = Translator.level c
  /\ Translator.comment (Translator.write_incr c) = Translator.comment c.
Proof.
  unfold Translator.write_incr.
  destruct (Translator.incr c =? 0); split; reflexivity.
Qed.

Ltac flushes c :=
  cbn [Translator.write Translator.set_move Translator.set_incr
       Translator.set_level Translator.set_comment
       Translator.level Translator.comment];
  rewrite ?(proj1 (write_incr_fields (Translator.write_move c))),
    ?(proj2 (write_incr_fields (Translator.write_move c))),
    ?(proj1 (write_incr_fields c)), ?(proj2 (write_incr_fields c)),
    ?(proj1 (write_move_fields c)), ?(proj2 (write_move_fields c)).

Lemma parse_in_comment c ch :
  Translator.comment c = true ->
  Translator.parse c ch
  = Ok (if Ascii.eqb ch Lexer.newline then Translator.set_comment c false
        else c).
Proof.
  intros H. unfold Translator.parse. rewrite H.
  destruct (Ascii.eqb ch Lexer.newline); reflexivity.
Qed.

Lemma parse_hash c :
  Translator.comment c = false ->
  Translator.parse c "#"%char = Ok (Translator.set_comment c true).
Proof.
  intros H. unfold Translator.parse. rewrite H. reflexivity.
Qed.

Lemma parse_open c :
  Translator.comment c = false ->
  exists c',
    Translator.parse c "["%char = Ok c'
    /\ Translator.level c' = Translator.level c + 1
    /\ Translator.comment c' = false.
Proof.
  intros H. unfold Translator.parse. rewrite H.
  cbn [Ascii.eqb Bool.eqb andb negb Lexer.newline].
  eexists. split; [reflexivity|].
  flushes c; split; auto.
Qed.

Lemma parse_close c :
  Translator.comment c = false ->
  if Translator.level c <? 1
  then Translator.parse c "]"%char = Exit UnbalancedMissingOpen
  else exists c',
      Translator.parse c "]"%char = Ok c'
      /\ Translator.level c' = Translator.level c - 1
      /\ Translator.comment c' = false.
Proof.
  intros H. unfold Translator.parse. rewrite H.
  cbn [Ascii.eqb Bool.eqb andb negb Lexer.newline].
  destruct (Translator.level c <? 1); [reflexivity|].
  eexists. split; [reflexivity|].
  flushes c; split; auto.
Qed.

Lemma parse_other c ch :
  Translator.comment c = false ->
  ch <> "#"%char -> ch <> "["%char -> ch <> "]"%char ->
  exists c',
    Translator.parse c ch = Ok c'
    /\ Translator.level c' = Translator.level c
    /\ Translator.comment c' = false.
Proof.
  intros H Hh Ho Hc. unfold Translator.parse. rewrite H. cbn [negb].
  case_cmd;
    repeat match goal with
      | E : Ascii.eqb ch _ = true |- _ => apply Ascii.eqb_eq in E
      end; try congruence;
    (eexists; split; [reflexivity|]);
    flushes c; split; auto.
Qed.

Lemma parse_all_brackets raw :
  forall c pos open,
    Translator.level c = Py.len open ->
    match open_brackets (Lexer.sub_comments (Translator.comment c) raw)
                        pos open with
    | None => Translator.parse_all c raw = Exit UnbalancedMissingOpen
    | Some open' =>
        exists c',
          Translator.parse_all c raw = Ok c'
          /\ Translator.level c' = Py.len open'
    end.
Proof.
  induction raw as [|ch raw IH]; intros c pos open Hl.
  - destruct (Translator.comment c); cbn; eauto.
  - cbn [Translator.parse_all Lexer.sub_comments].
    destruct (Translator.comment c) eqn:Hcom.
    + rewrite parse_in_comment by exact Hcom. cbn [bind].
      destruct (Ascii.eqb ch Lexer.newline).
      * apply (IH (Translator.set_comment c false) pos open Hl).
      * specialize (IH c pos open Hl). rewrite Hcom in IH. exact IH.
    + destruct (Ascii.eqb_spec ch Lexer.hash) as [->|Hh].
      * rewrite parse_hash by exact Hcom. cbn [bind].
        apply (IH (Translator.set_comment c true) pos open Hl).
      * cbn [open_brackets].
        destruct (Ascii.eqb_spec ch "["%char) as [->|Ho].
        { destruct (parse_open c Hcom) as (c1 & -> & Hl1 & Hc1).
          cbn [bind].
          specialize (IH c1 (pos + 1) (pos :: open)).
          rewrite Hc1 in IH. apply IH. rewrite len_cons. lia. }
        destruct (Ascii.eqb_spec ch "]"%char) as [->|Hc].
        { pose proof (parse_close c Hcom) as Hp.
          destruct open as [|top below].
          - rewrite Hl, (@len_nil Z) in Hp. change (0 <? 1) with true in Hp.
            cbv iota in Hp. rewrite Hp. reflexivity.
          - rewrite len_cons in Hl. pose proof (len_nonneg below).
            destruct (Z.ltb_spec (Translator.level c) 1); [lia|].
            destruct Hp as (c1 & -> & Hl1 & Hc1). cbn [bind].
            specialize (IH c1 (pos + 1) below).
            rewrite Hc1 in IH. apply IH. lia. }
        destruct (parse_other c ch Hcom Hh Ho Hc) as (c1 & -> & Hl1 & Hc1).
        cbn [bind].
        specialize (IH c1 (pos + 1) open). rewrite Hc1 in IH.
        apply IH. lia.
Qed.

Lemma compile_verdict raw debug size :
  match open_brackets (Lexer.strip_comments raw) 0 [] with
  | None => Translator.compile raw debug size = Exit UnbalancedMissingOpen
  | Some [] => exists c, Translator.compile raw debug size = Ok c
  | Some (_ :: _) =>
      Translator.compile raw debug size = Exit UnbalancedMissingClose
  end.
Proof.
  unfold Translator.compile, Lexer.strip_comments.
  pose proof (parse_all_brackets
                raw (Translator.start (Translator.init debug size)) 0 [])
    as H.
  cbn [Translator.comment Translator.start Translator.init Translator.write
       Translator.level] in H.
  specialize (H eq_refl).
  destruct (open_brackets (Lexer.sub_comments false raw) 0 [])
    as [[|top below]|].
  - destruct H as (c & -> & Hl). cbn [bind]. unfold Translator.finish.
    rewrite Hl. cbn. eauto.
  - destruct H as (c & -> & Hl). cbn [bind]. unfold Translator.finish.
    rewrite Hl, len_cons. pose proof (len_nonneg below).
    destruct (Z.gtb_spec (1 + Py.len below) 0); [reflexivity|lia].
  - rewrite H. reflexivity.
Qed.

(** ** The interpreter's stack and the open brackets *)

Lemma open_brackets_app l1 l2 :
  forall pos open,
    open_brackets (l1 ++ l2) pos open
    = match open_brackets l1 pos open with
      | Some open' => open_brackets l2 (pos + Py.len l1) open'
      | None => None
      end.
Proof.
  induction l1 as [|c l1 IH]; intros pos open; cbn [app open_brackets].
  - rewrite (@len_nil ascii), Z.add_0_r. reflexivity.
  - rewrite len_cons, Z.add_assoc.
    destruct (Ascii.eqb c "["%char); [apply IH|].
    destruct (Ascii.eqb c "]"%char); [|apply IH].
    destruct open; [reflexivity|apply IH].
Qed.

Lemma firstn_succ_nth {A : Type} (l : list A) n c :
  nth_error l n = Some c -> firstn (S n) l = firstn n l ++ [c].
Proof.
  revert n. induction l as [|h t IH]; intros [|n] H; cbn in *;
    try discriminate.
  - congruence.
  - f_equal. apply IH. exact H.
Qed.

Lemma firstn_add {A : Type} (l : list A) a b :
  firstn (a + b) l = firstn a l ++ firstn b (skipn a l).
Proof.
  revert l. induction a as [|a IH]; intros [|h t]; cbn;
    rewrite ?firstn_nil; try reflexivity.
  f_equal. apply IH.
Qed.

Lemma len_firstn {A : Type} (l : list A) n :
  (n <= List.length l)%nat -> Py.len (firstn n l) = Z.of_nat n.
Proof.
  intros H. unfold Py.len. rewrite length_firstn. lia.
Qed.

Lemma open_brackets_stack text :
  forall open',
    open_brackets text 0 [] = Some open' ->
    forall above top below,
      open' = above ++ top :: below ->
      0 <= top < Py.len text
      /\ nth_error text (Z.to_nat top) = Some "["%char
      /\ open_brackets (firstn (Z.to_nat top) text) 0 [] = Some below.
Proof.
  induction text as [|c l IH] using rev_ind; intros open' H above top below E.
  - cbn in H. injection H as <-. destruct above; discriminate.
  - rewrite open_brackets_app in H.
    destruct (open_brackets l 0 []) as [open1|] eqn:H1; [|discriminate].
    assert (Keep : forall above1, open1 = above1 ++ top :: below ->
              0 <= top < Py.len (l ++ [c])
              /\ nth_error (l ++ [c]) (Z.to_nat top) = Some "["%char
              /\ open_brackets (firstn (Z.to_nat top) (l ++ [c])) 0 []
                 = Some below).
    { intros above1 E1.
      destruct (IH open1 eq_refl above1 top below E1) as (Hb & Hn & Ho).
      assert (Hlt : (Z.to_nat top < List.length l)%nat)
        by (unfold Py.len in Hb; lia).
      rewrite len_snoc, nth_error_app1 by exact Hlt.
      rewrite firstn_app.
      replace (Z.to_nat top - List.length l)%nat with 0%nat by lia.
      cbn [firstn]. rewrite app_nil_r. repeat split; auto; lia. }
    cbn [open_brackets] in H.
    destruct (Ascii.eqb_spec c "["%char) as [->|Hno].
    + injection H as <-. destruct above as [|a above].
      * cbn in E. injection E as <- <-.
        assert (Hto : Z.to_nat (Py.len l) = List.length l)
          by (unfold Py.len; lia).
        rewrite Hto, len_snoc, nth_error_app2, Nat.sub_diag by lia.
        rewrite firstn_app, Nat.sub_diag, firstn_all. cbn [firstn nth_error].
        rewrite app_nil_r. pose proof (len_nonneg l).
        repeat split; auto; lia.
      * cbn in E. injection E as _ E. apply (Keep above E).
    + destruct (Ascii.eqb_spec c "]"%char) as [->|Hnc].
      * destruct open1 as [|x open1]; [discriminate|].
        injection H as <-. apply (Keep (x :: above)). rewrite E. reflexivity.
      * injection H as <-. apply (Keep above E).
Qed.

Lemma skip_scan_brackets rest :
  forall start level extra open stop level',
    level = Py.len extra ->
    Interp.skip_scan rest start level = (stop, level') ->
    start <= stop <= start + Py.len rest
    /\ (stop < start + Py.len rest -> level' = 0)
    /\ exists extra',
        level' = Py.len extra'
        /\ open_brackets (firstn (Z.to_nat (stop - start)) rest) start
                         (extra ++ open)
           = Some (extra' ++ open).
Proof.
  induction rest as [|c rest IH];
    intros start level extra open stop level' Hl H; cbn [Interp.skip_scan] in H.
  - injection H as <- <-. rewrite (@len_nil ascii), Z.sub_diag.
    split; [lia|]. split; [lia|]. exists extra. split; [exact Hl|reflexivity].
  - rewrite len_cons. pose proof (len_nonneg rest) as Hr.
    pose proof (len_nonneg extra) as He.
    destruct (Z.gtb_spec level 0) as [Hpos|Hle].
    + cbv zeta in H.
      destruct extra as [|x extra];
        [rewrite (@len_nil Z) in Hl; lia|]. rewrite len_cons in Hl.
      assert (Hone : exists extra1,
                 (if Ascii.eqb c "["%char then level + 1
                  else if Ascii.eqb c "]"%char then level - 1 else level)
                 = Py.len extra1
                 /\ open_brackets [c] start ((x :: extra) ++ open)
                    = Some (extra1 ++ open)).
      { cbn [open_brackets app].
        destruct (Ascii.eqb c "["%char).
        - exists (start :: x :: extra). rewrite !len_cons.
          split; [lia|reflexivity].
        - destruct (Ascii.eqb c "]"%char).
          + exists extra. split; [lia|reflexivity].
          + exists (x :: extra). rewrite len_cons.
            split; [lia|reflexivity]. }
      destruct Hone as (extra1 & Hl1 & Hone).
      destruct (IH (start + 1) _ extra1 open stop level' Hl1 H)
        as (Hb & Hz & extra' & Hl' & Ho).
      split; [lia|]. split; [intros; apply Hz; lia|].
      exists extra'. split; [exact Hl'|].
      replace (Z.to_nat (stop - start))
        with (S (Z.to_nat (stop - (start + 1)))) by lia.
      change (firstn (S ?n) (c :: rest)) with ([c] ++ firstn n rest).
      rewrite open_brackets_app, Hone. exact Ho.
    + injection H as <- <-. rewrite Z.sub_diag. cbn [Z.to_nat firstn].
      split; [lia|]. split; [lia|].
      exists extra. split; [exact Hl|reflexivity].
Qed.

Ltac crunch :=
  repeat match goal with
    | |- context [Py.getitem ?a ?b] => primitive (Py.getitem a b)
    | |- context [Py.setitem ?a ?b ?c] => primitive (Py.setitem a b c)
    | |- context [Py.int2byte ?a] => primitive (Py.int2byte a)
    end.

Lemma dispatch_plain source debug cmd s s' :
  cmd <> "["%char -> cmd <> "]"%char ->
  Interp.dispatch source debug cmd s = Ok s' ->
  Interp.source_cursor s' = Interp.source_cursor s
  /\ Interp.source_brackets s' = Interp.source_brackets s.
Proof.
  intros Ho Hc. unfold Interp.dispatch. case_cmd;
    repeat match goal with
      | E : Ascii.eqb cmd _ = true |- _ => apply Ascii.eqb_eq in E
      end; try congruence.
  - cbn. destruct (_ >=? _); intros H; injection H as <-; split; reflexivity.
  - cbn. destruct (_ <? _); intros H; [discriminate H|].
    injection H as <-; split; reflexivity.
  - crunch; intros H; try discriminate H.
    injection H as <-; split; reflexivity.
  - crunch; intros H; try discriminate H.
    injection H as <-; split; reflexivity.
  - crunch; intros H; try discriminate H.
    injection H as <-; split; reflexivity.
  - destruct (Interp.process_input s); crunch; intros H;
      try discriminate H; injection H as <-; split; reflexivity.
  - destruct debug; intros H; injection H as <-; split; reflexivity.
  - intros H; injection H as <-; split; reflexivity.
Qed.

Lemma len_skipn {A : Type} (l : list A) n :
  (n <= List.length l)%nat -> Py.len (skipn n l) = Py.len l - Z.of_nat n.
Proof.
  intros H. unfold Py.len. rewrite length_skipn. lia.
Qed.

Lemma len_zero_nil {A : Type} (l : list A) : 0 = Py.len l -> l = [].
Proof.
  destruct l; [reflexivity|]. rewrite len_cons.
  pose proof (len_nonneg l). lia.
Qed.

Lemma step_stack_matches source debug s s' :
  stack_matches source s ->
  Interp.source_cursor s < Py.len source ->
  Interp.step source debug s = Ok s' ->
  stack_matches source s'.
Proof.
  intros (Hb & Hopen) Hlt Hstep.
  destruct (getitem_in_bounds source (Interp.source_cursor s))
    as (cmd & Hnth & Hget); [lia|].
  unfold Interp.step in Hstep. rewrite Hget in Hstep. cbn [bind] in Hstep.
  destruct (Interp.dispatch source debug cmd s) as [t| |] eqn:D;
    cbn [bind] in Hstep; try discriminate.
  injection Hstep as <-.
  set (n := Z.to_nat (Interp.source_cursor s)) in *.
  assert (Hn : (n < List.length source)%nat)
    by (unfold Py.len in Hlt; lia).
  assert (Hip : Interp.source_cursor s = Z.of_nat n) by lia.
  pose proof (firstn_succ_nth _ _ _ Hnth) as Hfirst.
  assert (Hlen : Py.len (firstn n source) = Interp.source_cursor s)
    by (rewrite len_firstn; lia).
  unfold stack_matches. simpl_state.
  destruct (Ascii.eqb_spec cmd "["%char) as [->|Hno].
  - unfold Interp.dispatch in D. cbn [Ascii.eqb Bool.eqb andb] in D.
    revert D.
    primitive (Py.getitem (Interp.array s) (Interp.cursor s));
      [|intros D; discriminate D].
    destruct (_ >? 0).
    + intros D. injection D as <-. simpl_state.
      replace (Z.to_nat (Interp.source_cursor s + 1)) with (S n) by lia.
      split; [lia|].
      rewrite Hfirst, open_brackets_app, Hopen. cbn [open_brackets].
      cbn [Ascii.eqb Bool.eqb andb]. rewrite Hlen, Z.add_0_l. reflexivity.
    + destruct (Interp.skip_scan _ _ _) as [stop level'] eqn:Hscan.
      destruct (Z.geb_spec stop (Py.len source)); intros D;
        [discriminate D|].
      injection D as <-. simpl_state.
      destruct (skip_scan_brackets _ _ _ [Interp.source_cursor s]
                  (Interp.source_brackets s) _ _ eq_refl Hscan)
        as (Hstop & Hzero & extra' & Hl' & Hrest).
      replace (Z.to_nat (Interp.source_cursor s + 1)) with (S n) in *
        by lia.
      rewrite len_skipn in Hstop, Hzero by lia.
      rewrite Hzero in Hl' by lia.
      apply len_zero_nil in Hl'. subst extra'.
      split; [lia|].
      replace (Z.to_nat (stop - 1 + 1))
        with (S n + Z.to_nat (stop - (Interp.source_cursor s + 1)))%nat
        by lia.
      rewrite firstn_add, Hfirst, !open_brackets_app, Hopen.
      cbn [open_brackets Ascii.eqb Bool.eqb andb].
      rewrite Hlen, Z.add_0_l, len_snoc, Hlen.
      exact Hrest.
  - destruct (Ascii.eqb_spec cmd "]"%char) as [->|Hnc].
    + unfold Interp.dispatch in D. cbn [Ascii.eqb Bool.eqb andb] in D.
      destruct (Interp.source_brackets s) as [|top below] eqn:Hst;
        [discriminate D|].
      injection D as <-. simpl_state.
      destruct (open_brackets_stack _ _ Hopen [] top below eq_refl)
        as (Htop & _ & Hbelow).
      rewrite Hlen in Htop.
      rewrite firstn_firstn in Hbelow.
      replace (Nat.min (Z.to_nat top) n) with (Z.to_nat top) in Hbelow
        by lia.
      replace (top - 1 + 1) with top by lia.
      split; [lia|exact Hbelow].
    + destruct (dispatch_plain _ _ _ _ _ Hno Hnc D) as (-> & ->).
      replace (Z.to_nat (Interp.source_cursor s + 1)) with (S n) by lia.
      split; [lia|].
      rewrite Hfirst, open_brackets_app, Hopen. cbn [open_brackets].
      destruct (Ascii.eqb_spec cmd "["%char); [contradiction|].
      destruct (Ascii.eqb_spec cmd "]"%char); [contradiction|].
      reflexivity.
Qed.

Lemma stack_matches_initial source input :
  stack_matches source (Interp.initial input).
Proof.
  unfold stack_matches. cbn. split; [|reflexivity].
  pose proof (len_nonneg source). lia.
Qed.

Lemma reachable_stack_matches source debug input s :
  Interp.reachable source debug input s -> stack_matches source s.
Proof.
  induction 1 as [|s s' _ IH Hlt Hstep].
  - apply stack_matches_initial.
  - eapply step_stack_matches; eassumption.
Qed.

(** ** Where the interpreter exits *)

Lemma dispatch_exit source debug cmd s k :
  Interp.dispatch source debug cmd s = Exit k ->
  (k = CursorUnderflow /\ cmd = "<"%char)
  \/ (k = UnbalancedMissingClose /\ cmd = "["%char)
  \/ (k = UnbalancedMissingOpen /\ cmd = "]"%char
      /\ Interp.source_brackets s = []).
Proof.
  unfold Interp.dispatch. case_cmd;
    repeat match goal with
      | E : Ascii.eqb cmd _ = true |- _ => apply Ascii.eqb_eq in E; subst cmd
      end.
  - cbn. destruct (_ >=? _); intros H; discriminate H.
  - cbn. destruct (_ <? _); intros H; [|discriminate H].
    injection H as <-. left. split; reflexivity.
  - crunch; intros H; discriminate H.
  - crunch; intros H; discriminate H.
  - crunch; intros H; discriminate H.
  - destruct (Interp.process_input s); crunch; intros H; discriminate H.
  - crunch; [|intros H; discriminate H].
    destruct (_ >? 0); [intros H; discriminate H|].
    destruct (Interp.skip_scan _ _ _) as [stop level'].
    destruct (_ >=? _); intros H; [|discriminate H].
    injection H as <-. right. left. split; reflexivity.
  - destruct (Interp.source_brackets s); intros H; [|discriminate H].
    injection H as <-. right. right. repeat split.
  - destruct debug; intros H; discriminate H.
  - intros H; discriminate H.
Qed.

Lemma loop_exit_step fuel :
  forall source debug input s k,
    Interp.reachable source debug input s ->
    Interp.loop fuel source debug s = Some (Exit k) ->
    exists s',
      Interp.reachable source debug input s'
      /\ Interp.source_cursor s' < Py.len source
      /\ Interp.step source debug s' = Exit k.
Proof.
  induction fuel as [|fuel IH]; intros source debug input s k R H;
    cbn [Interp.loop] in H;
    destruct (Z.ltb_spec (Interp.source_cursor s) (Py.len source));
    try discriminate.
  destruct (Interp.step source debug s) as [s1|k1|e] eqn:Hstep.
  - apply (IH source debug input s1 k); [|exact H].
    eapply Interp.reach_step; eassumption.
  - injection H as <-. exists s. auto.
  - discriminate.
Qed.

Lemma source_split (source : list ascii) n c :
  nth_error source n = Some c ->
  source = firstn n source ++ c :: skipn (S n) source.
Proof.
  intros H. rewrite <- (firstn_skipn (S n) source) at 1.
  rewrite (firstn_succ_nth _ _ _ H), <- app_assoc. reflexivity.
Qed.

Lemma missing_open_agrees raw fuel input debug debug' size :
  Interp.execute fuel raw input debug = Some (Exit UnbalancedMissingOpen) ->
  Translator.compile raw debug' size = Exit UnbalancedMissingOpen.
Proof.
  unfold Interp.execute. intros H.
  destruct (loop_exit_step _ _ _ input _ _ (Interp.reach_initial _ _ _) H)
    as (s & R & Hlt & Hstep).
  destruct (reachable_stack_matches _ _ _ _ R) as (Hb & Hopen).
  destruct (getitem_in_bounds (Lexer.strip_comments raw)
              (Interp.source_cursor s)) as (cmd & Hnth & Hget); [lia|].
  unfold Interp.step in Hstep. rewrite Hget in Hstep. cbn [bind] in Hstep.
  destruct (Interp.dispatch _ debug cmd s) as [t|k|e] eqn:D;
    cbn [bind] in Hstep; try discriminate.
  injection Hstep as ->.
  destruct (dispatch_exit _ _ _ _ _ D)
    as [(Hk & _)|[(Hk & _)|(_ & -> & Hst)]]; try discriminate Hk.
  pose proof (compile_verdict raw debug' size) as V.
  rewrite (source_split _ _ _ Hnth), open_brackets_app, Hopen, Hst in V.
  exact V.
Qed.

Lemma missing_close_agrees raw input debug s debug' size :
  Interp.reachable (Lexer.strip_comments raw) debug input s ->
  scan_runs_off (Lexer.strip_comments raw) s ->
  Interp.step (Lexer.strip_comments raw) debug s = Exit UnbalancedMissingClose
  /\ Translator.compile raw debug' size = Exit UnbalancedMissingClose.
Proof.
  set (source := Lexer.strip_comments raw).
  intros R (Hcmd & Hcell & Hoff).
  destruct (reachable_stack_matches _ _ _ _ R) as (Hb & Hopen).
  assert (Hlt : Interp.source_cursor s < Py.len source).
  { destruct (Z.ltb_spec (Interp.source_cursor s) (Py.len source)) as [|Hge];
      [assumption|exfalso].
    unfold Py.getitem, Py.position in Hcmd.
    destruct (Z.leb_spec 0 (Interp.source_cursor s)); [|lia].
    destruct (Z.ltb_spec (Interp.source_cursor s) (Py.len source)); [lia|].
    destruct (Z.leb_spec (- Py.len source) (Interp.source_cursor s));
      destruct (Z.ltb_spec (Interp.source_cursor s) 0); try lia;
      discriminate Hcmd. }
  destruct (getitem_in_bounds source (Interp.source_cursor s))
    as (cmd & Hnth & Hget); [lia|].
  rewrite Hget in Hcmd. injection Hcmd as ->.
  set (n := Z.to_nat (Interp.source_cursor s)) in *.
  assert (Hn : (n < List.length source)%nat)
    by (unfold Py.len in Hlt; lia).
  assert (Hlen : Py.len (firstn n source) = Interp.source_cursor s)
    by (rewrite len_firstn; lia).
  replace (Z.to_nat (Interp.source_cursor s + 1)) with (S n) in Hoff by lia.
  destruct (Interp.skip_scan (skipn (S n) source)
              (Interp.source_cursor s + 1) 1) as [stop level'] eqn:Hscan.
  cbn [snd] in Hoff.
  destruct (skip_scan_brackets _ _ _ [Interp.source_cursor s]
              (Interp.source_brackets s) _ _ eq_refl Hscan)
    as (Hstop & Hzero & extra' & Hl' & Hrest).
  rewrite len_skipn in Hstop, Hzero by lia.
  assert (Hend : stop = Py.len source).
  { destruct (Z.ltb_spec stop (Py.len source)) as [Hearly|]; [|lia].
    rewrite Hzero in Hoff by lia. lia. }
  split.
  - unfold Interp.step. rewrite Hget. cbn [bind].
    unfold Interp.dispatch. cbn [Ascii.eqb Bool.eqb andb].
    rewrite Hcell. cbn [bind]. change (0 >? 0) with false. cbv iota.
    replace (Z.to_nat (Interp.source_cursor s + 1)) with (S n) by lia.
    rewrite Hscan.
    destruct (Z.geb_spec stop (Py.len source)); [reflexivity|lia].
  - pose proof (compile_verdict raw debug' size) as V. fold source in V.
    rewrite (source_split _ _ _ Hnth), open_brackets_app, Hopen in V.
    cbn [open_brackets Ascii.eqb Bool.eqb andb] in V.
    rewrite Hlen, Z.add_0_l in V.
    replace (Z.to_nat (stop - (Interp.source_cursor s + 1)))
      with (List.length (skipn (S n) source)) in Hrest
      by (rewrite length_skipn; unfold Py.len in Hend; lia).
    rewrite firstn_all in Hrest. cbn [app] in Hrest. rewrite Hrest in V.
    destruct extra' as [|x extra'];
      [rewrite (@len_nil Z) in Hl'; lia|exact V].
Qed.

(** ** Matching brackets at the end of the source *)

(** C1: the scan started on the [[] of [[]] does find the []]: it leaves the
    loop with the counter at 0, one past the []], which is the end of the
    source; [execute] then takes the exit for a missing []], although the
    brackets are balanced and the compiler accepts the same program.  With
    one more character after the []] the same scan succeeds. *)
Theorem final_close_rejected :
  Interp.skip_scan (skipn 1 (chars "[]")) 1 1 = (2, 0)
  /\ balanced (chars "[]")
  /\ Interp.execute 10 (chars "[]") [] false
     = Some (Exit UnbalancedMissingClose)
  /\ emitted (Translator.compile (chars "[]") false 65636)
     = Some [Translator.Header 65636; Translator.While;
             Translator.Close; Translator.Return]
  /\ Interp.execute 10 (chars "[] ") [] false
     = Some (Ok (Interp.mkState 3 [] [0] 0 [] [])).
Proof.
  split; [reflexivity|]. split; [apply balanced_iff; reflexivity|].
  repeat split; vm_compute; reflexivity.
Qed.

(** ** Unbalanced brackets in both engines *)

(** C4, as stated, fails: the interpreter checks a bracket only when it gets
    to it.  In [+[] with nothing after, the [[] is entered on a non-zero cell
    and never looked at again: [execute] returns normally, while the compiler
    exits for the missing []]. *)
Lemma lazy_bracket_check :
  Interp.execute 10 (chars "+[") [] false
  = Some (Ok (Interp.mkState 2 [1] [1] 0 [] []))
  /\ Translator.compile (chars "+[") false 65636
     = Exit UnbalancedMissingClose
  /\ leaves_open (Lexer.strip_comments (chars "+[")).
Proof.
  split; [vm_compute; reflexivity|]. split; [vm_compute; reflexivity|].
  apply leaves_open_iff. exists 1, []. reflexivity.
Qed.

(** C4, amended.  The compiler exits for a missing [[] exactly when some []]
    of the filtered source has no open [[] before it, otherwise for a missing
    []] exactly when some [[] is left open, and it accepts exactly the
    balanced texts.  The interpreter checks brackets only where it gets to: a
    []] dispatched on an empty stack exits for a missing [[]; whenever a run
    exits for a missing [[], the compiler exits for a missing [[] too; and
    whenever a scan for a matching []] reaches the end of the source with
    its counter above 0, the run exits for a missing []] and so does the
    compiler. *)
Theorem bracket_verdicts raw :
  (forall debug size,
      (Translator.compile raw debug size = Exit UnbalancedMissingOpen
       <-> closes_unopened (Lexer.strip_comments raw))
      /\ (Translator.compile raw debug size = Exit UnbalancedMissingClose
          <-> leaves_open (Lexer.strip_comments raw))
      /\ ((exists c, Translator.compile raw debug size = Ok c)
          <-> balanced (Lexer.strip_comments raw)))
  /\ (forall source debug s,
         Interp.source_brackets s = [] ->
         Interp.dispatch source debug "]"%char s = Exit UnbalancedMissingOpen)
  /\ (forall fuel input debug debug' size,
         Interp.execute fuel raw input debug
         = Some (Exit UnbalancedMissingOpen) ->
         Translator.compile raw debug' size = Exit UnbalancedMissingOpen)
  /\ (forall input debug s debug' size,
         Interp.reachable (Lexer.strip_comments raw) debug input s ->
         scan_runs_off (Lexer.strip_comments raw) s ->
         Interp.step (Lexer.strip_comments raw) debug s
         = Exit UnbalancedMissingClose
         /\ Translator.compile raw debug' size = Exit UnbalancedMissingClose).
Proof.
  split; [|split; [|split]].
  - intros debug size.
    pose proof (compile_verdict raw debug size) as V.
    rewrite closes_unopened_iff, leaves_open_iff, balanced_iff.
    destruct (open_brackets (Lexer.strip_comments raw) 0 [])
      as [[|top below]|].
    + destruct V as (c & V). rewrite V. repeat split;
        try discriminate; eauto.
      intros (? & ? & ?); discriminate.
    + rewrite V. repeat split; try discriminate; eauto.
      intros (? & ?); discriminate.
    + rewrite V. repeat split; try discriminate.
      * intros (? & ? & ?); discriminate.
      * intros (? & ?); discriminate.
  - intros source debug s H. unfold Interp.dispatch.
    cbn [Ascii.eqb Bool.eqb andb]. rewrite H. reflexivity.
  - intros. eapply missing_open_agrees; eassumption.
  - intros. eapply missing_close_agrees; eassumption.
Qed.

Lemma bracket_verdicts_witness :
  Translator.compile (chars "-]") true 9 = Exit UnbalancedMissingOpen
  /\ Interp.step (Lexer.strip_comments (chars "[[]")) false (Interp.initial [])
     = Exit UnbalancedMissingClose
  /\ Translator.compile (chars "[[]") true 9 = Exit UnbalancedMissingClose.
Proof.
  split.
  - apply (proj1 (proj2 (proj2 (bracket_verdicts (chars "-]"))))
             2%nat [] false true 9).
    reflexivity.
  - apply (proj2 (proj2 (proj2 (bracket_verdicts (chars "[[]"))))
             [] false (Interp.initial []) true 9).
    + apply Interp.reach_initial.
    + unfold scan_runs_off. repeat split.
Defined.

(** ** The two engines on small programs *)

Example outputs_three :
  interp_output (Interp.execute 10 (chars "+++.") [] false)
  = Some ["003"%byte]
  /\ host_output (compile_and_run 10 (chars "+++.") 65636 true [])
     = Some ["003"%byte].
Proof. split; vm_compute; reflexivity. Qed.

Example echoes_a_byte :
  interp_output (Interp.execute 10 (chars ",.") ["A"%byte] false)
  = Some ["A"%byte]
  /\ host_output (compile_and_run 10 (chars ",.") 65636 true ["A"%byte])
     = Some ["A"%byte].
Proof. split; vm_compute; reflexivity. Qed.

Example moves_a_cell :
  interp_output (Interp.execute 100 (chars ",[->+<]>.") ["005"%byte] false)
  = Some ["005"%byte]
  /\ host_output
       (compile_and_run 100 (chars ",[->+<]>.") 65636 true ["005"%byte])
     = Some ["005"%byte].
Proof. split; vm_compute; reflexivity. Qed.

Example multiplies :
  interp_output (Interp.execute 100 (chars "++[>++<-]>.") [] false)
  = Some ["004"%byte]
  /\ host_output (compile_and_run 100 (chars "++[>++<-]>.") 65636 true [])
     = Some ["004"%byte].
Proof. split; vm_compute; reflexivity. Qed.

Example lone_close :
  Interp.execute 10 (chars "]") [] false = Some (Exit UnbalancedMissingOpen)
  /\ Translator.compile (chars "]") false 65636 = Exit UnbalancedMissingOpen.
Proof. split; vm_compute; reflexivity. Qed.

Example lone_open :
  Interp.execute 10 (chars "[") [] false = Some (Exit UnbalancedMissingClose)
  /\ Translator.compile (chars "[") false 65636 = Exit UnbalancedMissingClose.
Proof. split; vm_compute; reflexivity. Qed.

Example end_of_input_in_both :
  interp_cell (Interp.execute 10 (chars ",") [] false) = Some 255
  /\ host_cell (compile_and_run 10 (chars ",") 65636 false []) = Some 255.
Proof. split; vm_compute; reflexivity. Qed.

Example comment_is_skipped :
  emitted (Translator.compile
             (chars "+# [ not code" ++ Lexer.newline :: chars "+.") false 4)
  = Some [Translator.Header 4; Translator.CellAdd 2; Translator.Putchar;
          Translator.Return]
  /\ interp_output
       (Interp.execute 10
          (chars "+# [ not code" ++ Lexer.newline :: chars "+.") [] false)
     = Some ["002"%byte].
Proof. split; vm_compute; reflexivity. Qed.

Example written_text :
  emitted_text (Translator.compile (chars "<-.") true 8)
  = Some (Translator.render (Translator.Header 8)
          ++ "ptr += -1;" ++ Translator.nl
          ++ "assert(ptr >= array && ptr < array + 8);" ++ Translator.nl
          ++ "*ptr += -1;" ++ Translator.nl
          ++ "putchar(" ++ "*ptr);" ++ Translator.nl
          ++ "return 0;" ++ Translator.nl ++ "}" ++ Translator.nl)%string.
Proof. vm_compute. reflexivity. Qed.

(** * Further properties of the interpreter *)

(** X1: every cell of the tape stays in [range(256)] throughout a run, so
    that the [int2byte] of the output instruction is always given a value it
    accepts. *)
Theorem cells_stay_bytes source debug input s :
  Interp.reachable source debug input s ->
  Forall (fun v => 0 <= v < 256) (Interp.array s)
  /\ exists v b,
      Py.getitem (Interp.array s) (Interp.cursor s) = Ok v
      /\ Py.int2byte v = Ok b
      /\ Py.ord b = v.
Proof.
  intros R. destruct (reachable_well_formed _ _ _ _ R) as (Hc & Hcells & _).
  split; [exact Hcells|].
  destruct (getitem_in_bounds _ _ Hc) as (v & Hnth & Hget).
  assert (Hv : 0 <= v < 256).
  { rewrite Forall_forall in Hcells. apply Hcells.
    eapply nth_error_In; eassumption. }
  destruct (int2byte_in_range v Hv) as (b & Hb & Hord).
  exists v, b. auto.
Qed.

Lemma cells_stay_bytes_witness :
  let s := Interp.mkState 1 [] [255] 0 [] [] in
  Forall (fun v => 0 <= v < 256) (Interp.array s)
  /\ exists v b,
      Py.getitem (Interp.array s) (Interp.cursor s) = Ok v
      /\ Py.int2byte v = Ok b
      /\ Py.ord b = v.
Proof.
  apply (cells_stay_bytes (chars "-.") false []).
  eapply Interp.reach_step;
    [ apply Interp.reach_initial | reflexivity | reflexivity ].
Defined.

(** X2: at the head of the interpreter's loop, [source_brackets] holds the
    positions of exactly the brackets that are open in the source before
    [source_cursor], innermost first; so its length is the nesting depth
    there, and no []] before [source_cursor] was left without its [[]. *)
Theorem stack_is_open_brackets source debug input s :
  Interp.reachable source debug input s ->
  let before := firstn (Z.to_nat (Interp.source_cursor s)) source in
  open_brackets before 0 [] = Some (Interp.source_brackets s)
  /\ Py.len (Interp.source_brackets s) = depth before
  /\ (forall pre rest, before = pre ++ rest -> 0 <= depth pre)
  /\ Forall (fun p => 0 <= p < Interp.source_cursor s
                      /\ nth_error source (Z.to_nat p) = Some "["%char)
            (Interp.source_brackets s).
Proof.
  intros R before.
  destruct (reachable_stack_matches _ _ _ _ R) as (Hb & Hopen).
  fold before in Hopen.
  destruct (open_brackets_some _ _ _ _ Hopen) as (Hl & Hp).
  rewrite (@len_nil Z) in Hl, Hp.
  split; [exact Hopen|]. split; [lia|]. split.
  - intros pre rest E. specialize (Hp pre rest E). lia.
  - apply Forall_forall. intros p Hin.
    apply in_split in Hin as (above & below & E).
    destruct (open_brackets_stack _ _ Hopen above p below E)
      as (Hrange & Hnth & _).
    assert (Hn : (Z.to_nat (Interp.source_cursor s) <= List.length source)%nat)
      by (unfold Py.len in Hb; lia).
    unfold before in Hrange, Hnth. rewrite len_firstn in Hrange by exact Hn.
    split; [lia|].
    rewrite nth_error_firstn in Hnth.
    destruct (Nat.ltb_spec (Z.to_nat p) (Z.to_nat (Interp.source_cursor s)));
      [exact Hnth|discriminate].
Qed.

Lemma stack_is_open_brackets_witness :
  let s := Interp.mkState 4 [2; 1] [0] 0 [] [] in
  let before := firstn (Z.to_nat (Interp.source_cursor s)) (chars "+[[-]]") in
  open_brackets before 0 [] = Some (Interp.source_brackets s)
  /\ Py.len (Interp.source_brackets s) = depth before
  /\ (forall pre rest, before = pre ++ rest -> 0 <= depth pre)
  /\ Forall (fun p => 0 <= p < Interp.source_cursor s
                      /\ nth_error (chars "+[[-]]") (Z.to_nat p)
                         = Some "["%char)
            (Interp.source_brackets s).
Proof.
  apply (stack_is_open_brackets (chars "+[[-]]") false []).
  eapply Interp.reach_step with (s := Interp.mkState 3 [2; 1] [1] 0 [] []);
    [ eapply Interp.reach_step with (s := Interp.mkState 2 [1] [1] 0 [] []);
      [ eapply Interp.reach_step with (s := Interp.mkState 1 [] [1] 0 [] []);
        [ eapply Interp.reach_step;
          [ apply Interp.reach_initial | reflexivity | reflexivity ]
        | reflexivity | reflexivity ]
      | reflexivity | reflexivity ]
    | reflexivity | ].
  vm_compute. reflexivity.
Defined.

Lemma step_dispatch source debug s s' :
  Interp.source_cursor s < Py.len source ->
  0 <= Interp.source_cursor s ->
  Interp.step source debug s = Ok s' ->
  exists cmd t,
    nth_error source (Z.to_nat (Interp.source_cursor s)) = Some cmd
    /\ Interp.dispatch source debug cmd s = Ok t
    /\ s' = Interp.set_source_cursor t (Interp.source_cursor t + 1).
Proof.
  intros Hlt Hge Hstep.
  destruct (getitem_in_bounds source (Interp.source_cursor s))
    as (cmd & Hnth & Hget); [lia|].
  unfold Interp.step in Hstep. rewrite Hget in Hstep. cbn [bind] in Hstep.
  destruct (Interp.dispatch source debug cmd s) as [t| |] eqn:D;
    cbn [bind] in Hstep; try discriminate.
  injection Hstep as <-. exists cmd, t. auto.
Qed.

(** X3: a step of the interpreter changes at most the cell under the
    cursor; the tape never shrinks and grows by at most one cell, and a cell
    that is added holds 0 and is the one the cursor has just moved to. *)
Theorem step_touches_one_cell source debug cmd s t :
  0 <= Interp.cursor s < Py.len (Interp.array s) ->
  Interp.dispatch source debug cmd s = Ok t ->
  (forall n, n <> Z.to_nat (Interp.cursor s) ->
             (n < List.length (Interp.array s))%nat ->
             nth_error (Interp.array t) n = nth_error (Interp.array s) n)
  /\ (List.length (Interp.array t) = List.length (Interp.array s)
      \/ (cmd = ">"%char
          /\ Interp.array t = Interp.array s ++ [0]
          /\ Interp.cursor t = Py.len (Interp.array s))).
Proof.
  intros Hc. unfold Interp.dispatch. case_cmd;
    repeat match goal with
      | E : Ascii.eqb cmd _ = true |- _ => apply Ascii.eqb_eq in E; subst cmd
      end.
  - simpl_state. destruct (Z.geb_spec (Interp.cursor s + 1)
                                      (Py.len (Interp.array s)));
      intros Hd; injection Hd as <-; simpl_state.
    + split; [|right; repeat split; lia].
      intros n _ Hn. apply nth_error_app1. exact Hn.
    + split; [reflexivity|left; reflexivity].
  - simpl_state. destruct (_ <? _); intros Hd; [discriminate Hd|].
    injection Hd as <-. split; [reflexivity|left; reflexivity].
  - crunch; try (intros Hd; discriminate Hd).
    rewrite setitem_in_bounds in * by exact Hc.
    match goal with E : Ok _ = Ok _ |- _ => injection E as <- end.
    intros Hd; injection Hd as <-. simpl_state. split.
    + intros n Hn _. apply nth_error_update_neq. exact Hn.
    + left. apply update_length.
  - crunch; try (intros Hd; discriminate Hd).
    rewrite setitem_in_bounds in * by exact Hc.
    match goal with E : Ok _ = Ok _ |- _ => injection E as <- end.
    intros Hd; injection Hd as <-. simpl_state. split.
    + intros n Hn _. apply nth_error_update_neq. exact Hn.
    + left. apply update_length.
  - crunch; try (intros Hd; discriminate Hd).
    intros Hd; injection Hd as <-. split; [reflexivity|left; reflexivity].
  - destruct (Interp.process_input s); simpl_state;
      rewrite setitem_in_bounds by exact Hc; cbn [bind];
      intros Hd; injection Hd as <-; simpl_state; (split;
        [intros n Hn _; apply nth_error_update_neq; exact Hn
        |left; apply update_length]).
  - crunch; try (intros Hd; discriminate Hd).
    destruct (_ >? 0).
    + intros Hd; injection Hd as <-. split; [reflexivity|left; reflexivity].
    + destruct (Interp.skip_scan _ _ _) as [stop level'].
      destruct (_ >=? _); intros Hd; [discriminate Hd|].
      injection Hd as <-. split; [reflexivity|left; reflexivity].
  - destruct (Interp.source_brackets s); intros Hd; [discriminate Hd|].
    injection Hd as <-. split; [reflexivity|left; reflexivity].
  - destruct debug; intros Hd; injection Hd as <-;
      (split; [reflexivity|left; reflexivity]).
  - intros Hd; injection Hd as <-. split; [reflexivity|left; reflexivity].
Qed.

Lemma step_touches_one_cell_witness :
  Interp.array (Interp.mkState 0 [] [7; 0] 1 [] [])
  = Interp.array (Interp.mkState 0 [] [7] 0 [] []) ++ [0].
Proof.
  destruct (step_touches_one_cell
              (chars ">") false ">"%char
              (Interp.mkState 0 [] [7] 0 [] [])
              (Interp.mkState 0 [] [7; 0] 1 [] []))
    as (_ & [Hlen | (_ & Harr & _)]).
  - vm_compute. split; [discriminate|reflexivity].
  - reflexivity.
  - discriminate Hlen.
  - exact Harr.
Defined.

(** X4: the interpreter reads its input in order and only on [,], one byte
    at a time, and writes its output only on [.], one byte at a time and
    after what it has written before; the byte written is the cell under the
    cursor. *)
Theorem step_streams source debug cmd s t :
  Interp.dispatch source debug cmd s = Ok t ->
  (if Ascii.eqb cmd ","%char
   then Interp.process_input t = tl (Interp.process_input s)
   else Interp.process_input t = Interp.process_input s)
  /\ (if Ascii.eqb cmd "."%char
      then exists b,
          Interp.process_output t = Interp.process_output s ++ [b]
          /\ Py.getitem (Interp.array s) (Interp.cursor s) = Ok (Py.ord b)
      else Interp.process_output t = Interp.process_output s).
Proof.
  unfold Interp.dispatch. case_cmd;
    repeat match goal with
      | E : Ascii.eqb cmd _ = true |- _ => apply Ascii.eqb_eq in E; subst cmd
      end;
    try (exfalso;
         match goal with
         | E : Ascii.eqb _ _ = true |- _ => cbn in E; discriminate E
         end).
  - simpl_state. destruct (_ >=? _); intros Hd; injection Hd as <-;
      split; reflexivity.
  - simpl_state. destruct (_ <? _); intros Hd; [discriminate Hd|].
    injection Hd as <-. split; reflexivity.
  - crunch; try (intros Hd; discriminate Hd).
    intros Hd; injection Hd as <-. split; reflexivity.
  - crunch; try (intros Hd; discriminate Hd).
    intros Hd; injection Hd as <-. split; reflexivity.
  - primitive (Py.getitem (Interp.array s) (Interp.cursor s));
      [|intros Hd; discriminate Hd].
    match goal with |- context [Py.int2byte ?v] =>
      destruct (Py.int2byte v) as [b| |] eqn:Hb end; cbn [bind];
      intros Hd; try discriminate Hd.
    injection Hd as <-. simpl_state. split; [reflexivity|].
    exists b. split; [reflexivity|].
    unfold Py.int2byte in Hb.
    destruct (_ && _) eqn:Hr; [|discriminate Hb].
    destruct (Byte.of_N _) as [b'|] eqn:Hof; [|discriminate Hb].
    injection Hb as ->. apply Byte.to_of_N in Hof.
    apply andb_true_iff in Hr as (Hr & _). apply Z.leb_le in Hr.
    unfold Py.ord. rewrite Hof. f_equal. lia.
  - destruct (Interp.process_input s) eqn:Hin; simpl_state; crunch;
      intros Hd; try discriminate Hd; injection Hd as <-; simpl_state;
      rewrite ?Hin; split; reflexivity.
  - crunch; try (intros Hd; discriminate Hd).
    destruct (_ >? 0).
    + intros Hd; injection Hd as <-. split; reflexivity.
    + destruct (Interp.skip_scan _ _ _) as [stop level'].
      destruct (_ >=? _); intros Hd; [discriminate Hd|].
      injection Hd as <-. split; reflexivity.
  - destruct (Interp.source_brackets s); intros Hd; [discriminate Hd|].
    injection Hd as <-. split; reflexivity.
  - destruct debug; intros Hd; injection Hd as <-; split; reflexivity.
  - intros Hd; injection Hd as <-. split; reflexivity.
Qed.

Lemma step_streams_witness :
  exists b,
    [b] = [] ++ [b]
    /\ Py.getitem [65] 0 = Ok (Py.ord b).
Proof.
  destruct (step_streams (chars ".") false "."%char
              (Interp.mkState 0 [] [65] 0 [] [])
              (Interp.mkState 0 [] [65] 0 [] ["A"%byte]) eq_refl)
    as (_ & b & Hout & Hcell).
  cbn in Hout. injection Hout as <-.
  exists "A"%byte. split; [reflexivity|exact Hcell].
Defined.

Lemma getitem_ok {A : Type} (l : list A) i c :
  0 <= i ->
  Py.getitem l i = Ok c ->
  i < Py.len l /\ nth_error l (Z.to_nat i) = Some c.
Proof.
  intros Hi H. unfold Py.getitem, Py.position in H.
  destruct (Z.leb_spec 0 i); [|lia].
  destruct (Z.ltb_spec i (Py.len l)); cbn [andb] in H.
  - cbn [bind] in H. destruct (nth_error l (Z.to_nat i)); [|discriminate H].
    injection H as ->. split; [assumption|reflexivity].
  - destruct (Z.ltb_spec i 0); [lia|].
    rewrite andb_false_r in H. discriminate H.
Qed.

(** X5: a loop with an empty body, [[]], that is entered on a non-zero cell
    is never left: [execute] pushes the bracket, pops it, and is back in the
    state it started from, whatever the number of iterations allowed. *)
Theorem empty_loop_never_ends source debug s v :
  0 <= Interp.source_cursor s ->
  Py.getitem source (Interp.source_cursor s) = Ok "["%char ->
  Py.getitem source (Interp.source_cursor s + 1) = Ok "]"%char ->
  Py.getitem (Interp.array s) (Interp.cursor s) = Ok v ->
  0 < v ->
  forall fuel, Interp.loop fuel source debug s = None.
Proof.
  intros Hge Hopen Hclose Hcell Hv.
  destruct (getitem_ok _ _ _ Hge Hopen) as (Hlt & _).
  destruct (getitem_ok source (Interp.source_cursor s + 1) _
              ltac:(lia) Hclose) as (Hlt1 & _).
  set (s1 := Interp.set_source_cursor
               (Interp.set_source_brackets
                  s (Interp.source_cursor s :: Interp.source_brackets s))
               (Interp.source_cursor s + 1)).
  assert (Hstep : Interp.step source debug s = Ok s1).
  { unfold Interp.step. rewrite Hopen. cbn [bind].
    unfold Interp.dispatch. cbn [Ascii.eqb Bool.eqb andb].
    rewrite Hcell. cbn [bind].
    destruct (Z.gtb_spec v 0); [reflexivity|lia]. }
  assert (Hstep1 : Interp.step source debug s1 = Ok s).
  { unfold Interp.step, s1. simpl_state. rewrite Hclose. cbn [bind].
    unfold Interp.dispatch. cbn [Ascii.eqb Bool.eqb andb]. simpl_state.
    destruct s. simpl_state. do 2 f_equal. lia. }
  assert (Hboth : forall fuel,
             Interp.loop fuel source debug s = None
             /\ Interp.loop fuel source debug s1 = None).
  { induction fuel as [|fuel (IH & IH1)].
    - split; cbn [Interp.loop].
      + destruct (Z.ltb_spec (Interp.source_cursor s) (Py.len source));
          [reflexivity|lia].
      + unfold s1 at 1. simpl_state.
        destruct (Z.ltb_spec (Interp.source_cursor s + 1) (Py.len source));
          [reflexivity|lia].
    - split.
      + rewrite loop_more, Hstep by exact Hlt. exact IH1.
      + rewrite loop_more, Hstep1 by (unfold s1; simpl_state; exact Hlt1).
        exact IH. }
  intros fuel. apply Hboth.
Qed.

Lemma empty_loop_never_ends_witness :
  Interp.loop 1000 (chars "+[]") false (Interp.mkState 1 [] [1] 0 [] [])
  = None.
Proof.
  apply (empty_loop_never_ends
           (chars "+[]") false (Interp.mkState 1 [] [1] 0 [] []) 1);
    try reflexivity.
  discriminate.
Defined.

Lemma open_brackets_inner text :
  forall open',
    open_brackets text 0 [] = Some open' ->
    forall above top below,
      open' = above ++ top :: below ->
      open_brackets (skipn (S (Z.to_nat top)) text) (top + 1) []
      = Some above.
Proof.
  induction text as [|c l IH] using rev_ind; intros open' H above top below E.
  - cbn in H. injection H as <-. destruct above; discriminate.
  - rewrite open_brackets_app in H.
    destruct (open_brackets l 0 []) as [open1|] eqn:H1; [|discriminate].
    assert (Keep : forall above1, open1 = above1 ++ top :: below ->
              open_brackets (skipn (S (Z.to_nat top)) (l ++ [c])) (top + 1) []
              = open_brackets [c] (Py.len l) above1).
    { intros above1 E1.
      destruct (open_brackets_stack _ _ H1 above1 top below E1)
        as (Hb & _ & _).
      assert (Hlt : (S (Z.to_nat top) <= List.length l)%nat)
        by (unfold Py.len in Hb; lia).
      rewrite skipn_app.
      replace (S (Z.to_nat top) - List.length l)%nat with 0%nat by lia.
      change (skipn 0 [c]) with [c]. rewrite open_brackets_app.
      rewrite (IH open1 eq_refl above1 top below E1).
      rewrite len_skipn by exact Hlt. f_equal. unfold Py.len. lia. }
    cbn [open_brackets] in H.
    destruct (Ascii.eqb_spec c "["%char) as [->|Hno].
    + injection H as <-. destruct above as [|a above].
      * cbn in E. injection E as <- <-.
        unfold Py.len. rewrite Nat2Z.id.
        rewrite skipn_all2; [reflexivity|]. rewrite length_app. cbn. lia.
      * cbn in E. injection E as <- E. rewrite (Keep above E).
        reflexivity.
    + destruct (Ascii.eqb_spec c "]"%char) as [->|Hnc].
      * destruct open1 as [|x open1]; [discriminate|].
        injection H as <-. rewrite (Keep (x :: above)); [reflexivity|].
        rewrite E. reflexivity.
      * injection H as <-. rewrite (Keep above E). cbn [open_brackets].
        destruct (Ascii.eqb_spec c "["%char); [contradiction|].
        destruct (Ascii.eqb_spec c "]"%char); [contradiction|].
        reflexivity.
Qed.

Lemma balanced_of_open_brackets text pos :
  open_brackets text pos [] = Some [] -> balanced text.
Proof.
  intros H. destruct (open_brackets_some _ _ _ _ H) as (Hl & Hp).
  rewrite (@len_nil Z) in Hl, Hp. split; [|lia].
  intros pre rest E. specialize (Hp pre rest E). lia.
Qed.

(** X6: when the interpreter gets to a []] with a bracket on its stack, it
    goes back to the position it pops, and that position is the [[] the []]
    matches: it holds a [[], and the text between the two is balanced.  The
    tape and the cursor are left alone. *)
Theorem loop_end_returns_to_match source debug input s s' :
  Interp.reachable source debug input s ->
  Interp.source_cursor s < Py.len source ->
  nth_error source (Z.to_nat (Interp.source_cursor s)) = Some "]"%char ->
  Interp.step source debug s = Ok s' ->
  Interp.source_brackets s
  = Interp.source_cursor s' :: Interp.source_brackets s'
  /\ 0 <= Interp.source_cursor s' < Interp.source_cursor s
  /\ nth_error source (Z.to_nat (Interp.source_cursor s')) = Some "["%char
  /\ balanced (segment source (Interp.source_cursor s' + 1)
                       (Interp.source_cursor s))
  /\ Interp.array s' = Interp.array s
  /\ Interp.cursor s' = Interp.cursor s.
Proof.
  intros R Hlt Hnth Hstep.
  destruct (reachable_stack_matches _ _ _ _ R) as (Hb & Hopen).
  unfold Interp.step in Hstep.
  rewrite (getitem_nth _ _ _ (proj1 Hb) Hnth) in Hstep. cbn [bind] in Hstep.
  unfold Interp.dispatch in Hstep. cbn [Ascii.eqb Bool.eqb andb] in Hstep.
  destruct (Interp.source_brackets s) as [|top below] eqn:Hst;
    [discriminate Hstep|].
  cbn [bind] in Hstep. injection Hstep as <-. simpl_state.
  replace (top - 1 + 1) with top by lia.
  destruct (open_brackets_stack _ _ Hopen [] top below eq_refl)
    as (Htop & Htopc & _).
  pose proof (open_brackets_inner _ _ Hopen [] top below eq_refl) as Hin.
  assert (Hn : (Z.to_nat (Interp.source_cursor s) <= List.length source)%nat)
    by (unfold Py.len in Hlt; lia).
  rewrite len_firstn in Htop by exact Hn.
  rewrite nth_error_firstn in Htopc.
  destruct (Nat.ltb_spec (Z.to_nat top) (Z.to_nat (Interp.source_cursor s)));
    [|discriminate Htopc].
  rewrite skipn_firstn_comm in Hin.
  repeat split; try lia; try assumption.
  - destruct (balanced_of_open_brackets _ _ Hin) as (Hp & Hd).
    unfold segment.
    replace (Z.to_nat (Interp.source_cursor s - (top + 1)))
      with (Z.to_nat (Interp.source_cursor s) - S (Z.to_nat top))%nat by lia.
    replace (Z.to_nat (top + 1)) with (S (Z.to_nat top)) by lia.
    exact Hp.
  - destruct (balanced_of_open_brackets _ _ Hin) as (Hp & Hd).
    unfold segment.
    replace (Z.to_nat (Interp.source_cursor s - (top + 1)))
      with (Z.to_nat (Interp.source_cursor s) - S (Z.to_nat top))%nat by lia.
    replace (Z.to_nat (top + 1)) with (S (Z.to_nat top)) by lia.
    exact Hd.
Qed.

Lemma loop_end_returns_to_match_witness :
  let s := Interp.mkState 3 [1] [0] 0 [] [] in
  let s' := Interp.mkState 1 [] [0] 0 [] [] in
  Interp.source_brackets s
  = Interp.source_cursor s' :: Interp.source_brackets s'
  /\ 0 <= Interp.source_cursor s' < Interp.source_cursor s
  /\ nth_error (chars "+[-] ") (Z.to_nat (Interp.source_cursor s'))
     = Some "["%char
  /\ balanced (segment (chars "+[-] ") (Interp.source_cursor s' + 1)
                       (Interp.source_cursor s))
  /\ Interp.array s' = Interp.array s
  /\ Interp.cursor s' = Interp.cursor s.
Proof.
  apply (loop_end_returns_to_match (chars "+[-] ") false []);
    try reflexivity.
  eapply Interp.reach_step with (s := Interp.mkState 2 [1] [1] 0 [] []);
    [ eapply Interp.reach_step with (s := Interp.mkState 1 [] [1] 0 [] []);
      [ eapply Interp.reach_step;
        [ apply Interp.reach_initial | reflexivity | reflexivity ]
      | reflexivity | reflexivity ]
    | reflexivity | reflexivity ].
Defined.

Lemma skip_scan_matching rest :
  forall start level stop,
    0 < level ->
    Interp.skip_scan rest start level = (stop, 0) ->
    exists seg tail,
      rest = seg ++ "]"%char :: tail
      /\ stop = start + Py.len seg + 1
      /\ level - 1 + depth seg = 0
      /\ forall pre post, seg = pre ++ post -> 0 <= level - 1 + depth pre.
Proof.
  induction rest as [|c rest IH]; intros start level stop Hpos H;
    cbn [Interp.skip_scan] in H.
  - injection H as _ H. lia.
  - destruct (Z.gtb_spec level 0); [|lia]. cbv zeta in H.
    assert (Hnil : 0 <= level - 1 + depth []) by (rewrite depth_nil; lia).
    destruct (Ascii.eqb_spec c "["%char) as [->|Hno].
    + destruct (IH (start + 1) (level + 1) stop ltac:(lia) H)
        as (seg & tail & -> & -> & Hd & Hp).
      exists ("["%char :: seg), tail. rewrite len_cons, depth_open.
      repeat split; try lia.
      intros [|x pre] post E; [exact Hnil|].
      cbn in E. injection E as <- E. rewrite depth_open.
      specialize (Hp pre post E). lia.
    + destruct (Ascii.eqb_spec c "]"%char) as [->|Hnc].
      * destruct (Z.eq_dec (level - 1) 0) as [Hz|Hnz].
        -- rewrite Hz in H.
           assert (stop = start + 1) as ->
               by (destruct rest; cbn in H; injection H as <-; reflexivity).
           exists [], rest. rewrite (@len_nil ascii), depth_nil.
           repeat split; try lia.
           intros pre post E. symmetry in E.
           apply app_eq_nil in E as [-> _]. exact Hnil.
        -- destruct (IH (start + 1) (level - 1) stop ltac:(lia) H)
             as (seg & tail & -> & -> & Hd & Hp).
           exists ("]"%char :: seg), tail. rewrite len_cons, depth_close.
           repeat split; try lia.
           intros [|x pre] post E; [exact Hnil|].
           cbn in E. injection E as <- E. rewrite depth_close.
           specialize (Hp pre post E). lia.
      * destruct (IH _ _ _ Hpos H) as (seg & tail & -> & -> & Hd & Hp).
        exists (c :: seg), tail. rewrite len_cons, depth_other by assumption.
        repeat split; try lia.
        intros [|x pre] post E; [exact Hnil|].
        cbn in E. injection E as <- E. rewrite depth_other by assumption.
        exact (Hp pre post E).
Qed.

(** X7: when the interpreter gets to a [[] on a zero cell and the step
    succeeds, it continues right after the []] that matches the [[]: the
    character before the new position is a []], the text between the two
    brackets is balanced, and nothing but the source position has changed. *)
Theorem skip_lands_after_match source debug s s' :
  0 <= Interp.source_cursor s ->
  Py.getitem source (Interp.source_cursor s) = Ok "["%char ->
  Py.getitem (Interp.array s) (Interp.cursor s) = Ok 0 ->
  Interp.step source debug s = Ok s' ->
  Interp.source_cursor s + 2 <= Interp.source_cursor s' < Py.len source
  /\ nth_error source (Z.to_nat (Interp.source_cursor s' - 1))
     = Some "]"%char
  /\ balanced (segment source (Interp.source_cursor s + 1)
                       (Interp.source_cursor s' - 1))
  /\ s' = Interp.set_source_cursor s (Interp.source_cursor s').
Proof.
  intros Hge Hcmd Hcell Hstep.
  destruct (getitem_ok _ _ _ Hge Hcmd) as (Hlt & _).
  unfold Interp.step in Hstep. rewrite Hcmd in Hstep. cbn [bind] in Hstep.
  unfold Interp.dispatch in Hstep. cbn [Ascii.eqb Bool.eqb andb] in Hstep.
  rewrite Hcell in Hstep. cbn [bind] in Hstep.
  change (0 >? 0) with false in Hstep. cbv iota in Hstep.
  set (n := Z.to_nat (Interp.source_cursor s)) in *.
  replace (Z.to_nat (Interp.source_cursor s + 1)) with (S n) in Hstep by lia.
  assert (Hn : (S n <= List.length source)%nat)
    by (unfold Py.len in Hlt; lia).
  destruct (Interp.skip_scan (skipn (S n) source)
              (Interp.source_cursor s + 1) 1) as [stop level'] eqn:Hscan.
  destruct (Z.geb_spec stop (Py.len source)); [discriminate Hstep|].
  cbn [bind] in Hstep. injection Hstep as <-. simpl_state.
  replace (stop - 1 + 1) with stop by lia.
  destruct (skip_scan_brackets _ _ _ [Interp.source_cursor s] [] _ _
              eq_refl Hscan) as (Hstop & Hzero & _).
  rewrite len_skipn in Hstop, Hzero by exact Hn.
  rewrite Hzero in Hscan by lia.
  destruct (skip_scan_matching (skipn (S n) source)
              (Interp.source_cursor s + 1) 1 stop ltac:(lia) Hscan)
    as (seg & tail & Hrest & -> & Hd & Hp).
  pose proof (len_nonneg seg) as Hseg.
  split; [lia|]. split; [|split].
  - replace (Z.to_nat (Interp.source_cursor s + 1 + Py.len seg + 1 - 1))
      with (S n + List.length seg)%nat by (unfold Py.len; lia).
    rewrite <- nth_error_skipn, Hrest, nth_error_app2, Nat.sub_diag by lia.
    reflexivity.
  - unfold segment.
    replace (Z.to_nat (Interp.source_cursor s + 1)) with (S n) by lia.
    replace (Z.to_nat (Interp.source_cursor s + 1 + Py.len seg + 1 - 1
                       - (Interp.source_cursor s + 1)))
      with (List.length seg) by (unfold Py.len; lia).
    rewrite Hrest, firstn_app, Nat.sub_diag, firstn_all. cbn [firstn].
    rewrite app_nil_r. split; [|lia].
    intros pre post E. specialize (Hp pre post E). lia.
  - destruct s. reflexivity.
Qed.

Lemma skip_lands_after_match_witness :
  let s := Interp.initial [] in
  let s' := Interp.mkState 5 [] [0] 0 [] [] in
  Interp.source_cursor s + 2 <= Interp.source_cursor s'
  < Py.len (chars "[[-]]+")
  /\ nth_error (chars "[[-]]+") (Z.to_nat (Interp.source_cursor s' - 1))
     = Some "]"%char
  /\ balanced (segment (chars "[[-]]+") (Interp.source_cursor s + 1)
                       (Interp.source_cursor s' - 1))
  /\ s' = Interp.set_source_cursor s (Interp.source_cursor s').
Proof.
  apply (skip_lands_after_match (chars "[[-]]+") false);
    first [reflexivity | discriminate].
Defined.

(** * Further properties of the compiler *)

Lemma set_comment_idem c b b' :
  Translator.set_comment (Translator.set_comment c b) b'
  = Translator.set_comment c b'.
Proof. reflexivity. Qed.

Lemma set_comment_same c :
  Translator.set_comment c (Translator.comment c) = c.
Proof. destruct c. reflexivity. Qed.

Lemma agree_but_comment_refl r : agree_but_comment r r.
Proof. destruct r; cbn; reflexivity. Qed.

Lemma parse_keeps_out_of_comment c ch c' :
  Translator.comment c = false ->
  ch <> "#"%char ->
  Translator.parse c ch = Ok c' ->
  Translator.comment c' = false.
Proof.
  intros Hcom Hh Hp.
  destruct (Ascii.eqb_spec ch "["%char) as [->|Ho].
  - destruct (parse_open c Hcom) as (c1 & H1 & _ & Hc1). congruence.
  - destruct (Ascii.eqb_spec ch "]"%char) as [->|Hc].
    + pose proof (parse_close c Hcom) as H1.
      destruct (Translator.level c <? 1); [congruence|].
      destruct H1 as (c1 & H1 & _ & Hc1). congruence.
    + destruct (parse_other c ch Hcom Hh Ho Hc) as (c1 & H1 & _ & Hc1).
      congruence.
Qed.

Lemma parse_all_strip raw :
  forall c,
    agree_but_comment
      (Translator.parse_all c raw)
      (Translator.parse_all
         (Translator.set_comment c false)
         (Lexer.sub_comments (Translator.comment c) raw)).
Proof.
  induction raw as [|ch raw IH]; intros c.
  - destruct (Translator.comment c); cbn; reflexivity.
  - cbn [Translator.parse_all Lexer.sub_comments].
    destruct (Translator.comment c) eqn:Hcom.
    + rewrite parse_in_comment by exact Hcom. cbn [bind].
      destruct (Ascii.eqb ch Lexer.newline).
      * apply (IH (Translator.set_comment c false)).
      * specialize (IH c). rewrite Hcom in IH. exact IH.
    + assert (Hsame : Translator.set_comment c false = c)
        by (rewrite <- Hcom; apply set_comment_same).
      destruct (Ascii.eqb_spec ch Lexer.hash) as [->|Hh].
      * rewrite parse_hash by exact Hcom. cbn [bind].
        apply (IH (Translator.set_comment c true)).
      * cbn [Translator.parse_all]. rewrite Hsame.
        destruct (Translator.parse c ch) as [c1|k|e] eqn:Hp; cbn [bind];
          try reflexivity.
        pose proof (parse_keeps_out_of_comment _ _ _ Hcom Hh Hp) as Hc1.
        specialize (IH c1). rewrite Hc1 in IH.
        rewrite <- Hc1, set_comment_same in IH at 1. exact IH.
Qed.




Lemma checked_moves_app debug size a b :
  checked_moves debug size a = true ->
  checked_moves debug size b = true ->
  checked_moves debug size (a ++ b) = true.
Proof.
  intros Ha Hb.
  assert (Hn : forall n a', (List.length a' <= n)%nat ->
               checked_moves debug size a' = true ->
               checked_moves debug size (a' ++ b) = true).
  { clear a Ha. induction n as [|n IH]; intros [|x a] Hlen Ha;
      try exact Hb; cbn [List.length] in Hlen; try lia.
    destruct x; cbn [checked_moves app] in *;
      try (apply IH; [lia|exact Ha]); try discriminate Ha.
    destruct debug.
    - destruct a as [|y a]; [discriminate Ha|].
      destruct y; try discriminate Ha. cbn [app].
      apply andb_true_iff in Ha as (Hs & Ha). rewrite Hs. cbn [andb].
      apply IH; [cbn [List.length] in Hlen; lia|exact Ha].
    - apply IH; [lia|exact Ha]. }
  apply (Hn (List.length a) a (Nat.le_refl _) Ha).
Qed.

Lemma brace_depth_app a b :
  forall d,
    brace_depth (a ++ b) d
    = match brace_depth a d with
      | Some d' => brace_depth b d'
      | None => None
      end.
Proof.
  induction a as [|x a IH]; intros d; [reflexivity|].
  destruct x; cbn [brace_depth app]; try apply IH.
  destruct (d <? 1); [reflexivity|apply IH].
Qed.

Lemma brace_depth_nonneg out :
  forall d d', 0 <= d -> brace_depth out d = Some d' -> 0 <= d'.
Proof.
  induction out as [|x out IH]; intros d d' Hd H.
  - cbn in H. injection H as <-. exact Hd.
  - destruct x; cbn [brace_depth] in H;
      try (apply (IH _ _ Hd H)).
    + apply (IH (d + 1) d'); [lia|exact H].
    + destruct (Z.ltb_spec d 1); [discriminate H|].
      apply (IH (d - 1) d'); [lia|exact H].
Qed.

Lemma quiet_refl c : quiet_extension c c [].
Proof.
  unfold quiet_extension. rewrite app_nil_r. repeat split.
Qed.

Lemma quiet_trans c1 c2 c3 blk1 blk2 :
  quiet_extension c1 c2 blk1 ->
  quiet_extension c2 c3 blk2 ->
  quiet_extension c1 c3 (blk1 ++ blk2).
Proof.
  intros (Ho1 & Hd1 & Hs1 & Hl1 & Hc1 & Hb1)
         (Ho2 & Hd2 & Hs2 & Hl2 & Hc2 & Hb2).
  unfold quiet_extension. rewrite Ho2, Ho1, app_assoc.
  repeat split; try congruence.
  - apply checked_moves_app; [exact Hc1|]. rewrite <- Hd1, <- Hs1. exact Hc2.
  - intros d. rewrite brace_depth_app, Hb1. apply Hb2.
Qed.

Lemma quiet_write_move c :
  quiet_extension c (Translator.write_move c) (pending_move_text c)
  /\ Translator.comment (Translator.write_move c) = Translator.comment c.
Proof.
  unfold Translator.write_move, pending_move_text, quiet_extension.
  destruct (Translator.move c =? 0); cbn [negb].
  - rewrite app_nil_r. repeat split.
  - unfold Translator.set_move, Translator.write.
    cbn [Translator.debug Translator.size Translator.comment
         Translator.level Translator.move Translator.incr
         Translator.source_output].
    destruct (Translator.debug c);
      cbn [Translator.debug Translator.size Translator.comment
           Translator.level Translator.move Translator.incr
           Translator.source_output checked_moves brace_depth];
      rewrite <- ?app_assoc, ?Z.eqb_refl; repeat split.
Qed.

Lemma quiet_write_incr c :
  quiet_extension c (Translator.write_incr c) (pending_incr_text c)
  /\ Translator.comment (Translator.write_incr c) = Translator.comment c.
Proof.
  unfold Translator.write_incr, pending_incr_text, quiet_extension.
  destruct (Translator.incr c =? 0); cbn [negb].
  - rewrite app_nil_r. repeat split.
  - repeat split.
Qed.

Lemma quiet_flush c :
  exists blk,
    quiet_extension c (Translator.write_incr (Translator.write_move c)) blk.
Proof.
  eexists. eapply quiet_trans.
  - apply quiet_write_move.
  - apply quiet_write_incr.
Qed.

Lemma parse_appends c ch c' :
  Translator.parse c ch = Ok c' ->
  exists blk,
    Translator.source_output c' = Translator.source_output c ++ blk
    /\ Translator.debug c' = Translator.debug c
    /\ Translator.size c' = Translator.size c
    /\ checked_moves (Translator.debug c) (Translator.size c) blk = true
    /\ brace_depth blk (Translator.level c) = Some (Translator.level c').
Proof.
  assert (Quiet : forall q blk,
             quiet_extension c q blk ->
             exists blk',
               Translator.source_output q = Translator.source_output c ++ blk'
               /\ Translator.debug q = Translator.debug c
               /\ Translator.size q = Translator.size c
               /\ checked_moves (Translator.debug c) (Translator.size c) blk'
                  = true
               /\ brace_depth blk' (Translator.level c)
                  = Some (Translator.level q)).
  { intros q blk (Ho & Hd & Hs & Hl & Hc & Hb). exists blk.
    rewrite Hb, Hl. auto. }
  assert (Event : forall q blk x d,
             quiet_extension c q blk ->
             checked_moves (Translator.debug c) (Translator.size c) [x]
             = true ->
             brace_depth [x] (Translator.level c) = Some d ->
             exists blk',
               Translator.source_output q ++ [x]
               = Translator.source_output c ++ blk'
               /\ Translator.debug q = Translator.debug c
               /\ Translator.size q = Translator.size c
               /\ checked_moves (Translator.debug c) (Translator.size c) blk'
                  = true
               /\ brace_depth blk' (Translator.level c) = Some d).
  { intros q blk x d (Ho & Hd & Hs & Hl & Hc & Hb) Hx Hbx.
    exists (blk ++ [x]). rewrite Ho, app_assoc.
    repeat split; try assumption.
    - apply checked_moves_app; assumption.
    - rewrite brace_depth_app, Hb. exact Hbx. }
  unfold Translator.parse.
  destruct (Ascii.eqb ch Lexer.newline);
    [intros H; injection H as <-; apply (Quiet _ [] (quiet_refl c))|].
  destruct (Translator.comment c); cbn [negb];
    [intros H; injection H as <-; apply (Quiet _ [] (quiet_refl c))|].
  destruct (quiet_flush c) as (blk & Hflush).
  pose proof (proj1 (quiet_write_move c)) as Hmove.
  pose proof (proj1 (quiet_write_incr c)) as Hincr.
  assert (Set_move : forall q blk0 v,
             quiet_extension c q blk0 ->
             quiet_extension c (Translator.set_move q v) blk0)
    by (intros q blk0 v Hq; exact Hq).
  assert (Set_incr : forall q blk0 v,
             quiet_extension c q blk0 ->
             quiet_extension c (Translator.set_incr q v) blk0)
    by (intros q blk0 v Hq; exact Hq).
  case_cmd; intros H.
  - injection H as <-. apply (Quiet _ []). unfold quiet_extension.
    rewrite app_nil_r. repeat split.
  - injection H as <-. apply (Quiet _ _ (Set_move _ _ _ Hincr)).
  - injection H as <-. apply (Quiet _ _ (Set_move _ _ _ Hincr)).
  - injection H as <-. apply (Quiet _ _ (Set_incr _ _ _ Hmove)).
  - injection H as <-. apply (Quiet _ _ (Set_incr _ _ _ Hmove)).
  - injection H as <-.
    cbn [Translator.write Translator.source_output
         Translator.debug Translator.size Translator.level].
    destruct Hflush as (Ho & Hd & Hs & Hl & Hc & Hb).
    rewrite Hl.
    apply (Event _ blk _ _ (conj Ho (conj Hd (conj Hs (conj Hl
                               (conj Hc Hb)))))); reflexivity.
  - injection H as <-.
    cbn [Translator.write Translator.source_output
         Translator.debug Translator.size Translator.level].
    destruct Hflush as (Ho & Hd & Hs & Hl & Hc & Hb).
    rewrite Hl.
    apply (Event _ blk _ _ (conj Ho (conj Hd (conj Hs (conj Hl
                               (conj Hc Hb)))))); reflexivity.
  - injection H as <-.
    cbn [Translator.write Translator.set_level Translator.source_output
         Translator.debug Translator.size Translator.level].
    destruct Hflush as (Ho & Hd & Hs & Hl & Hc & Hb).
    rewrite Hl.
    apply (Event _ blk _ _ (conj Ho (conj Hd (conj Hs (conj Hl
                               (conj Hc Hb)))))); reflexivity.
  - destruct (Translator.level c <? 1) eqn:Hlv; [discriminate H|].
    injection H as <-.
    cbn [Translator.write Translator.set_level Translator.source_output
         Translator.debug Translator.size Translator.level].
    destruct Hflush as (Ho & Hd & Hs & Hl & Hc & Hb).
    rewrite Hl.
    apply (Event _ blk _ _ (conj Ho (conj Hd (conj Hs (conj Hl
                               (conj Hc Hb)))))); [reflexivity|].
    cbn [brace_depth]. rewrite Hlv. reflexivity.
  - injection H as <-. apply (Quiet _ [] (quiet_refl c)).
Qed.

Lemma parse_all_appends text :
  forall c c',
    Translator.parse_all c text = Ok c' ->
    checked_moves (Translator.debug c) (Translator.size c)
                  (Translator.source_output c) = true ->
    brace_depth (Translator.source_output c) 0 = Some (Translator.level c) ->
    checked_moves (Translator.debug c) (Translator.size c)
                  (Translator.source_output c') = true
    /\ brace_depth (Translator.source_output c') 0
       = Some (Translator.level c')
    /\ Translator.debug c' = Translator.debug c
    /\ Translator.size c' = Translator.size c.
Proof.
  induction text as [|ch text IH]; intros c c' H Hck Hbr;
    cbn [Translator.parse_all] in H.
  - injection H as <-. auto.
  - destruct (Translator.parse c ch) as [c1| |] eqn:Hp; cbn [bind] in H;
      try discriminate H.
    destruct (parse_appends _ _ _ Hp) as (blk & Ho & Hd & Hs & Hck1 & Hbr1).
    destruct (IH c1 c' H) as (Hck' & Hbr' & Hd' & Hs').
    + rewrite Hd, Hs, Ho. apply checked_moves_app; assumption.
    + rewrite Ho, brace_depth_app, Hbr. exact Hbr1.
    + rewrite Hd, Hs in Hck'. repeat split; congruence.
Qed.

Lemma blocks_of_depth text :
  forall cur outer,
    brace_depth text (Py.len outer) = Some 0 ->
    exists p, Host.blocks text cur outer = Some p.
Proof.
  induction text as [|x text IH]; intros cur outer H.
  - cbn in H. injection H as H. destruct outer as [|o outer].
    + cbn. eauto.
    + rewrite len_cons in H. pose proof (len_nonneg outer). lia.
  - destruct x; cbn [brace_depth Host.blocks] in *; try (apply IH; exact H).
    + apply IH. rewrite len_cons. rewrite Z.add_comm. exact H.
    + destruct outer as [|o outer].
      * rewrite (@len_nil (list Host.instr)) in H. cbn in H. discriminate H.
      * rewrite len_cons in H. pose proof (len_nonneg outer).
        destruct (Z.ltb_spec (1 + Py.len outer) 1); [lia|].
        apply IH. rewrite <- H. f_equal. lia.
Qed.

Lemma compile_appends text debug size c :
  Translator.compile text debug size = Ok c ->
  checked_moves debug size (Translator.source_output c) = true
  /\ brace_depth (Translator.source_output c) 0 = Some 0.
Proof.
  unfold Translator.compile. intros H.
  destruct (Translator.parse_all _ text) as [c1| |] eqn:Hp; cbn [bind] in H;
    try discriminate H.
  destruct (parse_all_appends _ _ _ Hp eq_refl eq_refl)
    as (Hck & Hbr & Hd & Hs).
  cbn [Translator.debug Translator.size Translator.start Translator.init
       Translator.write] in Hck, Hd, Hs.
  unfold Translator.finish in H.
  destruct (Z.gtb_spec (Translator.level c1) 0); [discriminate H|].
  injection H as <-. cbn [Translator.write Translator.source_output].
  pose proof (brace_depth_nonneg _ _ _ (Z.le_refl 0) Hbr).
  split.
  - apply checked_moves_app; [exact Hck|reflexivity].
  - rewrite brace_depth_app, Hbr. cbn. f_equal. lia.
Qed.

(** X10: in the program a successful [compile] has written, every [}] closes
    a [while] opened before it and every [while] is closed: the statements
    group into properly nested blocks. *)
Theorem emitted_loops_nest text debug size c :
  Translator.compile text debug size = Ok c ->
  brace_depth (Translator.source_output c) 0 = Some 0
  /\ exists p, Host.blocks (Translator.source_output c) [] [] = Some p.
Proof.
  intros H. destruct (compile_appends _ _ _ _ H) as (_ & Hbr).
  split; [exact Hbr|]. apply blocks_of_depth. exact Hbr.
Qed.

Lemma emitted_loops_nest_witness :
  exists p,
    Host.blocks
      [Translator.Header 4; Translator.CellAdd 1; Translator.While;
       Translator.While; Translator.CellAdd (-1); Translator.Close;
       Translator.Close; Translator.Return] [] []
    = Some p.
Proof.
  exact (proj2 (emitted_loops_nest
                  (chars "+[[-]]") false 4
                  (Translator.mkCompiler
                     false 4 false 0 0 0
                     [Translator.Header 4; Translator.CellAdd 1;
                      Translator.While; Translator.While;
                      Translator.CellAdd (-1); Translator.Close;
                      Translator.Close; Translator.Return])
                  eq_refl)).
Defined.

(** X11: in debug mode every pointer move a successful [compile] has written
    is directly followed by the assertion that the pointer is inside the
    array of the configured size; without debug mode the program holds no
    assertion at all. *)
Theorem moves_are_checked text debug size c :
  Translator.compile text debug size = Ok c ->
  checked_moves debug size (Translator.source_output c) = true.
Proof.
  intros H. apply (compile_appends _ _ _ _ H).
Qed.

Lemma moves_are_checked_witness :
  checked_moves true 4
    [Translator.Header 4; Translator.PtrAdd 2; Translator.Assert 4;
     Translator.CellAdd 1; Translator.PtrAdd (-1); Translator.Assert 4;
     Translator.Putchar; Translator.Return]
  = true.
Proof.
  exact (moves_are_checked
           (chars ">>+<.") true 4
           (Translator.mkCompiler
              true 4 false 0 0 0
              [Translator.Header 4; Translator.PtrAdd 2; Translator.Assert 4;
               Translator.CellAdd 1; Translator.PtrAdd (-1);
               Translator.Assert 4; Translator.Putchar; Translator.Return])
           eq_refl).
Defined.

Lemma parse_all_moves run :
  forall c,
    only_moves run ->
    Translator.comment c = false ->
    Translator.incr c = 0 ->
    Translator.parse_all c run
    = Ok (Translator.set_move c (final_position (Translator.move c) run)).
Proof.
  induction run as [|ch run IH]; intros c Hrun Hcom Hincr.
  - cbn. destruct c; reflexivity.
  - inversion Hrun as [|c' run' Hc Hrun']; subst.
    cbn [Translator.parse_all].
    destruct Hc as [-> | ->]; unfold Translator.parse;
      cbn [Ascii.eqb Bool.eqb andb Lexer.newline]; rewrite Hcom; cbn [negb];
      unfold Translator.write_incr; rewrite Hincr; cbn [Z.eqb negb bind];
      rewrite IH by (trivial; destruct c; assumption);
      unfold Translator.set_move, final_position;
      cbn [Translator.debug Translator.size Translator.comment
           Translator.level Translator.move Translator.incr
           Translator.source_output fold_left move_delta
           Ascii.eqb Bool.eqb andb];
      reflexivity.
Qed.

(** X12: a text of moves, in any order, is accumulated by the compiler into
    its net displacement [d] and written at the next flush as the single
    statement [ptr += d;] (followed by the assertion in debug mode), or as
    nothing when [d] is 0; that statement takes the pointer of the emitted
    program [d] cells further, which is where the interpreter's cursor is
    after the same moves on a fresh tape. *)
Theorem move_run_is_one_pointer_move run :
  only_moves run ->
  (forall c,
      Translator.comment c = false ->
      Translator.move c = 0 ->
      Translator.incr c = 0 ->
      exists c',
        Translator.parse_all c run = Ok c'
        /\ Translator.move c' = final_position 0 run
        /\ Translator.source_output c' = Translator.source_output c
        /\ Translator.source_output (Translator.write_move c')
           = Translator.source_output c
             ++ (if final_position 0 run =? 0 then []
                 else Translator.PtrAdd (final_position 0 run)
                      :: (if Translator.debug c
                          then [Translator.Assert (Translator.size c)]
                          else [])))
  /\ (forall m,
         exists m',
           Host.exec (Translator.PtrAdd (final_position 0 run)) m
           = Host.Running m'
           /\ Host.ptr m' = Host.ptr m + final_position 0 run
           /\ Host.array m' = Host.array m)
  /\ (Forall (fun q => 0 <= q) (positions 0 run) ->
      forall input debug,
        interp_cursor (Interp.execute (List.length run) run input debug)
        = Some (final_position 0 run)).
Proof.
  intros Hrun. split; [|split].
  - intros c Hcom Hmove Hincr.
    rewrite parse_all_moves by assumption. rewrite Hmove.
    eexists. split; [reflexivity|].
    unfold Translator.write_move, Translator.set_move, Translator.write.
    cbn [Translator.debug Translator.size Translator.comment
         Translator.level Translator.move Translator.incr
         Translator.source_output].
    repeat split.
    destruct (final_position 0 run =? 0); cbn [negb].
    + cbn [Translator.source_output]. now rewrite app_nil_r.
    + destruct (Translator.debug c);
        cbn [Translator.source_output]; rewrite <- ?app_assoc; reflexivity.
  - intros m. eexists. cbn [Host.exec]. repeat split.
  - intros Hpos input debug. unfold Interp.execute.
    rewrite strip_comments_fixed by (apply only_moves_no_hash; exact Hrun).
    pose proof (loop_moves debug run [] [] 0 0 input [] 0%nat Hrun) as H.
    rewrite Nat.add_0_r in H. cbn [app] in H.
    unfold Interp.initial. change [0] with (zeros (0 + 1)).
    change 0 with (Py.len (@nil ascii)) at 1.
    rewrite H by (trivial; cbn; lia). reflexivity.
Qed.

Lemma move_run_is_one_pointer_move_witness :
  interp_cursor (Interp.execute 4 (chars ">>><") [] false) = Some 2.
Proof.
  assert (Hrun : only_moves (chars ">>><")).
  { repeat (constructor;
            [first [left; reflexivity | right; reflexivity]|]).
    constructor. }
  apply (proj2 (proj2 (move_run_is_one_pointer_move (chars ">>><") Hrun))).
  cbn. repeat (constructor; [lia|]). constructor.
Defined.

(** * The two engines on texts without loops *)

Lemma exec_all_app a b m :
  exec_all (a ++ b) m
  = match exec_all a m with
    | Host.Running m' => exec_all b m'
    | stop => stop
    end.
Proof.
  revert m. induction a as [|x a IH]; intros m; cbn [exec_all app].
  - reflexivity.
  - destruct (Host.exec x m); [apply IH|reflexivity|reflexivity].
Qed.

Lemma cell_at_update tape n v k :
  0 <= k ->
  (n < List.length tape)%nat ->
  cell_at (Py.update tape n v) k
  = if k =? Z.of_nat n then v else cell_at tape k.
Proof.
  intros Hk Hn. unfold cell_at.
  destruct (Z.eqb_spec k (Z.of_nat n)) as [->|Hne].
  - rewrite Nat2Z.id. apply nth_error_nth.
    apply nth_error_update_eq. exact Hn.
  - assert (Hnat : Z.to_nat k <> n) by lia.
    pose proof (nth_error_update_neq tape n (Z.to_nat k) v Hnat) as He.
    destruct (nth_error tape (Z.to_nat k)) as [w|] eqn:Hw.
    + rewrite (nth_error_nth _ _ _ He). symmetry.
      apply nth_error_nth. exact Hw.
    + apply nth_error_None in Hw. rewrite !nth_overflow;
        [reflexivity|exact Hw|rewrite update_length; exact Hw].
Qed.

Lemma cell_at_grown tape k : cell_at (tape ++ [0]) k = cell_at tape k.
Proof.
  unfold cell_at.
  destruct (Nat.lt_ge_cases (Z.to_nat k) (List.length tape)) as [Hlt|Hge].
  - apply app_nth1. exact Hlt.
  - rewrite (nth_overflow tape) by exact Hge.
    rewrite app_nth2 by exact Hge.
    destruct (Z.to_nat k - List.length tape)%nat as [|[|j]]; reflexivity.
Qed.

Lemma cell_at_nth tape k v :
  0 <= k -> nth_error tape (Z.to_nat k) = Some v -> cell_at tape k = v.
Proof.
  intros _ H. unfold cell_at. apply nth_error_nth. exact H.
Qed.

Lemma host_load_in_bounds m :
  0 <= Host.ptr m < Py.len (Host.array m) ->
  Host.load m = Some (cell_at (Host.array m) (Host.ptr m)).
Proof.
  intros H. unfold Host.load.
  destruct (Z.leb_spec 0 (Host.ptr m)); [|lia].
  destruct (Z.ltb_spec (Host.ptr m) (Py.len (Host.array m))); [|lia].
  cbn [andb].
  destruct (nth_error (Host.array m) (Z.to_nat (Host.ptr m))) as [v|] eqn:E.
  - f_equal. symmetry. apply cell_at_nth; [lia|exact E].
  - apply nth_error_None in E. unfold Py.len in H. lia.
Qed.

Lemma host_store_in_bounds m v :
  0 <= Host.ptr m < Py.len (Host.array m) ->
  Host.store m v
  = Some (Host.mkMachine
            (Py.update (Host.array m) (Z.to_nat (Host.ptr m)) (v mod 256))
            (Host.ptr m) (Host.stdin m) (Host.stdout m)).
Proof.
  intros H. unfold Host.store.
  destruct (Z.leb_spec 0 (Host.ptr m)); [|lia].
  destruct (Z.ltb_spec (Host.ptr m) (Py.len (Host.array m))); [|lia].
  reflexivity.
Qed.

Lemma sim_write_incr size s c m :
  simulates size s c m ->
  exists m',
    exec_all (pending_incr_text c) m = Host.Running m'
    /\ simulates size s (Translator.write_incr c) m'
    /\ Translator.incr (Translator.write_incr c) = 0
    /\ Translator.move (Translator.write_incr c) = Translator.move c
    /\ Translator.source_output (Translator.write_incr c)
       = Translator.source_output c ++ pending_incr_text c.
Proof.
  intros (Hout & Hin & Hptr & Hb & Hlen & Hone & Hcom & Hsz & Hbytes & Hcells).
  unfold pending_incr_text, Translator.write_incr.
  destruct (Z.eqb_spec (Translator.incr c) 0) as [Hz|Hnz]; cbn [negb].
  - exists m. rewrite app_nil_r. unfold simulates. repeat split; auto; lia.
  - assert (Hmove : Translator.move c = 0) by (destruct Hone; [assumption|lia]).
    assert (Hbm : 0 <= Host.ptr m < Py.len (Host.array m)) by lia.
    cbn [exec_all Host.exec]. rewrite (host_load_in_bounds m Hbm).
    rewrite (host_store_in_bounds m _ Hbm).
    eexists. split; [reflexivity|].
    unfold Translator.set_incr, Translator.write.
    cbn [Translator.debug Translator.size Translator.comment
         Translator.level Translator.move Translator.incr
         Translator.source_output].
    split; [|repeat split].
    unfold simulates.
    cbn [Host.array Host.ptr Host.stdin Host.stdout
         Translator.debug Translator.size Translator.comment
         Translator.level Translator.move Translator.incr
         Translator.source_output].
    rewrite len_update.
    repeat split; auto; try lia.
    + apply Forall_update; [exact Hbytes|]. apply Z.mod_pos_bound. lia.
    + intros k Hk.
      rewrite cell_at_update by (unfold Py.len in Hbm; lia).
      rewrite ?Z2Nat.id by lia.
      specialize (Hcells k Hk).
      destruct (Z.eqb_spec k (Host.ptr m)) as [Heq|Hne].
      * rewrite Z.add_0_r, Z.mod_mod by lia. rewrite <- Heq. exact Hcells.
      * exact Hcells.
Qed.

Lemma sim_write_move size s c m :
  simulates size s c m ->
  0 <= Interp.cursor s < size ->
  exists m',
    exec_all (pending_move_text c) m = Host.Running m'
    /\ simulates size s (Translator.write_move c) m'
    /\ Translator.move (Translator.write_move c) = 0
    /\ Translator.incr (Translator.write_move c) = Translator.incr c
    /\ Translator.source_output (Translator.write_move c)
       = Translator.source_output c ++ pending_move_text c.
Proof.
  intros (Hout & Hin & Hptr & Hb & Hlen & Hone & Hcom & Hsz & Hbytes & Hcells)
         Hcur.
  unfold pending_move_text, Translator.write_move.
  destruct (Z.eqb_spec (Translator.move c) 0) as [Hz|Hnz]; cbn [negb].
  - exists m. rewrite app_nil_r. unfold simulates. repeat split; auto; lia.
  - assert (Hincr : Translator.incr c = 0) by (destruct Hone; [lia|assumption]).
    unfold Translator.set_move, Translator.write.
    cbn [Translator.debug Translator.size Translator.comment
         Translator.level Translator.move Translator.incr
         Translator.source_output].
    exists (Host.mkMachine (Host.array m) (Host.ptr m + Translator.move c)
                           (Host.stdin m) (Host.stdout m)).
    assert (Hsim : simulates size s
                     (Translator.mkCompiler
                        (Translator.debug c) (Translator.size c)
                        (Translator.comment c) (Translator.level c) 0
                        (Translator.incr c)
                        (Translator.source_output c)) 
                     (Host.mkMachine
                        (Host.array m) (Host.ptr m + Translator.move c)
                        (Host.stdin m) (Host.stdout m))).
    { unfold simulates.
      cbn [Host.array Host.ptr Host.stdin Host.stdout
           Translator.debug Translator.size Translator.comment
           Translator.level Translator.move Translator.incr
           Translator.source_output].
      repeat split; auto; try lia.
      intros k Hk. specialize (Hcells k Hk). rewrite Hincr in *.
      destruct (k =? Host.ptr m + Translator.move c);
        destruct (k =? Host.ptr m); exact Hcells. }
    destruct (Translator.debug c) eqn:Hd;
      cbn [exec_all Host.exec Host.ptr Translator.source_output
           Translator.debug Translator.size Translator.comment
           Translator.level Translator.move Translator.incr].
    + rewrite Hsz.
      destruct (Z.leb_spec 0 (Host.ptr m + Translator.move c)); [|lia].
      destruct (Z.ltb_spec (Host.ptr m + Translator.move c) size); [|lia].
      cbn [andb]. rewrite <- app_assoc.
      split; [reflexivity|]. split; [|repeat split].
      destruct Hsim as (? & ? & ? & ? & ? & ? & ? & ? & ? & ?).
      unfold simulates. repeat split; auto; lia.
    + split; [reflexivity|]. split; [|repeat split].
      destruct Hsim as (? & ? & ? & ? & ? & ? & ? & ? & ? & ?).
      unfold simulates. repeat split; auto; lia.
Qed.

Ltac fields :=
  cbn [Host.array Host.ptr Host.stdin Host.stdout
       Translator.debug Translator.size Translator.comment
       Translator.level Translator.move Translator.incr
       Translator.source_output
       Interp.source_cursor Interp.source_brackets Interp.array
       Interp.cursor Interp.process_input Interp.process_output].

(** A move: the pending increment is written, the move is kept pending. *)
Lemma sim_shift size s c m d tape :
  simulates size s c m ->
  (forall k, cell_at tape k = cell_at (Interp.array s) k) ->
  exists m',
    exec_all (pending_incr_text c) m = Host.Running m'
    /\ Translator.source_output
         (Translator.set_move (Translator.write_incr c)
            (Translator.move (Translator.write_incr c) + d))
       = Translator.source_output c ++ pending_incr_text c
    /\ simulates size
         (Interp.mkState (Interp.source_cursor s) (Interp.source_brackets s)
                         tape (Interp.cursor s + d)
                         (Interp.process_input s) (Interp.process_output s))
         (Translator.set_move (Translator.write_incr c)
            (Translator.move (Translator.write_incr c) + d))
         m'.
Proof.
  intros Hsim Htape.
  destruct (sim_write_incr _ _ _ _ Hsim) as (m' & Hexec & Hsim' & Hi & Hm & Ho).
  exists m'. split; [exact Hexec|]. split; [exact Ho|].
  destruct Hsim'
    as (Hout & Hin & Hptr & Hb & Hlen & Hone & Hcom & Hsz & Hbytes & Hcells).
  unfold simulates, Translator.set_move. fields.
  repeat split; auto; try lia.
  intros k Hk. rewrite Htape. apply Hcells. exact Hk.
Qed.

(** An increment or decrement: the pending move is written, the change of
    the cell is kept pending. *)
Lemma sim_add size s c m d v :
  simulates size s c m ->
  0 <= Interp.cursor s < Py.len (Interp.array s) ->
  Py.len (Interp.array s) <= size ->
  nth_error (Interp.array s) (Z.to_nat (Interp.cursor s)) = Some v ->
  exists m',
    exec_all (pending_move_text c) m = Host.Running m'
    /\ Translator.source_output
         (Translator.set_incr (Translator.write_move c)
            (Translator.incr (Translator.write_move c) + d))
       = Translator.source_output c ++ pending_move_text c
    /\ simulates size
         (Interp.set_array
            s (Py.update (Interp.array s) (Z.to_nat (Interp.cursor s))
                         (Py.and_ff (v + d))))
         (Translator.set_incr (Translator.write_move c)
            (Translator.incr (Translator.write_move c) + d))
         m'.
Proof.
  intros Hsim Hcur Hsize Hv.
  destruct (sim_write_move _ _ _ _ Hsim ltac:(lia))
    as (m' & Hexec & Hsim' & Hm & Hi & Ho).
  exists m'. split; [exact Hexec|]. split; [exact Ho|].
  destruct Hsim'
    as (Hout & Hin & Hptr & Hb & Hlen & Hone & Hcom & Hsz & Hbytes & Hcells).
  unfold simulates, Translator.set_incr, Interp.set_array. fields.
  rewrite Hm in *.
  repeat split; auto; try lia.
  intros k Hk.
  rewrite cell_at_update by (unfold Py.len in Hcur; lia).
  rewrite Z2Nat.id by lia. specialize (Hcells k Hk).
  replace (Host.ptr m') with (Interp.cursor s) in * by lia.
  revert Hcells.
  destruct (Z.eqb_spec k (Interp.cursor s)) as [Heq|Hne]; intros Hcells.
  - subst k. rewrite and_ff_mod.
    rewrite (cell_at_nth _ _ _ (proj1 Hcur) Hv) in Hcells.
    rewrite <- Hcells, Z.add_assoc, Zplus_mod_idemp_l. reflexivity.
  - exact Hcells.
Qed.

(** Before an output or an input both pending changes are written; the
    pointer is then the cursor and the cell under it the interpreter's. *)
Lemma sim_flush size s c m :
  simulates size s c m ->
  0 <= Interp.cursor s < size ->
  exists m',
    exec_all (pending_move_text c
              ++ pending_incr_text (Translator.write_move c)) m
    = Host.Running m'
    /\ Translator.source_output
         (Translator.write_incr (Translator.write_move c))
       = Translator.source_output c
         ++ pending_move_text c
         ++ pending_incr_text (Translator.write_move c)
    /\ simulates size s (Translator.write_incr (Translator.write_move c)) m'
    /\ Host.ptr m' = Interp.cursor s
    /\ cell_at (Host.array m') (Host.ptr m')
       = cell_at (Interp.array s) (Interp.cursor s).
Proof.
  intros Hsim Hcur.
  destruct (sim_write_move _ _ _ _ Hsim Hcur)
    as (m1 & Hexec1 & Hsim1 & Hm1 & Hi1 & Ho1).
  destruct (sim_write_incr _ _ _ _ Hsim1)
    as (m2 & Hexec2 & Hsim2 & Hi2 & Hm2 & Ho2).
  exists m2. rewrite exec_all_app, Hexec1.
  split; [exact Hexec2|]. split; [rewrite Ho2, Ho1, app_assoc; reflexivity|].
  split; [exact Hsim2|].
  destruct Hsim2
    as (Hout & Hin & Hptr & Hb & Hlen & Hone & Hcom & Hsz & Hbytes & Hcells).
  rewrite Hm2, Hm1 in Hptr. split; [lia|].
  specialize (Hcells (Host.ptr m2) Hb).
  rewrite Z.eqb_refl, Hi2, Z.add_0_r in Hcells.
  rewrite Z.mod_small in Hcells.
  - rewrite Hcells. f_equal. lia.
  - rewrite Forall_forall in Hbytes. apply Hbytes. unfold cell_at.
    apply nth_In. unfold Py.len in Hlen. lia.
Qed.

Ltac other_char :=
  repeat match goal with
    | H : ?a <> ?b |- context [Ascii.eqb ?a ?b] =>
        rewrite (proj2 (Ascii.eqb_neq a b) H)
    | H : ?a <> ?b, D : context [Ascii.eqb ?a ?b] |- _ =>
        rewrite (proj2 (Ascii.eqb_neq a b) H) in D
    end.

Lemma int2byte_ok v b :
  Py.int2byte v = Ok b -> Byte.of_N (Z.to_N v) = Some b /\ 0 <= v < 256.
Proof.
  unfold Py.int2byte.
  destruct (Z.leb_spec 0 v); destruct (Z.ltb_spec v 256); cbn [andb];
    try discriminate.
  destruct (Byte.of_N (Z.to_N v)); [|discriminate].
  intros Hb. injection Hb as ->. split; [reflexivity|lia].
Qed.

Lemma sim_char size source debug ch s t c m :
  simulates size s c m ->
  well_formed s ->
  ch <> "["%char -> ch <> "]"%char -> ch <> "#"%char ->
  Interp.dispatch source debug ch s = Ok t ->
  Py.len (Interp.array t) <= size ->
  exists c' blk m',
    Translator.parse c ch = Ok c'
    /\ Translator.source_output c' = Translator.source_output c ++ blk
    /\ exec_all blk m = Host.Running m'
    /\ simulates size t c' m'.
Proof.
  intros Hsim (Hc & Hcells_s & _) Hno Hnc Hnh D Hsize.
  pose proof Hsim as (_ & _ & _ & _ & _ & _ & Hcom & _).
  destruct (getitem_in_bounds _ _ Hc) as (v & Hnth & Hget).
  assert (Hn : (Z.to_nat (Interp.cursor s) < List.length (Interp.array s))%nat)
    by (unfold Py.len in Hc; lia).
  unfold Interp.dispatch in D. unfold Translator.parse.
  destruct (Ascii.eqb_spec ch ">"%char) as [->|H1].
  { cbn [Ascii.eqb Bool.eqb andb negb Lexer.newline]. rewrite Hcom.
    cbn [negb]. revert D. simpl_state.
    destruct (Z.geb_spec (Interp.cursor s + 1) (Py.len (Interp.array s)));
      intros D; injection D as <-.
    - destruct (sim_shift size s c m 1 (Interp.array s ++ [0]) Hsim
                  (cell_at_grown _)) as (m' & He & Hout & Hs').
      do 2 eexists. exists m'. split; [reflexivity|].
      split; [exact Hout|]. split; [exact He|exact Hs'].
    - destruct (sim_shift size s c m 1 (Interp.array s) Hsim
                  (fun k => eq_refl)) as (m' & He & Hout & Hs').
      do 2 eexists. exists m'. split; [reflexivity|].
      split; [exact Hout|]. split; [exact He|exact Hs']. }
  destruct (Ascii.eqb_spec ch "<"%char) as [->|H2].
  { cbn [Ascii.eqb Bool.eqb andb negb Lexer.newline]. rewrite Hcom.
    cbn [negb]. revert D. simpl_state.
    destruct (Z.ltb_spec (Interp.cursor s - 1) 0); intros D;
      [discriminate D|]. injection D as <-.
    destruct (sim_shift size s c m (-1) (Interp.array s) Hsim
                (fun k => eq_refl)) as (m' & He & Hout & Hs').
    do 2 eexists. exists m'. split; [reflexivity|].
      split; [exact Hout|]. split; [exact He|exact Hs']. }
  destruct (Ascii.eqb_spec ch "+"%char) as [->|H3].
  { cbn [Ascii.eqb Bool.eqb andb negb Lexer.newline]. rewrite Hcom.
    cbn [negb]. revert D. rewrite Hget. cbn [bind].
    rewrite setitem_in_bounds by exact Hc. cbn [bind].
    intros D; injection D as <-.
    cbn [Interp.array Interp.set_array] in Hsize. rewrite len_update in Hsize.
    destruct (sim_add size s c m 1 v Hsim Hc Hsize Hnth)
      as (m' & He & Hout & Hs').
    do 2 eexists. exists m'. split; [reflexivity|].
      split; [exact Hout|]. split; [exact He|exact Hs']. }
  destruct (Ascii.eqb_spec ch "-"%char) as [->|H4].
  { cbn [Ascii.eqb Bool.eqb andb negb Lexer.newline]. rewrite Hcom.
    cbn [negb]. revert D. rewrite Hget. cbn [bind].
    rewrite setitem_in_bounds by exact Hc. cbn [bind].
    intros D; injection D as <-.
    cbn [Interp.array Interp.set_array] in Hsize. rewrite len_update in Hsize.
    destruct (sim_add size s c m (-1) v Hsim Hc Hsize Hnth)
      as (m' & He & Hout & Hs').
    do 2 eexists. exists m'. split; [reflexivity|].
      split; [exact Hout|]. split; [exact He|exact Hs']. }
  destruct (Ascii.eqb_spec ch "."%char) as [->|H5].
  { cbn [Ascii.eqb Bool.eqb andb negb Lexer.newline]. rewrite Hcom.
    cbn [negb]. revert D. rewrite Hget. cbn [bind].
    destruct (Py.int2byte v) as [b| |] eqn:Hb; cbn [bind]; intros D;
      try discriminate D.
    injection D as <-.
    cbn [Interp.array Interp.set_process_output] in Hsize.
    destruct (int2byte_ok _ _ Hb) as (Hof & Hv).
    destruct (sim_flush size s c m Hsim ltac:(lia))
      as (m2 & He & Hout & Hs2 & Hp2 & Hcell).
    rewrite (cell_at_nth _ _ _ (proj1 Hc) Hnth) in Hcell.
    pose proof Hs2
      as (Hso & Hsi & Hsp & Hsb & Hsl & Hsone & Hscom & Hssz & Hsby & Hsc).
    do 2 eexists.
    exists (Host.mkMachine (Host.array m2) (Host.ptr m2) (Host.stdin m2)
                           (Host.stdout m2 ++ [b])).
    split; [reflexivity|]. split; [|split].
    - cbn [Translator.write Translator.source_output]. rewrite Hout.
      rewrite <- app_assoc. reflexivity.
    - rewrite exec_all_app, He.
      cbn [exec_all Host.exec].
      rewrite host_load_in_bounds by lia.
      rewrite Hcell, Z.mod_small, Hof by lia. reflexivity.
    - unfold simulates, Interp.set_process_output, Translator.write. fields.
      repeat split; auto; try lia. rewrite Hso. reflexivity. }
  destruct (Ascii.eqb_spec ch ","%char) as [->|H6].
  { cbn [Ascii.eqb Bool.eqb andb negb Lexer.newline]. rewrite Hcom.
    cbn [negb].
    assert (Hsz0 : Py.len (Interp.array s) <= size).
    { revert D. destruct (Interp.process_input s); simpl_state;
        rewrite setitem_in_bounds by exact Hc; cbn [bind];
        intros D; injection D as <-; revert Hsize; simpl_state;
        rewrite len_update; trivial. }
    destruct (sim_flush size s c m Hsim ltac:(lia))
      as (m2 & He & Hout & Hs2 & Hp2 & Hcell).
    pose proof Hs2
      as (Hso & Hsi & Hsp & Hsb & Hsl & Hsone & Hscom & Hssz & Hsby & Hsc).
    assert (Hi2 : Translator.incr
                    (Translator.write_incr (Translator.write_move c)) = 0).
    { unfold Translator.write_incr.
      destruct (Z.eqb_spec (Translator.incr (Translator.write_move c)) 0);
        [assumption|reflexivity]. }
    assert (Stored : forall x x' rest,
               x mod 256 = x' ->
               0 <= x' < 256 ->
               simulates size
                 (Interp.mkState
                    (Interp.source_cursor s) (Interp.source_brackets s)
                    (Py.update (Interp.array s) (Z.to_nat (Interp.cursor s))
                               x')
                    (Interp.cursor s) rest (Interp.process_output s))
                 (Translator.write
                    (Translator.write_incr (Translator.write_move c))
                    Translator.Getchar)
                 (Host.mkMachine
                    (Py.update (Host.array m2) (Z.to_nat (Host.ptr m2))
                               (x mod 256))
                    (Host.ptr m2) rest (Host.stdout m2))).
    { intros x x' rest Hx Hx'. unfold simulates, Translator.write. fields.
      rewrite len_update.
      repeat split; auto; try lia.
      - apply Forall_update; [exact Hsby|]. rewrite Hx. exact Hx'.
      - intros k Hk. specialize (Hsc k Hk). revert Hsc.
        rewrite !cell_at_update by (unfold Py.len in *; lia).
        rewrite !Z2Nat.id by lia. rewrite Hp2, Hi2.
        destruct (Z.eqb_spec k (Interp.cursor s)); intros Hsc.
        + rewrite Z.add_0_r, Z.mod_mod, Hx by lia. reflexivity.
        + exact Hsc. }
    revert D. destruct (Interp.process_input s) as [|data rest] eqn:Hin;
      simpl_state; rewrite setitem_in_bounds by exact Hc; cbn [bind];
      intros D; injection D as <-.
    - do 2 eexists.
      exists (Host.mkMachine
                (Py.update (Host.array m2) (Z.to_nat (Host.ptr m2))
                           ((-1) mod 256))
                (Host.ptr m2) [] (Host.stdout m2)).
      split; [reflexivity|]. split; [|split].
      + cbn [Translator.write Translator.source_output]. rewrite Hout.
        rewrite <- app_assoc. reflexivity.
      + rewrite exec_all_app, He.
        cbn [exec_all Host.exec]. rewrite Hsi.
        rewrite host_store_in_bounds by lia. rewrite Hsi. reflexivity.
      + unfold Interp.set_array. fields. rewrite Hin.
        apply Stored; [reflexivity|lia].
    - do 2 eexists.
      exists (Host.mkMachine
                (Py.update (Host.array m2) (Z.to_nat (Host.ptr m2))
                           (Py.ord data mod 256))
                (Host.ptr m2) rest (Host.stdout m2)).
      pose proof (ord_range data) as Hord.
      split; [reflexivity|]. split; [|split].
      + cbn [Translator.write Translator.source_output]. rewrite Hout.
        rewrite <- app_assoc. reflexivity.
      + rewrite exec_all_app, He.
        cbn [exec_all Host.exec]. rewrite Hsi.
        rewrite host_store_in_bounds by (cbn [Host.ptr Host.array]; lia).
        reflexivity.
      + unfold Interp.set_array, Interp.set_process_input. fields.
        apply Stored; [apply Z.mod_small; exact Hord|exact Hord]. }
  (* every other character *)
  assert (Hts : t = s).
  { revert D. other_char.
    destruct (Ascii.eqb ch "!"%char); [destruct debug|];
      intros D; injection D as <-; reflexivity. }
  subst t. other_char.
  destruct (Ascii.eqb ch Lexer.newline).
  - exists (Translator.set_comment c false), [], m.
    split; [reflexivity|]. rewrite app_nil_r.
    split; [reflexivity|]. split; [reflexivity|].
    destruct Hsim as (? & ? & ? & ? & ? & ? & ? & ? & ? & ?).
    unfold simulates, Translator.set_comment. fields. repeat split; auto; lia.
  - rewrite Hcom. cbn [negb].
    exists c, [], m. rewrite app_nil_r.
    split; [reflexivity|]. split; [reflexivity|].
    split; [reflexivity|exact Hsim].
Qed.

Lemma setitem_length {A : Type} (l : list A) i v a :
  Py.setitem l i v = Ok a -> List.length a = List.length l.
Proof.
  unfold Py.setitem. destruct (Py.position l i); cbn [bind];
    try discriminate.
  intros H. injection H as <-. apply update_length.
Qed.

Lemma dispatch_len_mono source debug cmd s t :
  Interp.dispatch source debug cmd s = Ok t ->
  Py.len (Interp.array s) <= Py.len (Interp.array t).
Proof.
  unfold Interp.dispatch. case_cmd.
  - simpl_state. destruct (_ >=? _); intros D; injection D as <-;
      simpl_state; rewrite ?len_app; unfold Py.len; cbn; lia.
  - simpl_state. destruct (_ <? _); intros D; [discriminate D|].
    injection D as <-. simpl_state. lia.
  - crunch; intros D; try discriminate D. injection D as <-.
    simpl_state. unfold Py.len.
    match goal with E : Py.setitem _ _ _ = Ok _ |- _ =>
      rewrite (setitem_length _ _ _ _ E) end. lia.
  - crunch; intros D; try discriminate D. injection D as <-.
    simpl_state. unfold Py.len.
    match goal with E : Py.setitem _ _ _ = Ok _ |- _ =>
      rewrite (setitem_length _ _ _ _ E) end. lia.
  - crunch; intros D; try discriminate D. injection D as <-.
    simpl_state. lia.
  - destruct (Interp.process_input s); simpl_state; crunch; intros D;
      try discriminate D; injection D as <-; simpl_state; unfold Py.len;
      match goal with E : Py.setitem _ _ _ = Ok _ |- _ =>
        rewrite (setitem_length _ _ _ _ E) end; lia.
  - crunch; [|intros D; discriminate D].
    destruct (_ >? 0).
    + intros D; injection D as <-. simpl_state. lia.
    + destruct (Interp.skip_scan _ _ _) as [stop level'].
      destruct (_ >=? _); intros D; [discriminate D|].
      injection D as <-. simpl_state. lia.
  - destruct (Interp.source_brackets s); intros D; [discriminate D|].
    injection D as <-. simpl_state. lia.
  - destruct debug; intros D; injection D as <-; lia.
  - intros D; injection D as <-; lia.
Qed.

Lemma loop_len_mono fuel :
  forall source debug s s',
    Interp.loop fuel source debug s = Some (Ok s') ->
    Py.len (Interp.array s) <= Py.len (Interp.array s').
Proof.
  induction fuel as [|fuel IH]; intros source debug s s' H;
    cbn [Interp.loop] in H;
    destruct (Interp.source_cursor s <? Py.len source);
    try discriminate H; try (injection H as <-; lia).
  destruct (Interp.step source debug s) as [s1| |] eqn:Hstep;
    try discriminate H.
  specialize (IH _ _ _ _ H).
  unfold Interp.step in Hstep.
  destruct (Py.getitem source (Interp.source_cursor s)) as [cmd| |];
    cbn [bind] in Hstep; try discriminate Hstep.
  destruct (Interp.dispatch source debug cmd s) as [t| |] eqn:D;
    cbn [bind] in Hstep; try discriminate Hstep.
  injection Hstep as <-. apply dispatch_len_mono in D.
  revert IH. simpl_state. lia.
Qed.

Lemma straight_app a b : straight (a ++ b) = straight a && straight b.
Proof. apply forallb_app. Qed.

Lemma straight_pending_move c : straight (pending_move_text c) = true.
Proof.
  unfold pending_move_text.
  destruct (_ =? 0); [reflexivity|]. destruct (Translator.debug c); reflexivity.
Qed.

Lemma straight_pending_incr c : straight (pending_incr_text c) = true.
Proof.
  unfold pending_incr_text. destruct (_ =? 0); reflexivity.
Qed.

Lemma brace_depth_straight out :
  straight out = true -> forall d, brace_depth out d = Some d.
Proof.
  induction out as [|x out IH]; intros H d; [reflexivity|].
  cbn [straight forallb] in H. apply andb_true_iff in H as (Hx & H).
  destruct x; try discriminate Hx; cbn [brace_depth]; apply IH; exact H.
Qed.

Lemma blocks_straight out :
  forall cur,
    straight out = true ->
    Host.blocks out cur [] = Some (cur ++ map Host.Simple out).
Proof.
  induction out as [|x out IH]; intros cur H.
  - cbn. rewrite app_nil_r. reflexivity.
  - cbn [straight forallb] in H. apply andb_true_iff in H as (Hx & H).
    destruct x; try discriminate Hx; cbn [Host.blocks map];
      rewrite IH by exact H; rewrite <- app_assoc; reflexivity.
Qed.

Lemma run_straight out :
  forall m fuel,
    (List.length out < fuel)%nat ->
    Host.run fuel (map Host.Simple out) m = Some (exec_all out m).
Proof.
  induction out as [|x out IH]; intros m fuel Hf;
    (destruct fuel as [|fuel]; [cbn in Hf; lia|]); cbn [Host.run map exec_all].
  - reflexivity.
  - destruct (Host.exec x m); try reflexivity.
    apply IH. cbn in Hf. lia.
Qed.

Lemma parse_straight c ch c' :
  ch <> "["%char -> ch <> "]"%char ->
  Translator.parse c ch = Ok c' ->
  exists blk,
    Translator.source_output c' = Translator.source_output c ++ blk
    /\ straight blk = true.
Proof.
  intros Hno Hnc. unfold Translator.parse.
  assert (Same : exists blk,
             Translator.source_output c = Translator.source_output c ++ blk
             /\ straight blk = true)
    by (exists []; rewrite app_nil_r; split; reflexivity).
  destruct (Ascii.eqb ch Lexer.newline);
    [intros H; injection H as <-; exact Same|].
  destruct (Translator.comment c); cbn [negb];
    [intros H; injection H as <-; exact Same|].
  pose proof (proj1 (proj1 (quiet_write_move c))) as Hmove.
  pose proof (proj1 (proj1 (quiet_write_incr c))) as Hincr.
  pose proof (proj1 (proj1 (quiet_write_incr (Translator.write_move c))))
    as Hboth.
  rewrite Hmove in Hboth.
  other_char. case_cmd; intros H; injection H as <-;
    cbn [Translator.write Translator.set_move Translator.set_incr
         Translator.set_comment Translator.source_output].
  - exact Same.
  - exists (pending_incr_text c). split; [exact Hincr|].
    apply straight_pending_incr.
  - exists (pending_incr_text c). split; [exact Hincr|].
    apply straight_pending_incr.
  - exists (pending_move_text c). split; [exact Hmove|].
    apply straight_pending_move.
  - exists (pending_move_text c). split; [exact Hmove|].
    apply straight_pending_move.
  - eexists. rewrite Hboth, <- !app_assoc. split; [reflexivity|].
    rewrite !straight_app, straight_pending_move, straight_pending_incr.
    reflexivity.
  - eexists. rewrite Hboth, <- !app_assoc. split; [reflexivity|].
    rewrite !straight_app, straight_pending_move, straight_pending_incr.
    reflexivity.
  - exact Same.
Qed.

Lemma sim_run size debug rest :
  forall pre s c m fuel s',
    loop_free rest ->
    ~ In "#"%char rest ->
    Interp.source_cursor s = Py.len pre ->
    well_formed s ->
    simulates size s c m ->
    Interp.loop fuel (pre ++ rest) debug s = Some (Ok s') ->
    Py.len (Interp.array s') <= size ->
    exists c' blk m',
      Translator.parse_all c rest = Ok c'
      /\ Translator.source_output c' = Translator.source_output c ++ blk
      /\ straight blk = true
      /\ exec_all blk m = Host.Running m'
      /\ simulates size s' c' m'.
Proof.
  induction rest as [|ch rest IH];
    intros pre s c m fuel s' (Hno & Hnc) Hnh Hip Hwf Hsim Hloop Hsize.
  - rewrite app_nil_r in Hloop.
    rewrite loop_done in Hloop by lia. injection Hloop as <-.
    exists c, [], m. rewrite app_nil_r. cbn. auto.
  - assert (Hlt : Interp.source_cursor s < Py.len (pre ++ ch :: rest)).
    { rewrite len_app, len_cons. pose proof (len_nonneg rest). lia. }
    destruct fuel as [|fuel].
    { cbn [Interp.loop] in Hloop.
      destruct (Z.ltb_spec (Interp.source_cursor s)
                           (Py.len (pre ++ ch :: rest))); [|lia].
      discriminate Hloop. }
    rewrite loop_more in Hloop by exact Hlt.
    destruct (Interp.step (pre ++ ch :: rest) debug s) as [s1| |] eqn:Hstep;
      try discriminate Hloop.
    pose proof (step_well_formed _ _ _ _ Hwf Hstep) as Hwf1.
    pose proof (loop_len_mono _ _ _ _ _ Hloop) as Hmono.
    rewrite step_at in Hstep by exact Hip.
    destruct (Interp.dispatch (pre ++ ch :: rest) debug ch s) as [t| |] eqn:D;
      cbn [bind] in Hstep; try discriminate Hstep.
    injection Hstep as <-.
    assert (Hch : ch <> "["%char /\ ch <> "]"%char /\ ch <> "#"%char).
    { repeat split; intros ->; [apply Hno|apply Hnc|apply Hnh]; left;
        reflexivity. }
    destruct Hch as (Hch1 & Hch2 & Hch3).
    destruct (sim_char size _ debug ch s t c m Hsim Hwf Hch1 Hch2 Hch3 D)
      as (c1 & blk1 & m1 & Hp1 & Ho1 & He1 & Hsim1).
    { revert Hmono. simpl_state. lia. }
    destruct (parse_straight _ _ _ Hch1 Hch2 Hp1) as (blk1' & Ho1' & Hst1).
    assert (blk1' = blk1) as ->
        by (rewrite Ho1 in Ho1'; apply app_inv_head in Ho1'; congruence).
    replace (pre ++ ch :: rest) with ((pre ++ [ch]) ++ rest) in Hloop
      by (rewrite <- app_assoc; reflexivity).
    destruct (IH (pre ++ [ch])
                 (Interp.set_source_cursor t (Interp.source_cursor t + 1))
                 c1 m1 fuel s')
      as (c' & blk & m' & Hp & Ho & Hst & He & Hsim'); auto.
    + split; intros Hin; [apply Hno|apply Hnc]; right; exact Hin.
    + intros Hin. apply Hnh. right. exact Hin.
    + simpl_state. rewrite len_snoc, <- Hip.
      destruct (dispatch_plain _ _ _ _ _ Hch1 Hch2 D) as (-> & _).
      reflexivity.
    + exists c', (blk1 ++ blk), m'.
      cbn [Translator.parse_all]. rewrite Hp1. cbn [bind].
      split; [exact Hp|]. split; [rewrite Ho, Ho1, app_assoc; reflexivity|].
      split; [rewrite straight_app, Hst1, Hst; reflexivity|].
      split; [rewrite exec_all_app, He1; exact He|exact Hsim'].
Qed.

Lemma cell_at_zeros n k : cell_at (repeat 0 n) k = 0.
Proof.
  unfold cell_at. destruct (nth_in_or_default (Z.to_nat k) (repeat 0 n) 0)
    as [Hin | ->]; [|reflexivity].
  apply repeat_spec in Hin. exact Hin.
Qed.

Lemma cell_at_fresh k : cell_at [0] k = 0.
Proof.
  unfold cell_at. destruct (Z.to_nat k) as [|[|j]]; reflexivity.
Qed.

(** X13: on a text without loops the compiled program does what the
    interpreter does.  Whenever [execute] returns normally and the array of
    the emitted program is at least as long as the tape the interpreter ends
    with, [compile] succeeds and the emitted program, run on the same input,
    stops normally and has written exactly the bytes the interpreter has
    written. *)
Theorem loop_free_programs_agree text input debug debug' size fuel s :
  loop_free (Lexer.strip_comments text) ->
  Interp.execute fuel text input debug = Some (Ok s) ->
  Py.len (Interp.array s) <= size ->
  exists c,
    Translator.compile text debug' size = Ok c
    /\ host_output
         (compile_and_run (S (List.length (Translator.source_output c)))
                          text size debug' input)
       = Some (Interp.process_output s).
Proof.
  intros Hfree Hexec Hsize. unfold Interp.execute in Hexec.
  set (source := Lexer.strip_comments text) in *.
  set (c0 := Translator.start (Translator.init debug' size)).
  set (m0 := Host.mkMachine (repeat 0 (Z.to_nat size)) 0 input []).
  pose proof (loop_len_mono _ _ _ _ _ Hexec) as Hmono.
  change (Py.len (Interp.array (Interp.initial input))) with 1 in Hmono.
  assert (Hsim0 : simulates size (Interp.initial input) c0 m0).
  { unfold simulates, c0, m0. fields. cbn [Interp.initial].
    unfold Py.len. rewrite repeat_length.
    repeat split; auto; try lia.
    - apply Forall_forall. intros v Hin. apply repeat_spec in Hin. lia.
    - intros k Hk. rewrite cell_at_zeros, cell_at_fresh.
      destruct (k =? 0); reflexivity. }
  destruct (sim_run size debug source [] (Interp.initial input) c0 m0 fuel s)
    as (c1 & blk & m1 & Hp & Ho & Hst & He & Hsim); auto.
  { apply sub_comments_no_hash. }
  { apply well_formed_initial. }
  (* the same on the text with its comments *)
  pose proof (parse_all_strip text c0) as Hstrip.
  change (Translator.comment c0) with false in Hstrip.
  change (Translator.set_comment c0 false) with c0 in Hstrip.
  fold (Lexer.strip_comments text) in Hstrip. fold source in Hstrip.
  rewrite Hp in Hstrip.
  destruct (Translator.parse_all c0 text) as [c2| |] eqn:Hp2;
    cbn in Hstrip; try contradiction.
  assert (Hl2 : Translator.level c2 = Translator.level c1)
    by (apply (f_equal Translator.level) in Hstrip; exact Hstrip).
  assert (Ho2 : Translator.source_output c2 = Translator.source_output c1)
    by (apply (f_equal Translator.source_output) in Hstrip; exact Hstrip).
  (* no loop is open at the end *)
  destruct (parse_all_appends _ _ _ Hp eq_refl eq_refl) as (_ & Hbr & _ & _).
  rewrite Ho in Hbr.
  change (Translator.source_output c0) with [Translator.Header size] in *.
  rewrite brace_depth_straight in Hbr
    by (rewrite straight_app, Hst; reflexivity).
  injection Hbr as Hlevel.
  exists (Translator.write c2 Translator.Return).
  assert (Hcompile : Translator.compile text debug' size
                     = Ok (Translator.write c2 Translator.Return)).
  { unfold Translator.compile. fold c0. rewrite Hp2. cbn [bind].
    unfold Translator.finish. rewrite Hl2, <- Hlevel. reflexivity. }
  split; [exact Hcompile|].
  unfold compile_and_run. rewrite Hcompile.
  cbn [emitted Translator.write Translator.source_output].
  rewrite Ho2, Ho. unfold Host.run_program.
  rewrite blocks_straight
    by (rewrite !straight_app, Hst; reflexivity).
  cbn [app]. rewrite run_straight by lia.
  cbn [exec_all Host.exec Host.stdin Host.stdout].
  fold m0. rewrite exec_all_app, He. cbn [exec_all Host.exec host_output].
  destruct Hsim as (Hout & _). rewrite Hout. reflexivity.
Qed.

Lemma loop_free_programs_agree_witness :
  exists c,
    Translator.compile (chars ",+.>-.") true 2 = Ok c
    /\ host_output
         (compile_and_run (S (List.length (Translator.source_output c)))
                          (chars ",+.>-.") 2 true ["A"%byte])
       = Some ["B"%byte; "255"%byte].
Proof.
  apply (loop_free_programs_agree
           (chars ",+.>-.") ["A"%byte] false true 2 6
           (Interp.mkState 6 [] [66; 255] 1 [] ["B"%byte; "255"%byte])).
  - split; cbn; intros H; repeat destruct H as [H|H]; try discriminate H;
      exact H.
  - reflexivity.
  - vm_compute. discriminate.
Defined.

(** * The dump *)

Example dump_of_a_small_tape :
  Dump.hexdump [72; 105; 0; 127] 1
  = Some [chars "00000000  48<69>00 7f                                      |Hi..|"
          ++ [Lexer.newline]].
Proof. vm_compute. reflexivity. Qed.

Lemma getitem_cell_at array i :
  0 <= i < Py.len array -> Py.getitem array i = Ok (cell_at array i).
Proof.
  intros H. destruct (getitem_in_bounds _ _ H) as (v & Hn & Hg).
  rewrite Hg. f_equal. symmetry. apply cell_at_nth; [lia|exact Hn].
Qed.

Lemma cell_at_byte array k :
  Forall (fun v => 0 <= v < 256) array -> 0 <= cell_at array k < 256.
Proof.
  intros Hall. unfold cell_at.
  destruct (nth_in_or_default (Z.to_nat k) array 0) as [Hin|Heq].
  - rewrite Forall_forall in Hall. apply Hall. exact Hin.
  - rewrite Heq. lia.
Qed.

Lemma bytes_enum (P : Z -> bool) :
  forallb P (map Z.of_nat (seq 0 256)) = true ->
  forall v, 0 <= v < 256 -> P v = true.
Proof.
  intros H v Hv. rewrite forallb_forall in H. apply H.
  apply in_map_iff. exists (Z.to_nat v). split; [lia|].
  apply in_seq. lia.
Qed.

(** The two digits of a byte, read back as a hex number, give the byte. *)
Definition two_digits (v : Z) : bool :=
  match hex2 v with
  | [d1; d2] =>
      HexString.to_Z (String "0" (String "x" (String d1 (String d2 ""))))
      =? v
  | _ => false
  end.

Lemma hex2_byte v :
  0 <= v < 256 ->
  exists d1 d2,
    hex2 v = [d1; d2]
    /\ HexString.to_Z (String "0" (String "x" (String d1 (String d2 ""))))
       = v.
Proof.
  intros Hv.
  assert (H : two_digits v = true).
  { apply bytes_enum; [|exact Hv]. vm_compute. reflexivity. }
  unfold two_digits in H.
  destruct (hex2 v) as [|d1 [|d2 [|d3 r]]]; try discriminate H.
  exists d1, d2. split; [reflexivity|]. apply Z.eqb_eq. exact H.
Qed.

Lemma field_eq array cursor i line :
  0 <= i ->
  Dump.field array cursor (i, line)
  = Some (i + 1, line ++ cell_field array cursor i).
Proof.
  intros Hi. unfold Dump.field, cell_field, marker, hex2.
  destruct (Z.ltb_spec i (Py.len array)).
  - rewrite getitem_cell_at by lia.
    destruct (cursor =? i); [|destruct (_ && _)];
      rewrite <- app_assoc; reflexivity.
  - destruct (cursor =? i); [|destruct (_ && _)];
      rewrite <- app_assoc; reflexivity.
Qed.

Lemma text_cell_eq array i line :
  Forall (fun v => 0 <= v < 256) array ->
  0 <= i ->
  Dump.text_cell array (i, line) = Some (i + 1, line ++ text_of array i).
Proof.
  intros Hall Hi. unfold Dump.text_cell, text_of.
  destruct (Z.ltb_spec i (Py.len array)).
  - rewrite getitem_cell_at by lia. unfold Dump.shown.
    pose proof (cell_at_byte array i Hall) as Hb.
    destruct (Z.leb_spec 0 (cell_at array i)); [|lia].
    destruct (Z.ltb_spec (cell_at array i) 256); [|lia].
    reflexivity.
  - rewrite app_nil_r. reflexivity.
Qed.

Lemma cells_from_S k n : cells_from k (S n) = k :: cells_from (k + 1) n.
Proof.
  unfold cells_from. cbn [seq map]. f_equal; [lia|].
  rewrite <- seq_shift, map_map. apply map_ext. intros j. lia.
Qed.

Lemma cells_from_app k a b :
  cells_from k (a + b) = cells_from k a ++ cells_from (k + Z.of_nat a) b.
Proof.
  revert k. induction a as [|a IH]; intros k.
  - cbn [Nat.add]. unfold cells_from at 2. cbn [seq map app].
    rewrite Z.add_0_r. reflexivity.
  - cbn [Nat.add]. rewrite !cells_from_S, IH. cbn [app].
    do 2 f_equal. f_equal. lia.
Qed.

Lemma times_fields array cursor n :
  forall i line,
    0 <= i ->
    Dump.times n (Dump.field array cursor) (i, line)
    = Some (i + Z.of_nat n,
            line ++ List.concat (map (cell_field array cursor)
                                     (cells_from i n))).
Proof.
  induction n as [|n IH]; intros i line Hi.
  - cbn. rewrite Z.add_0_r, app_nil_r. reflexivity.
  - cbn [Dump.times]. rewrite field_eq by lia. rewrite IH by lia.
    rewrite cells_from_S. cbn [map List.concat]. rewrite <- app_assoc.
    do 2 f_equal. lia.
Qed.

Lemma times_text array n :
  Forall (fun v => 0 <= v < 256) array ->
  forall i line,
    0 <= i ->
    Dump.times n (Dump.text_cell array) (i, line)
    = Some (i + Z.of_nat n,
            line ++ List.concat (map (text_of array) (cells_from i n))).
Proof.
  intros Hall. induction n as [|n IH]; intros i line Hi.
  - cbn. rewrite Z.add_0_r, app_nil_r. reflexivity.
  - cbn [Dump.times]. rewrite text_cell_eq by (assumption || lia).
    rewrite IH by lia.
    rewrite cells_from_S. cbn [map List.concat]. rewrite <- app_assoc.
    do 2 f_equal. lia.
Qed.

Lemma closing_eq cursor i line :
  Dump.closing cursor (i, line) = (i, line ++ [closer cursor i]).
Proof. unfold Dump.closing, closer. destruct (cursor =? i - 1); reflexivity. Qed.

Lemma one_line_eq array cursor i :
  Forall (fun v => 0 <= v < 256) array ->
  0 <= i ->
  Dump.one_line array cursor i = Some (i + 16, dump_line array cursor i).
Proof.
  intros Hall Hi. unfold Dump.one_line.
  rewrite times_fields by lia. rewrite closing_eq.
  rewrite times_fields by lia. rewrite closing_eq.
  change (Z.of_nat 8) with 8.
  replace (i + 8 + 8 - 16) with i by lia.
  rewrite times_text by (assumption || lia).
  change (Z.of_nat 16) with 16.
  f_equal. f_equal. unfold dump_line, group.
  repeat rewrite <- app_assoc. reflexivity.
Qed.

Lemma lines_eq array cursor :
  Forall (fun v => 0 <= v < 256) array ->
  forall n fuel i written,
    0 <= i ->
    (n <= fuel)%nat ->
    16 * (Z.of_nat n - 1) < Py.len array - i <= 16 * Z.of_nat n ->
    Dump.lines fuel array cursor i written
    = Some (written
            ++ map (fun q => dump_line array cursor (i + 16 * Z.of_nat q))
                   (seq 0 n)).
Proof.
  intros Hall. induction n as [|n IH]; intros fuel i written Hi Hf Hn.
  - destruct fuel; cbn [Dump.lines];
      (destruct (Z.ltb_spec i (Py.len array)); [lia|]);
      cbn [seq map]; rewrite app_nil_r; reflexivity.
  - destruct fuel as [|fuel]; [lia|]. cbn [Dump.lines].
    destruct (Z.ltb_spec i (Py.len array)); [|lia].
    rewrite one_line_eq by (assumption || lia).
    rewrite IH by lia.
    rewrite <- app_assoc. cbn [seq map app]. do 3 f_equal.
    + f_equal. lia.
    + rewrite <- seq_shift, map_map. apply map_ext. intros q. f_equal. lia.
Qed.

Lemma line_count_bounds (array : list Z) :
  let n := Z.to_nat ((Py.len array + 15) / 16) in
  (n <= List.length array)%nat
  /\ 16 * (Z.of_nat n - 1) < Py.len array - 0 <= 16 * Z.of_nat n.
Proof.
  cbv zeta. unfold Py.len.
  pose proof (Z.div_mod (Z.of_nat (List.length array) + 15) 16 ltac:(lia)).
  pose proof (Z.mod_pos_bound (Z.of_nat (List.length array) + 15) 16
                              ltac:(lia)).
  assert (0 <= (Z.of_nat (List.length array) + 15) / 16)
    by (apply Z.div_pos; lia).
  lia.
Qed.

Lemma nth_error_map_seq {A : Type} (g : nat -> A) n q :
  (q < n)%nat -> nth_error (map g (seq 0 n)) q = Some (g q).
Proof.
  intros H. rewrite nth_error_map.
  rewrite (nth_error_nth' _ O) by (rewrite length_seq; exact H).
  rewrite seq_nth by exact H. reflexivity.
Qed.

Lemma hexdump_lines_eq array cursor :
  Forall (fun v => 0 <= v < 256) array ->
  Dump.hexdump array cursor
  = Some (map (fun q => dump_line array cursor (16 * Z.of_nat q))
              (seq 0 (Z.to_nat ((Py.len array + 15) / 16)))).
Proof.
  intros Hall. unfold Dump.hexdump.
  destruct (line_count_bounds array) as (Hf & Hn).
  rewrite (lines_eq array cursor Hall _ _ 0 [] ltac:(lia) Hf Hn).
  reflexivity.
Qed.

(** X14: on a tape of bytes [hexdump] writes one line for every sixteen
    cells, the last one for the cells left over; each line is the address of
    its first cell in at least eight hex digits, two groups of eight cells
    with their markers, and between bars the cells as characters, blanks
    standing for the cells past the end of the tape in the groups and nothing
    in the text. *)
Theorem hexdump_lines array cursor :
  Forall (fun v => 0 <= v < 256) array ->
  exists lines,
    Dump.hexdump array cursor = Some lines
    /\ Z.of_nat (List.length lines) = (Py.len array + 15) / 16
    /\ forall q line,
        nth_error lines q = Some line ->
        line = dump_line array cursor (16 * Z.of_nat q).
Proof.
  intros Hall. eexists. split; [apply hexdump_lines_eq; exact Hall|].
  rewrite length_map, length_seq. split.
  - apply Z2Nat.id. apply Z.div_pos; [pose proof (len_nonneg array)|]; lia.
  - intros q line Hq.
    assert (Hlt : (q < Z.to_nat ((Py.len array + 15) / 16))%nat).
    { assert (Hs : nth_error
                     (map (fun q => dump_line array cursor (16 * Z.of_nat q))
                          (seq 0 (Z.to_nat ((Py.len array + 15) / 16)))) q
                   <> None) by congruence.
      apply nth_error_Some in Hs.
      rewrite length_map, length_seq in Hs. exact Hs. }
    rewrite nth_error_map_seq in Hq by exact Hlt. congruence.
Qed.

Lemma hexdump_lines_witness :
  exists lines,
    Dump.hexdump [72; 105; 0; 127] 1 = Some lines
    /\ Z.of_nat (List.length lines) = (Py.len [72; 105; 0; 127] + 15) / 16
    /\ forall q line,
        nth_error lines q = Some line ->
        line = dump_line [72; 105; 0; 127] 1 (16 * Z.of_nat q).
Proof.
  apply (hexdump_lines [72; 105; 0; 127] 1).
  repeat constructor; lia.
Defined.

Lemma field_length array cursor k :
  Forall (fun v => 0 <= v < 256) array ->
  List.length (cell_field array cursor k) = 3%nat.
Proof.
  intros Hall. unfold cell_field.
  destruct (k <? Py.len array); [|reflexivity].
  destruct (hex2_byte _ (cell_at_byte array k Hall)) as (d1 & d2 & E & _).
  rewrite E. reflexivity.
Qed.

Lemma fields_length array cursor k n :
  Forall (fun v => 0 <= v < 256) array ->
  List.length (List.concat (map (cell_field array cursor) (cells_from k n)))
  = (3 * n)%nat.
Proof.
  intros Hall. revert k. induction n as [|n IH]; intros k; [reflexivity|].
  rewrite cells_from_S. cbn [map List.concat].
  rewrite length_app, field_length, IH by exact Hall. lia.
Qed.

Lemma group_length array cursor k :
  Forall (fun v => 0 <= v < 256) array ->
  List.length (group array cursor k) = 25%nat.
Proof.
  intros Hall. unfold group.
  rewrite length_app, fields_length by exact Hall. reflexivity.
Qed.

Lemma group_marks array cursor k a b :
  Forall (fun v => 0 <= v < 256) array ->
  k mod 8 = 0 ->
  cursor = k + Z.of_nat a ->
  (a + S b = 8)%nat ->
  cursor < Py.len array ->
  exists d1 d2 post,
    group array cursor k
    = List.concat (map (cell_field array cursor) (cells_from k a))
      ++ "<"%char :: d1 :: d2 :: ">"%char :: post
    /\ HexString.to_Z (String "0" (String "x" (String d1 (String d2 ""))))
       = cell_at array cursor.
Proof.
  intros Hall Hk Hc Hab Hlt.
  destruct (hex2_byte _ (cell_at_byte array cursor Hall))
    as (d1 & d2 & E & Hback).
  exists d1, d2. unfold group. rewrite <- Hab.
  rewrite cells_from_app, map_app, concat_app, cells_from_S.
  cbn [map List.concat]. rewrite <- Hc.
  assert (Hf : cell_field array cursor cursor = ["<"%char; d1; d2]).
  { unfold cell_field, marker. rewrite Z.eqb_refl.
    destruct (Z.ltb_spec cursor (Py.len array)); [|lia].
    rewrite E. reflexivity. }
  rewrite Hf.
  destruct b as [|b].
  - exists []. split; [|exact Hback].
    cbn [cells_from seq map List.concat app]. unfold closer.
    replace (cursor =? k + 8 - 1) with true by (symmetry; apply Z.eqb_eq; lia).
    rewrite <- !app_assoc. reflexivity.
  - rewrite cells_from_S. cbn [map List.concat].
    unfold cell_field at 2. unfold marker.
    replace (cursor =? cursor + 1) with false
      by (symmetry; apply Z.eqb_neq; lia).
    replace (cursor =? cursor + 1 - 1) with true
      by (symmetry; apply Z.eqb_eq; lia).
    replace ((cursor + 1) mod 8 =? 0) with false.
    2:{ symmetry. apply Z.eqb_neq.
        pose proof (Z.div_mod k 8 ltac:(lia)).
        pose proof (Z.div_mod (cursor + 1) 8 ltac:(lia)).
        lia. }
    cbn [andb negb].
    eexists. split; [|exact Hback].
    rewrite <- !app_assoc. cbn [app]. reflexivity.
Qed.

(** X15: the dump marks the cell under the cursor.  On a tape of bytes with
    the cursor on the tape, line [cursor // 16] of the dump has, after its
    address and a blank, the two hex digits of that cell between [<] and [>],
    three columns on for every cell before it in the line and one more past
    the first group of eight; the two digits read back as the cell. *)
Theorem cursor_cell_is_marked array cursor :
  Forall (fun v => 0 <= v < 256) array ->
  0 <= cursor < Py.len array ->
  exists lines pre d1 d2 post,
    Dump.hexdump array cursor = Some lines
    /\ nth_error lines (Z.to_nat (cursor / 16))
       = Some (Dump.zfill 8 (Dump.hex_tail (16 * (cursor / 16)))
               ++ " "%char :: pre
               ++ "<"%char :: d1 :: d2 :: ">"%char :: post)
    /\ Z.of_nat (List.length pre)
       = 3 * (cursor mod 16) + (cursor mod 16) / 8
    /\ Py.getitem array cursor
       = Ok (HexString.to_Z
               (String "0" (String "x" (String d1 (String d2 ""))))).
Proof.
  intros Hall Hc.
  pose proof (Z.div_mod cursor 16 ltac:(lia)) as Hdm.
  pose proof (Z.mod_pos_bound cursor 16 ltac:(lia)) as Hr.
  assert (Hq : 0 <= cursor / 16) by (apply Z.div_pos; lia).
  set (q := cursor / 16) in *. set (r := cursor mod 16) in *.
  assert (Hk8 : (16 * q) mod 8 = 0).
  { replace (16 * q) with ((2 * q) * 8) by lia. apply Z.mod_mul. lia. }
  assert (Hk8' : (16 * q + 8) mod 8 = 0).
  { replace (16 * q + 8) with ((2 * q + 1) * 8) by lia. apply Z.mod_mul. lia. }
  rewrite getitem_cell_at by exact Hc.
  rewrite hexdump_lines_eq by exact Hall.
  destruct (line_count_bounds array) as (_ & Hn).
  set (lines := map (fun q => dump_line array cursor (16 * Z.of_nat q))
                    (seq 0 (Z.to_nat ((Py.len array + 15) / 16)))).
  assert (Hline : nth_error lines (Z.to_nat q)
                  = Some (dump_line array cursor (16 * q))).
  { unfold lines. rewrite nth_error_map_seq by lia.
    rewrite Z2Nat.id by exact Hq. reflexivity. }
  exists lines. rewrite Hline. unfold dump_line.
  destruct (Z.ltb_spec r 8) as [Hlo|Hhi].
  - destruct (group_marks array cursor (16 * q) (Z.to_nat r)
                          (7 - Z.to_nat r) Hall Hk8 ltac:(lia) ltac:(lia)
                          ltac:(lia))
      as (d1 & d2 & post & Hg & Hback).
    exists (List.concat (map (cell_field array cursor)
                             (cells_from (16 * q) (Z.to_nat r)))), d1, d2.
    eexists. split; [reflexivity|].
    rewrite Hg, Hback. split; [|split; [|reflexivity]].
    + cbn [app]. rewrite <- !app_assoc. cbn [app]. reflexivity.
    + rewrite fields_length by exact Hall.
      rewrite (Z.div_small r 8) by lia. lia.
  - destruct (group_marks array cursor (16 * q + 8) (Z.to_nat (r - 8))
                          (7 - Z.to_nat (r - 8)) Hall Hk8' ltac:(lia)
                          ltac:(lia) ltac:(lia))
      as (d1 & d2 & post & Hg & Hback).
    exists (group array cursor (16 * q)
            ++ List.concat (map (cell_field array cursor)
                                (cells_from (16 * q + 8)
                                            (Z.to_nat (r - 8))))),
      d1, d2.
    eexists. split; [reflexivity|].
    rewrite Hg, Hback. split; [|split; [|reflexivity]].
    + cbn [app]. rewrite <- !app_assoc. cbn [app]. reflexivity.
    + rewrite length_app, group_length, fields_length by exact Hall.
      replace (r / 8) with 1; [lia|].
      apply (Z.div_unique r 8 1 (r - 8)); lia.
Qed.

Lemma cursor_cell_is_marked_witness :
  exists lines pre d1 d2 post,
    Dump.hexdump [72; 105; 0; 127] 2 = Some lines
    /\ nth_error lines (Z.to_nat (2 / 16))
       = Some (Dump.zfill 8 (Dump.hex_tail (16 * (2 / 16)))
               ++ " "%char :: pre
               ++ "<"%char :: d1 :: d2 :: ">"%char :: post)
    /\ Z.of_nat (List.length pre) = 3 * (2 mod 16) + (2 mod 16) / 8
    /\ Py.getitem [72; 105; 0; 127] 2
       = Ok (HexString.to_Z
               (String "0" (String "x" (String d1 (String d2 ""))))).
Proof.
  apply (cursor_cell_is_marked [72; 105; 0; 127] 2).
  - repeat constructor; lia.
  - unfold Py.len. cbn. lia.
Defined.

(** X16: the dump of debug mode never fails.  At every state a run of
    [execute] reaches, [hexdump] of the tape and the cursor writes its lines,
    one for every sixteen cells or part of sixteen, at least one, and the
    cursor is on one of them. *)
Theorem dump_of_a_run source debug input s :
  Interp.reachable source debug input s ->
  exists lines,
    Dump.hexdump (Interp.array s) (Interp.cursor s) = Some lines
    /\ Z.of_nat (List.length lines) = (Py.len (Interp.array s) + 15) / 16
    /\ (0 < List.length lines)%nat
    /\ (Z.to_nat (Interp.cursor s / 16) < List.length lines)%nat.
Proof.
  intros R. destruct (reachable_well_formed _ _ _ _ R) as (Hc & Hcells & _).
  eexists. split; [apply hexdump_lines_eq; exact Hcells|].
  rewrite length_map, length_seq.
  destruct (line_count_bounds (Interp.array s)) as (_ & Hn).
  pose proof (Z.div_mod (Interp.cursor s) 16 ltac:(lia)).
  pose proof (Z.mod_pos_bound (Interp.cursor s) 16 ltac:(lia)).
  assert (0 <= Interp.cursor s / 16) by (apply Z.div_pos; lia).
  assert (0 <= (Py.len (Interp.array s) + 15) / 16)
    by (apply Z.div_pos; lia).
  lia.
Qed.

Lemma dump_of_a_run_witness :
  let s := Interp.mkState 1 [] [0; 0] 1 [] [] in
  exists lines,
    Dump.hexdump (Interp.array s) (Interp.cursor s) = Some lines
    /\ Z.of_nat (List.length lines) = (Py.len (Interp.array s) + 15) / 16
    /\ (0 < List.length lines)%nat
    /\ (Z.to_nat (Interp.cursor s / 16) < List.length lines)%nat.
Proof.
  apply (dump_of_a_run (chars ">!") true []).
  eapply Interp.reach_step;
    [ apply Interp.reach_initial | reflexivity | reflexivity ].
Defined.

(** * The emitted program in debug mode *)

Example unchecked_move_leaves_array :
  compile_and_run 10 (chars "<+.") 4 false [] = Some Host.OutOfBounds
  /\ compile_and_run 10 (chars "<+.") 4 true [] = Some Host.Aborted.
Proof. split; vm_compute; reflexivity. Qed.

Lemma headless_app a b : headless (a ++ b) = headless a && headless b.
Proof. apply forallb_app. Qed.

Lemma headless_pending_move c : headless (pending_move_text c) = true.
Proof.
  unfold pending_move_text.
  destruct (Translator.move c =? 0); [reflexivity|].
  destruct (Translator.debug c); reflexivity.
Qed.

Lemma headless_pending_incr c : headless (pending_incr_text c) = true.
Proof.
  unfold pending_incr_text.
  destruct (Translator.incr c =? 0); reflexivity.
Qed.

Lemma parse_headless c ch c' :
  Translator.parse c ch = Ok c' ->
  exists blk,
    Translator.source_output c' = Translator.source_output c ++ blk
    /\ headless blk = true.
Proof.
  unfold Translator.parse.
  assert (Same : exists blk,
             Translator.source_output c = Translator.source_output c ++ blk
             /\ headless blk = true)
    by (exists []; rewrite app_nil_r; split; reflexivity).
  destruct (Ascii.eqb ch Lexer.newline);
    [intros H; injection H as <-; exact Same|].
  destruct (Translator.comment c); cbn [negb];
    [intros H; injection H as <-; exact Same|].
  pose proof (proj1 (proj1 (quiet_write_move c))) as Hmove.
  pose proof (proj1 (proj1 (quiet_write_incr c))) as Hincr.
  pose proof (proj1 (proj1 (quiet_write_incr (Translator.write_move c))))
    as Hboth.
  rewrite Hmove in Hboth.
  case_cmd; intros H;
    try (destruct (Translator.level c <? 1); [discriminate H|]);
    injection H as <-;
    cbn [Translator.write Translator.set_move Translator.set_incr
         Translator.set_level Translator.set_comment
         Translator.source_output].
  - exact Same.
  - exists (pending_incr_text c). split; [exact Hincr|].
    apply headless_pending_incr.
  - exists (pending_incr_text c). split; [exact Hincr|].
    apply headless_pending_incr.
  - exists (pending_move_text c). split; [exact Hmove|].
    apply headless_pending_move.
  - exists (pending_move_text c). split; [exact Hmove|].
    apply headless_pending_move.
  - eexists. rewrite Hboth, <- !app_assoc. split; [reflexivity|].
    rewrite !headless_app, headless_pending_move, headless_pending_incr.
    reflexivity.
  - eexists. rewrite Hboth, <- !app_assoc. split; [reflexivity|].
    rewrite !headless_app, headless_pending_move, headless_pending_incr.
    reflexivity.
  - eexists. rewrite Hboth, <- !app_assoc. split; [reflexivity|].
    rewrite !headless_app, headless_pending_move, headless_pending_incr.
    reflexivity.
  - eexists. rewrite Hboth, <- !app_assoc. split; [reflexivity|].
    rewrite !headless_app, headless_pending_move, headless_pending_incr.
    reflexivity.
  - exact Same.
Qed.

Lemma parse_all_headless text :
  forall c c',
    Translator.parse_all c text = Ok c' ->
    exists blk,
      Translator.source_output c' = Translator.source_output c ++ blk
      /\ headless blk = true.
Proof.
  induction text as [|ch text IH]; intros c c' H;
    cbn [Translator.parse_all] in H.
  - injection H as <-. exists []. rewrite app_nil_r. split; reflexivity.
  - destruct (Translator.parse c ch) as [c1| |] eqn:Hp; cbn [bind] in H;
      try discriminate H.
    destruct (parse_headless _ _ _ Hp) as (blk1 & Ho1 & Hh1).
    destruct (IH _ _ H) as (blk2 & Ho2 & Hh2).
    exists (blk1 ++ blk2). rewrite Ho2, Ho1, app_assoc.
    split; [reflexivity|]. rewrite headless_app, Hh1, Hh2. reflexivity.
Qed.

Lemma compile_headless text debug size c :
  Translator.compile text debug size = Ok c ->
  exists body,
    Translator.source_output c = Translator.Header size :: body
    /\ headless body = true.
Proof.
  unfold Translator.compile. intros H.
  destruct (Translator.parse_all _ text) as [c1| |] eqn:Hp; cbn [bind] in H;
    try discriminate H.
  destruct (parse_all_headless _ _ _ Hp) as (blk & Ho & Hh).
  unfold Translator.finish in H.
  destruct (Translator.level c1 >? 0); [discriminate H|].
  injection H as <-. cbn [Translator.write Translator.source_output].
  rewrite Ho.
  cbn [Translator.start Translator.init Translator.write Translator.size
       Translator.source_output app].
  exists (blk ++ [Translator.Return]). split; [reflexivity|].
  rewrite headless_app, Hh. reflexivity.
Qed.

Lemma guarded_app size a b :
  guarded size a -> guarded size b -> guarded size (a ++ b).
Proof.
  induction 1 as [|rest Hr IH|d rest Hr IH|x rest Hx Hr IH
                 |body rest Hb IHb Hr IH];
    intros Hb'; cbn [app];
    [ assumption | apply guarded_header | apply guarded_move
    | apply guarded_simple | apply guarded_loop ]; auto.
Qed.

Lemma blocks_guarded size n :
  forall out cur outer p,
    (List.length out <= n)%nat ->
    checked_moves true size out = true ->
    headless out = true ->
    guarded size cur ->
    Forall (guarded size) outer ->
    Host.blocks out cur outer = Some p ->
    guarded size p.
Proof.
  induction n as [|n IH]; intros out cur outer p Hn Hck Hh Hcur Houter Hb.
  - destruct out; [|cbn in Hn; lia].
    cbn in Hb. destruct outer; [|discriminate Hb]. injection Hb as <-.
    exact Hcur.
  - destruct out as [|x out].
    { cbn in Hb. destruct outer; [|discriminate Hb]. injection Hb as <-.
      exact Hcur. }
    cbn [List.length] in Hn. cbn [headless forallb] in Hh.
    apply andb_true_iff in Hh as (Hx & Hh). fold (headless out) in Hh.
    assert (Snoc : forall y,
               match y with
               | Translator.Header _ | Translator.PtrAdd _
               | Translator.Assert _ => False
               | _ => True
               end ->
               guarded size (cur ++ [Host.Simple y])).
    { intros y Hy. apply guarded_app; [exact Hcur|].
      apply guarded_simple; [exact Hy|constructor]. }
    destruct x; cbn [checked_moves] in Hck; cbn [Host.blocks] in Hb;
      try discriminate.
    + destruct out as [|y out]; [discriminate Hck|].
      destruct y; try discriminate Hck.
      apply andb_true_iff in Hck as (Hsz & Hck).
      apply Z.eqb_eq in Hsz. subst size0.
      cbn [headless forallb] in Hh.
      apply andb_true_iff in Hh as (_ & Hh). fold (headless out) in Hh.
      cbn [Host.blocks] in Hb. cbn [List.length] in Hn.
      apply (IH out _ outer p ltac:(lia) Hck Hh) in Hb;
        [exact Hb| |exact Houter].
      rewrite <- app_assoc. apply guarded_app; [exact Hcur|].
      cbn [app]. apply guarded_move. constructor.
    + apply (IH out _ outer p ltac:(lia) Hck Hh (Snoc (Translator.CellAdd d) I) Houter Hb).
    + apply (IH out _ outer p ltac:(lia) Hck Hh (Snoc Translator.Putchar I) Houter Hb).
    + apply (IH out _ outer p ltac:(lia) Hck Hh (Snoc Translator.Getchar I) Houter Hb).
    + apply (IH out _ _ p ltac:(lia) Hck Hh (guarded_nil size)) in Hb;
        [exact Hb|]. constructor; assumption.
    + destruct outer as [|parent outer]; [discriminate Hb|].
      inversion Houter as [|? ? Hparent Houter']; subst.
      apply (IH out _ outer p ltac:(lia) Hck Hh) in Hb;
        [exact Hb| |exact Houter'].
      apply guarded_app; [exact Hparent|].
      apply guarded_loop; [exact Hcur|constructor].
    + apply (IH out _ outer p ltac:(lia) Hck Hh (Snoc Translator.Return I) Houter Hb).
Qed.

Lemma last_cons {A : Type} (l : list A) a d : last (a :: l) d = last l a.
Proof.
  revert a d. induction l as [|b l IH]; intros a d; [reflexivity|].
  change (last (a :: b :: l) d) with (last (b :: l) d).
  rewrite !IH. reflexivity.
Qed.

Lemma last_app_default {A : Type} (outer : list (list A)) a x :
  exists y, last outer (a ++ x) = last outer a ++ y.
Proof.
  destruct outer as [|b outer].
  - exists x. reflexivity.
  - exists []. rewrite !last_cons, app_nil_r. reflexivity.
Qed.

Lemma blocks_bottom out :
  forall cur outer p,
    Host.blocks out cur outer = Some p ->
    exists tail, p = last outer cur ++ tail.
Proof.
  induction out as [|x out IH]; intros cur outer p Hb.
  - cbn in Hb. destruct outer; [|discriminate Hb]. injection Hb as <-.
    exists []. cbn. rewrite app_nil_r. reflexivity.
  - assert (Snoc : forall y,
               Host.blocks out (cur ++ [y]) outer = Some p ->
               exists tail, p = last outer cur ++ tail).
    { intros y Hy. destruct (IH _ _ _ Hy) as (tail & ->).
      destruct (last_app_default outer cur [y]) as (z & ->).
      exists (z ++ tail). rewrite app_assoc. reflexivity. }
    destruct x; cbn [Host.blocks] in Hb; try (apply (Snoc _ Hb)).
    + destruct (IH _ _ _ Hb) as (tail & ->). exists tail.
      rewrite last_cons. reflexivity.
    + destruct outer as [|parent outer]; [discriminate Hb|].
      destruct (IH _ _ _ Hb) as (tail & ->).
      destruct (last_app_default outer parent [Host.Loop cur]) as (z & ->).
      exists (z ++ tail). rewrite last_cons, app_assoc. reflexivity.
Qed.

Lemma exec_in_array size x m :
  in_array size m ->
  match x with
  | Translator.Header _ | Translator.PtrAdd _ | Translator.Assert _ => False
  | _ => True
  end ->
  exists m', Host.exec x m = Host.Running m' /\ in_array size m'.
Proof.
  intros (Hlen & Hptr) Hx.
  assert (Hb : 0 <= Host.ptr m < Py.len (Host.array m)) by lia.
  destruct x; try contradiction; cbn [Host.exec].
  - rewrite host_load_in_bounds, host_store_in_bounds by exact Hb.
    eexists. split; [reflexivity|]. unfold in_array.
    cbn [Host.array Host.ptr]. rewrite len_update. lia.
  - rewrite host_load_in_bounds by exact Hb.
    destruct (Byte.of_N _) as [b|] eqn:E.
    + eexists. split; [reflexivity|]. split; assumption.
    + apply Byte.of_N_None_iff in E.
      pose proof (Z.mod_pos_bound
                    (cell_at (Host.array m) (Host.ptr m)) 256 ltac:(lia)).
      lia.
  - destruct (Host.stdin m) as [|b rest].
    + rewrite host_store_in_bounds by exact Hb.
      eexists. split; [reflexivity|]. unfold in_array.
      cbn [Host.array Host.ptr]. rewrite len_update. lia.
    + rewrite host_store_in_bounds by exact Hb.
      eexists. split; [reflexivity|]. unfold in_array.
      cbn [Host.array Host.ptr]. rewrite len_update. lia.
  - eexists. split; [reflexivity|]. split; assumption.
  - eexists. split; [reflexivity|]. split; assumption.
  - eexists. split; [reflexivity|]. split; assumption.
Qed.

Lemma run_guarded size :
  1 <= size ->
  forall n fuel p m,
    (fuel <= n)%nat ->
    guarded size p ->
    in_array size m
    \/ (exists rest, p = Host.Simple (Translator.Header size) :: rest) ->
    stays_in_array size (Host.run fuel p m).
Proof.
  intros Hsize. induction n as [|n IH]; intros fuel p m Hf Hg Hready.
  - destruct fuel; [exact I|lia].
  - destruct fuel as [|fuel]; [exact I|]. cbn [Host.run].
    destruct Hg as [|rest Hr|d rest Hr|x rest Hx Hr|body rest Hb Hr].
    + destruct Hready as [Hin|(r & E)]; [exact Hin|discriminate E].
    + cbn [Host.exec]. apply IH; [lia|exact Hr|left].
      unfold in_array, Py.len. cbn [Host.array Host.ptr].
      rewrite repeat_length. lia.
    + destruct Hready as [(Hlen & Hptr)|(r & E)]; [|discriminate E].
      cbn [Host.exec].
      destruct fuel as [|fuel]; [exact I|].
      cbn [Host.run Host.exec Host.ptr].
      destruct (Z.leb_spec 0 (Host.ptr m + d));
        destruct (Z.ltb_spec (Host.ptr m + d) size); cbn [andb];
        try exact I.
      apply IH; [lia|exact Hr|left].
      split; cbn [Host.array Host.ptr]; [exact Hlen|lia].
    + destruct Hready as [Hin|(r & E)].
      * destruct (exec_in_array size x m Hin Hx) as (m' & He & Hin').
        rewrite He. apply IH; [lia|exact Hr|left; exact Hin'].
      * injection E as -> _. destruct Hx.
    + destruct Hready as [Hin|(r & E)]; [|discriminate E].
      rewrite host_load_in_bounds by (destruct Hin; lia).
      destruct (_ =? 0).
      * apply IH; [lia|exact Hr|left; exact Hin].
      * pose proof (IH fuel body m ltac:(lia) Hb (or_introl Hin)) as Hbody.
        destruct (Host.run fuel body m) as [[m'| |]|];
          cbn [stays_in_array] in Hbody |- *.
        -- apply IH; [lia|apply guarded_loop; assumption|left; exact Hbody].
        -- exact I.
        -- exact Hbody.
        -- exact I.
Qed.

(** X17: the program emitted in debug mode never reads or writes outside its
    array.  For an array of at least one cell, however long the emitted
    program is run and whatever its input, it does not reach a [*ptr]
    outside [array]: a move that leaves the array stops it at the assertion
    that follows; and if it ends, its pointer is inside the array. *)
Theorem debug_program_stays_in_array text size c fuel input :
  Translator.compile text true size = Ok c ->
  1 <= size ->
  compile_and_run fuel text size true input <> Some Host.OutOfBounds
  /\ forall m,
      compile_and_run fuel text size true input = Some (Host.Running m) ->
      Py.len (Host.array m) = size /\ 0 <= Host.ptr m < size.
Proof.
  intros H Hsize.
  assert (Hs : stays_in_array size
                 (compile_and_run fuel text size true input)).
  { unfold compile_and_run. rewrite H. cbn [emitted].
    unfold Host.run_program.
    destruct (compile_headless _ _ _ _ H) as (body & Ho & Hh).
    destruct (compile_appends _ _ _ _ H) as (Hck & _).
    rewrite Ho in Hck |- *. cbn [checked_moves] in Hck.
    cbn [Host.blocks app].
    destruct (Host.blocks body _ []) as [p|] eqn:Hb; [|exact I].
    destruct (blocks_bottom _ _ _ _ Hb) as (tail & Hp).
    cbn [last app] in Hp.
    apply (run_guarded size Hsize fuel fuel p _ (le_n _)).
    - apply (blocks_guarded size (List.length body) body
                            [Host.Simple (Translator.Header size)] [] p
                            (le_n _) Hck Hh); [|constructor|exact Hb].
      apply guarded_header. constructor.
    - right. exists tail. exact Hp. }
  split.
  - intros E. rewrite E in Hs. exact Hs.
  - intros m E. rewrite E in Hs. exact Hs.
Qed.

Lemma debug_program_stays_in_array_witness :
  compile_and_run 40 (chars "+[>+]") 3 true [] <> Some Host.OutOfBounds
  /\ forall m,
      compile_and_run 40 (chars "+[>+]") 3 true [] = Some (Host.Running m) ->
      Py.len (Host.array m) = 3 /\ 0 <= Host.ptr m < 3.
Proof.
  destruct (Translator.compile (chars "+[>+]") true 3) as [c| |] eqn:E;
    [|discriminate E|discriminate E].
  apply (debug_program_stays_in_array (chars "+[>+]") 3 c 40 [] E).
  lia.
Defined.
